(** * Emergency dispatch, tracking and document expiry: a shallow embedding

    The route handlers of the application are embedded as pure functions over
    an explicit database value.  Each handler takes the identity that
    [getRequestUser] read from the headers, the JSON body (or query) fields it
    uses, the wall-clock reading [now] (milliseconds, [Date.now()]) and the
    database, and returns its HTTP response together with the database it
    leaves behind.

    Conventions.
    - JavaScript numbers that carry coordinates and distances are rationals
      ([Q]); timestamps are [Z] milliseconds.
    - A Prisma table addressed by primary key is a [gmap string _]; the user
      table, which is only ever scanned, is a [list] in table order.
    - A handler reads the clock once: the several [new Date()] / [Date.now()]
      calls of one request are one reading [now].
    - Storage failures (the [catch] blocks answering 500) are modelled only
      where a handler does something other than report them: the two cached
      reads (tracking and the hospital feed) and their degraded paths. *)

From Stdlib Require Import ZArith QArith Qround Qabs Lia Lqa Ascii String.
From stdpp Require Import base option list strings pretty sorting gmap.

Local Open Scope Z_scope.

(** ** Numbers *)

Definition Qltb (a b : Q) : bool := negb (Qle_bool b a).

(** [Math.round]: the nearest integer, ties towards +infinity. *)
Definition Math_round (x : Q) : Z := Qfloor (Qplus x (1 # 2)).

(** [Math.ceil]. *)
Definition Math_ceil (x : Q) : Z := Qceiling x.

(** [a || b] on a nullable string: the empty string is falsy. *)
Definition truthy_string (s : option string) : option string :=
  match s with
  | Some s' => if String.eqb s' "" then None else Some s'
  | None => None
  end.

(** ** Data model *)

Inductive Status := pending | assigned | en_route | arrived | completed.

#[global] Instance Status_eq_dec : EqDecision Status.
Proof. solve_decision. Defined.

Inductive Role := patient | hospital | driver.

#[global] Instance Role_eq_dec : EqDecision Role.
Proof. solve_decision. Defined.

Definition role_string (r : Role) : string :=
  match r with
  | patient => "patient"
  | hospital => "hospital"
  | driver => "driver"
  end.

(** What [getRequestUser] yields when the headers carry an id and a role. *)
Record RequestUser := { ru_id : string; ru_role : Role }.

Module User.
Record t := mk {
  id : string;
  role : Role;
  isActive : bool;
  name : string;
  email : string;
  phone : string;
  licenseNumber : option string;
  address : option string;
  locationLat : option Q;
  locationLng : option Q;
  vehiclePlate : option string;
  createdAt : Z
}.
End User.

Module Emergency.
Record t := mk {
  id : string;
  patientId : string;
  status : Status;
  patientLat : Q;
  patientLng : Q;
  address : string;
  symptoms : option string;
  severityScore : option Z;
  aiAssessment : option string;
  assignedHospitalId : option string;
  assignedDriverId : option string;
  driverLat : option Q;
  driverLng : option Q;
  driverLastLocationUpdate : option Z;
  distanceKm : option Q;
  etaMinutes : option Z;
  triggeredAt : Z;
  acceptedAt : option Z;
  arrivedAt : option Z;
  completedAt : option Z;
  assignedBedType : option string;
  hospitalNotes : option string
}.

(** The [data] object of a [prisma.emergency.update]: a field left
    [undefined] ([None] here) is not written. *)
Record data := mkData {
  d_status : option Status;
  d_patientLat : option Q;
  d_patientLng : option Q;
  d_address : option string;
  d_severityScore : option Z;
  d_aiAssessment : option string;
  d_assignedHospitalId : option string;
  d_assignedDriverId : option string;
  d_driverLat : option Q;
  d_driverLng : option Q;
  d_driverLastLocationUpdate : option Z;
  d_distanceKm : option Q;
  d_etaMinutes : option Z;
  d_acceptedAt : option Z;
  d_arrivedAt : option Z;
  d_completedAt : option Z;
  d_assignedBedType : option string;
  d_hospitalNotes : option string
}.

Definition no_data : data :=
  mkData None None None None None None None None None
         None None None None None None None None None.

(** Writing an optional column: the new value when one is given. *)
Definition put {A} (new : option A) (old : option A) : option A :=
  match new with Some v => Some v | None => old end.

Definition write (d : data) (e : t) : t :=
  {| id := id e;
     patientId := patientId e;
     status := default (status e) (d_status d);
     patientLat := default (patientLat e) (d_patientLat d);
     patientLng := default (patientLng e) (d_patientLng d);
     address := default (address e) (d_address d);
     symptoms := symptoms e;
     severityScore := put (d_severityScore d) (severityScore e);
     aiAssessment := put (d_aiAssessment d) (aiAssessment e);
     assignedHospitalId := put (d_assignedHospitalId d) (assignedHospitalId e);
     assignedDriverId := put (d_assignedDriverId d) (assignedDriverId e);
     driverLat := put (d_driverLat d) (driverLat e);
     driverLng := put (d_driverLng d) (driverLng e);
     driverLastLocationUpdate :=
       put (d_driverLastLocationUpdate d) (driverLastLocationUpdate e);
     distanceKm := put (d_distanceKm d) (distanceKm e);
     etaMinutes := put (d_etaMinutes d) (etaMinutes e);
     triggeredAt := triggeredAt e;
     acceptedAt := put (d_acceptedAt d) (acceptedAt e);
     arrivedAt := put (d_arrivedAt d) (arrivedAt e);
     completedAt := put (d_completedAt d) (completedAt e);
     assignedBedType := put (d_assignedBedType d) (assignedBedType e);
     hospitalNotes := put (d_hospitalNotes d) (hospitalNotes e) |}.
End Emergency.

Module MedicalDocument.
Record t := mk {
  id : string;
  emergencyId : string;
  url : string;
  cloudinaryId : string;
  expiresAt : Z;
  createdAt : Z
}.
End MedicalDocument.

(** The persistent state: the three tables and the blob store behind
    [cloudinary.uploader]. *)
Record Db := mkDb {
  users : list User.t;
  emergencies : gmap string Emergency.t;
  documents : gmap string MedicalDocument.t;
  blobs : gset string
}.

Definition with_emergencies (m : gmap string Emergency.t) (db : Db) : Db :=
  {| users := users db; emergencies := m;
     documents := documents db; blobs := blobs db |}.

(** [prisma.emergency.update({ where: { id }, data })]: rejects (here [None])
    when no row has that id. *)
Definition emergency_update (eid : string) (d : Emergency.data) (db : Db)
  : option (Emergency.t * Db) :=
  match emergencies db !! eid with
  | Some e =>
      let e' := Emergency.write d e in
      Some (e', with_emergencies (<[eid := e']> (emergencies db)) db)
  | None => None
  end.

(** [prisma.emergency.findFirst({ where: { id, ... } })]: the row with that
    id, when it also meets the remaining conditions. *)
Definition find_emergency (eid : string) (cond : Emergency.t → bool) (db : Db)
  : option Emergency.t :=
  match emergencies db !! eid with
  | Some e => if cond e then Some e else None
  | None => None
  end.

(** [prisma.user.findUnique({ where: { id } })]. *)
Definition find_user (uid : string) (us : list User.t) : option User.t :=
  List.find (fun u => String.eqb (User.id u) uid) us.

(** ** GeoRank (the maps service) *)

(** [calculateDistance] evaluates the haversine formula with [Math.sin],
    [Math.cos] and [Math.atan2] over doubles.  The value [R * c] it reaches
    before rounding is taken as given: [haversineKm lat1 lng1 lat2 lng2], in
    kilometres.  Everything the function does with that value is modelled. *)
Class GeoOracle := haversineKm : Q → Q → Q → Q → Q.

Section GeoRank.
Context `{GeoOracle}.

(** [Math.round(distance * 10) / 10]. *)
Definition calculateDistance (lat1 lng1 lat2 lng2 : Q) : Q :=
  (inject_Z (Math_round (haversineKm lat1 lng1 lat2 lng2 * 10)) / 10)%Q.

(** [calculateETA(distanceKm)] at the default 60 km/h. *)
Definition calculateETA (distanceKm : Q) : Z :=
  Math_ceil (distanceKm / 60 * 60)%Q.

End GeoRank.

(** [isValidCoordinate], and the same test written inline by the driver
    location route. *)
Definition isValidCoordinate (lat lng : Q) : bool :=
  Qle_bool (-90) lat && Qle_bool lat 90 && Qle_bool (-180) lng && Qle_bool lng 180.

(** [Array.prototype.sort] is stable: an element moves only past elements
    that the comparator puts strictly before it.  [before y x] reads
    "compare(y, x) < 0". *)
Fixpoint insert_by {A} (before : A → A → bool) (x : A) (l : list A) : list A :=
  match l with
  | [] => [x]
  | y :: l' => if before y x then y :: insert_by before x l' else x :: y :: l'
  end.

Definition sort_by {A} (before : A → A → bool) (l : list A) : list A :=
  foldr (insert_by before) [] l.

(** ** Dispatch Matcher *)

Record RankedHospital := {
  h_user : User.t;
  h_distance : Q
}.

(** The [location] property the matcher adds to a ranked hospital. *)
Definition h_location (h : RankedHospital) : option (Q * Q) :=
  match User.locationLat (h_user h), User.locationLng (h_user h) with
  | Some a, Some b => Some (a, b)
  | _, _ => None
  end.

Record RankedDriver := {
  a_user : User.t;
  a_distance : option Q;           (* [None] is Number.POSITIVE_INFINITY *)
  currentLocation : option (Q * Q)
}.

(** The comparator of [findNearestAmbulances].  Two drivers without a
    location give [Infinity - Infinity = NaN], which [sort] reads as a tie. *)
Definition driver_before (a b : RankedDriver) : bool :=
  match a_distance a, a_distance b with
  | Some x, Some y =>
      Qltb x y || (Qeq_bool x y && String.ltb (User.id (a_user a)) (User.id (a_user b)))
  | Some _, None => true
  | None, _ => false
  end.

Section Matcher.
Context `{GeoOracle}.

Definition rank_hospital (latitude longitude : Q) (u : User.t) : option RankedHospital :=
  if bool_decide (User.role u = hospital) && User.isActive u then
    match User.locationLat u, User.locationLng u with
    | Some a, Some b =>
        Some {| h_user := u; h_distance := calculateDistance latitude longitude a b |}
    | _, _ => None
    end
  else None.

Definition findNearestHospitals (latitude longitude : Q) (limit : nat)
    (us : list User.t) : list RankedHospital :=
  take limit
    (sort_by (fun a b => Qltb (h_distance a) (h_distance b))
       (omap (rank_hospital latitude longitude) us)).

(** The [where] clause of the driver scan: the license filter is applied
    only for a truthy [licenseNumber] argument. *)
Definition driver_candidate (licenseNumber : option string) (u : User.t) : bool :=
  bool_decide (User.role u = driver) && User.isActive u &&
  match truthy_string licenseNumber with
  | Some l => bool_decide (User.licenseNumber u = Some l)
  | None => true
  end.

Definition rank_driver (latitude longitude : Q) (u : User.t) : RankedDriver :=
  match User.locationLat u, User.locationLng u with
  | Some a, Some b =>
      {| a_user := u;
         a_distance := Some (calculateDistance latitude longitude a b);
         currentLocation := Some (a, b) |}
  | _, _ => {| a_user := u; a_distance := None; currentLocation := None |}
  end.

Definition findNearestAmbulances (latitude longitude : Q) (limit : nat)
    (licenseNumber : option string) (us : list User.t) : list RankedDriver :=
  take limit
    (sort_by driver_before
       (rank_driver latitude longitude <$> filter (fun u => driver_candidate licenseNumber u = true) us)).

End Matcher.

(** [prisma.user.findFirst] for an active hospital, oldest first. *)
Definition fallback_hospital (us : list User.t) : option User.t :=
  head (sort_by (fun a b => User.createdAt a <? User.createdAt b)
          (filter (fun u => bool_decide (User.role u = hospital) && User.isActive u = true) us)).

(** ** Responses *)

Record Response (B : Type) := respond { httpStatus : Z; body : B }.
Arguments respond {B} _ _.
Arguments httpStatus {B} _.
Arguments body {B} _.

(** ** The patient SOS route: [create] and [updatePatientLocation] *)

(** The [location] object of a request body.  A coordinate is [None] when it
    is missing, [null], or does not convert to a finite number. *)
Record LocationInput := {
  lat : option Q;
  lng : option Q;
  loc_address : option string
}.

(** The shape check both SOS handlers run on [location]. *)
Definition valid_location (location : option LocationInput) : option (Q * Q) :=
  match location with
  | Some l =>
      match lat l, lng l with
      | Some a, Some b => Some (a, b)
      | _, _ => None
      end
  | None => None
  end.

Record HospitalSummary := {
  hs_id : string;
  hs_name : string;
  hs_licenseNumber : option string;
  hs_address : option string;
  hs_location : option (Q * Q)
}.

Inductive SosBody :=
| SosError (error : string)
  (* ambulanceDispatched: false, eta: null *)
| SosHospitalOnly (sosId message hospitalAssigned : string)
    (hospitalLicenseNumber : option string) (hosp : HospitalSummary)
  (* ambulanceDispatched: true *)
| SosDispatched (sosId : string) (eta : option Z) (distanceKm : option Q)
    (hospitalAssigned hospitalLicenseNumber : string) (hosp : HospitalSummary)
    (driverId driverEmail driverName : string) (severityScore : Z).

Definition ambulanceDispatched (b : SosBody) : option bool :=
  match b with
  | SosError _ => None
  | SosHospitalOnly _ _ _ _ _ => Some false
  | SosDispatched _ _ _ _ _ _ _ _ _ _ => Some true
  end.

(** The text a response carries in [message] (or [error]). *)
Definition sos_text (b : SosBody) : option string :=
  match b with
  | SosError e => Some e
  | SosHospitalOnly _ m _ _ _ => Some m
  | SosDispatched _ _ _ _ _ _ _ _ _ _ => None
  end.

Definition msg_fallback : string :=
  "Hospitals are missing location coordinates, so the emergency was assigned without distance ranking. Please ensure hospitals set their locationLat/locationLng.".
Definition msg_no_license : string :=
  "Nearest hospital has no license on file, so no ambulance can be assigned automatically.".
Definition msg_no_driver : string :=
  "No matching ambulances available for this hospital license. Emergency dispatched manually.".

(** What the Severity Scorer returned; [None] when it threw or gave nothing. *)
Record AiResult := { ai_severityScore : Z; ai_assessment : string }.

Definition user_location (u : User.t) : option (Q * Q) :=
  match User.locationLat u, User.locationLng u with
  | Some a, Some b => Some (a, b)
  | _, _ => None
  end.

Definition hospital_only_data (hid : string) (severityScore : Z) (aiAssessment : string)
  : Emergency.data :=
  {| Emergency.d_status := None;
     Emergency.d_patientLat := None;
     Emergency.d_patientLng := None;
     Emergency.d_address := None;
     Emergency.d_severityScore := Some severityScore;
     Emergency.d_aiAssessment := Some aiAssessment;
     Emergency.d_assignedHospitalId := Some hid;
     Emergency.d_assignedDriverId := None;
     Emergency.d_driverLat := None;
     Emergency.d_driverLng := None;
     Emergency.d_driverLastLocationUpdate := None;
     Emergency.d_distanceKm := None;
     Emergency.d_etaMinutes := None;
     Emergency.d_acceptedAt := None;
     Emergency.d_arrivedAt := None;
     Emergency.d_completedAt := None;
     Emergency.d_assignedBedType := None;
     Emergency.d_hospitalNotes := None |}.

Definition dispatched_data (hid did : string) (severityScore : Z) (aiAssessment : string)
    (etaMinutes : option Z) (distanceKm : option Q) : Emergency.data :=
  {| Emergency.d_status := Some assigned;
     Emergency.d_patientLat := None;
     Emergency.d_patientLng := None;
     Emergency.d_address := None;
     Emergency.d_severityScore := Some severityScore;
     Emergency.d_aiAssessment := Some aiAssessment;
     Emergency.d_assignedHospitalId := Some hid;
     Emergency.d_assignedDriverId := Some did;
     Emergency.d_driverLat := None;
     Emergency.d_driverLng := None;
     Emergency.d_driverLastLocationUpdate := None;
     Emergency.d_distanceKm := distanceKm;
     Emergency.d_etaMinutes := etaMinutes;
     Emergency.d_acceptedAt := None;
     Emergency.d_arrivedAt := None;
     Emergency.d_completedAt := None;
     Emergency.d_assignedBedType := None;
     Emergency.d_hospitalNotes := None |}.

(** The row [prisma.emergency.create] inserts. *)
Definition created_row (freshId uid : string) (la lo : Q) (location : option LocationInput)
    (symptoms : option string) (now : Z) : Emergency.t :=
  {| Emergency.id := freshId;
     Emergency.patientId := uid;
     Emergency.status := pending;
     Emergency.patientLat := la;
     Emergency.patientLng := lo;
     Emergency.address :=
       default "Location not available" (truthy_string (location ≫= loc_address));
     Emergency.symptoms := truthy_string symptoms;
     Emergency.severityScore := None;
     Emergency.aiAssessment := None;
     Emergency.assignedHospitalId := None;
     Emergency.assignedDriverId := None;
     Emergency.driverLat := None;
     Emergency.driverLng := None;
     Emergency.driverLastLocationUpdate := None;
     Emergency.distanceKm := None;
     Emergency.etaMinutes := None;
     Emergency.triggeredAt := now;
     Emergency.acceptedAt := None;
     Emergency.arrivedAt := None;
     Emergency.completedAt := None;
     Emergency.assignedBedType := None;
     Emergency.hospitalNotes := None |}.

(** An update inside the handler's [try]: a rejection lands in the
    [catch], which answers 500 with the given text. *)
Definition update_then {B} (eid : string) (d : Emergency.data) (db : Db)
    (failure : B) (k : Emergency.t → Db → Response B * Db) : Response B * Db :=
  match emergency_update eid d db with
  | Some (e, db') => k e db'
  | None => (respond 500 failure, db)
  end.

Section SosRoute.
Context `{GeoOracle}.

Definition summary_of_user (u : User.t) (license : option string) (loc : option (Q * Q))
  : HospitalSummary :=
  {| hs_id := User.id u; hs_name := User.name u; hs_licenseNumber := license;
     hs_address := truthy_string (User.address u); hs_location := loc |}.

(** POST /api/patient/sos.  [freshId] is the id Prisma gives the new row. *)
Definition sos_POST (requestUser : option RequestUser) (location : option LocationInput)
    (symptoms : option string) (aiResult : option AiResult) (freshId : string)
    (now : Z) (db : Db) : Response SosBody * Db :=
  match requestUser with
  | Some {| ru_id := uid; ru_role := patient |} =>
    match valid_location location with
    | None => (respond 400 (SosError "Invalid location data"), db)
    | Some (la, lo) =>
      let created := created_row freshId uid la lo location symptoms now in
      let db1 := with_emergencies (<[freshId := created]> (emergencies db)) db in
      let severityScore := from_option ai_severityScore 50 aiResult in
      let aiAssessment :=
        from_option ai_assessment "Symptoms received, awaiting analysis" aiResult in
      let failure := SosError "Failed to trigger SOS" in
      match findNearestHospitals la lo 5 (users db1) with
      | [] =>
        match fallback_hospital (users db1) with
        | None => (respond 503 (SosError "No hospitals available"), db1)
        | Some fh =>
          update_then freshId (hospital_only_data (User.id fh) severityScore aiAssessment)
            db1 failure (fun _ db2 =>
            let license := truthy_string (User.licenseNumber fh) in
            (respond 202
               (SosHospitalOnly freshId msg_fallback (User.name fh) license
                  (summary_of_user fh license (user_location fh))), db2))
        end
      | assignedHospital :: _ =>
        let hu := h_user assignedHospital in
        match truthy_string (User.licenseNumber hu) with
        | None =>
          update_then freshId (hospital_only_data (User.id hu) severityScore aiAssessment)
            db1 failure (fun _ db2 =>
            (respond 202
               (SosHospitalOnly freshId msg_no_license (User.name hu) None
                  (summary_of_user hu None (h_location assignedHospital))), db2))
        | Some assignedHospitalLicense =>
          match findNearestAmbulances la lo 3 (Some assignedHospitalLicense) (users db1) with
          | [] =>
            update_then freshId (hospital_only_data (User.id hu) severityScore aiAssessment)
              db1 failure (fun _ db2 =>
              (respond 202   (* Accepted but pending *)
                 (SosHospitalOnly freshId msg_no_driver (User.name hu)
                    (Some assignedHospitalLicense)
                    (summary_of_user hu (Some assignedHospitalLicense)
                       (h_location assignedHospital))), db2))
          | assignedAmbulance :: _ =>
            let du := a_user assignedAmbulance in
            let distanceKm :=
              (fun '(dlat, dlng) => calculateDistance dlat dlng la lo)
                <$> currentLocation assignedAmbulance in
            let etaMinutes := calculateETA <$> distanceKm in
            update_then freshId
              (dispatched_data (User.id hu) (User.id du) severityScore aiAssessment
                 etaMinutes distanceKm)
              db1 failure (fun _ db2 =>
              (respond 201
                 (SosDispatched freshId etaMinutes distanceKm (User.name hu)
                    assignedHospitalLicense
                    (summary_of_user hu (Some assignedHospitalLicense)
                       (h_location assignedHospital))
                    (User.id du) (User.email du) (User.name du) severityScore), db2))
          end
        end
      end
    end
  | _ => (respond 401 (SosError "Unauthorized"), db)
  end.

End SosRoute.

Inductive PatchBody :=
| PatchError (error : string)
| PatchCompleted                                   (* { success, status: "completed" } *)
| PatchOk (id : string) (status : Status) (patientLat patientLng : Q).

Definition patient_location_data (la lo : Q) (address : option string) : Emergency.data :=
  {| Emergency.d_status := None;
     Emergency.d_patientLat := Some la;
     Emergency.d_patientLng := Some lo;
     Emergency.d_address := address;
     Emergency.d_severityScore := None;
     Emergency.d_aiAssessment := None;
     Emergency.d_assignedHospitalId := None;
     Emergency.d_assignedDriverId := None;
     Emergency.d_driverLat := None;
     Emergency.d_driverLng := None;
     Emergency.d_driverLastLocationUpdate := None;
     Emergency.d_distanceKm := None;
     Emergency.d_etaMinutes := None;
     Emergency.d_acceptedAt := None;
     Emergency.d_arrivedAt := None;
     Emergency.d_completedAt := None;
     Emergency.d_assignedBedType := None;
     Emergency.d_hospitalNotes := None |}.

(** PATCH /api/patient/sos. *)
Definition sos_PATCH (requestUser : option RequestUser) (emergencyId : option string)
    (location : option LocationInput) (db : Db) : Response PatchBody * Db :=
  match requestUser with
  | Some {| ru_id := uid; ru_role := patient |} =>
    match truthy_string emergencyId with
    | None => (respond 400 (PatchError "Emergency ID is required"), db)
    | Some eid =>
      match valid_location location with
      | None => (respond 400 (PatchError "Invalid location data"), db)
      | Some (la, lo) =>
        match find_emergency eid (fun e => bool_decide (Emergency.patientId e = uid)) db with
        | None => (respond 404 (PatchError "Emergency not found"), db)
        | Some _ =>
          update_then eid (patient_location_data la lo (location ≫= loc_address)) db
            (PatchError "Failed to update patient location") (fun updated db' =>
            if bool_decide (Emergency.status updated = completed)
            then (respond 200 PatchCompleted, db')
            else (respond 200
                    (PatchOk (Emergency.id updated) (Emergency.status updated)
                       (Emergency.patientLat updated) (Emergency.patientLng updated)), db'))
        end
      end
    end
  | _ => (respond 401 (PatchError "Unauthorized"), db)
  end.

(** ** The driver location route: [reportDriverLocation] and the driver
    status action *)

Record DriverTracking := {
  t_distance : Q;
  t_eta : Z;
  t_nearingPatient : bool;
  t_patientAddress : string
}.

Inductive DriverPostBody :=
| DriverPostError (error : string)
  (* the early return of the throttle: no [notification] key *)
| DriverPostSkipped (tracking : DriverTracking)
| DriverPostWritten (tracking : DriverTracking) (notification : option string).

Definition driver_location_data (latitude longitude : Q) (now : Z) (distance : Q)
    (eta : Z) (nextStatus : Status) : Emergency.data :=
  {| Emergency.d_status := Some nextStatus;
     Emergency.d_patientLat := None;
     Emergency.d_patientLng := None;
     Emergency.d_address := None;
     Emergency.d_severityScore := None;
     Emergency.d_aiAssessment := None;
     Emergency.d_assignedHospitalId := None;
     Emergency.d_assignedDriverId := None;
     Emergency.d_driverLat := Some latitude;
     Emergency.d_driverLng := Some longitude;
     Emergency.d_driverLastLocationUpdate := Some now;
     Emergency.d_distanceKm := Some distance;
     Emergency.d_etaMinutes := Some eta;
     Emergency.d_acceptedAt := None;
     Emergency.d_arrivedAt := None;
     Emergency.d_completedAt := None;
     Emergency.d_assignedBedType := None;
     Emergency.d_hospitalNotes := None |}.

Section DriverRoute.
Context `{GeoOracle}.

Definition nextStatus_of (distance : Q) : Status :=
  if Qltb distance 1 then arrived else en_route.

(** [lastAt && Date.now() - lastAt < 4000], with [lastAt] 0 when no update
    was ever written. *)
Definition tooSoon (e : Emergency.t) (now : Z) : bool :=
  let lastAt := default 0 (Emergency.driverLastLocationUpdate e) in
  negb (lastAt =? 0) && (now - lastAt <? 4000).

Definition movedKm (e : Emergency.t) (latitude longitude : Q) : Q :=
  match Emergency.driverLat e, Emergency.driverLng e with
  | Some prevLat, Some prevLng => calculateDistance latitude longitude prevLat prevLng
  | _, _ => 999%Q
  end.

Definition movedLittle (e : Emergency.t) (latitude longitude : Q) : bool :=
  Qltb (movedKm e latitude longitude) (2 # 100).

Definition statusSame (e : Emergency.t) (nextStatus : Status) : bool :=
  bool_decide (Emergency.status e = nextStatus).

(** The throttle's decision: the three conditions of the early return. *)
Definition skips_write (e : Emergency.t) (latitude longitude : Q) (now : Z) : bool :=
  let distance :=
    calculateDistance latitude longitude (Emergency.patientLat e) (Emergency.patientLng e) in
  tooSoon e now && movedLittle e latitude longitude && statusSame e (nextStatus_of distance).

(** POST /api/driver/location. *)
Definition driver_location_POST (requestUser : option RequestUser)
    (emergencyId : option string) (latitude longitude : option Q) (now : Z) (db : Db)
  : Response DriverPostBody * Db :=
  match requestUser with
  | Some {| ru_id := uid; ru_role := driver |} =>
    match truthy_string emergencyId, latitude, longitude with
    | Some eid, Some latitude, Some longitude =>
      if negb (isValidCoordinate latitude longitude)
      then (respond 400 (DriverPostError "Invalid coordinates"), db)
      else
        match find_emergency eid
                (fun e => bool_decide (Emergency.assignedDriverId e = Some uid)) db with
        | None =>
          (respond 404 (DriverPostError "Emergency not found or not assigned to you"), db)
        | Some emergency =>
          let distance :=
            calculateDistance latitude longitude
              (Emergency.patientLat emergency) (Emergency.patientLng emergency) in
          let eta := calculateETA distance in
          let nearingPatient := Qltb distance 1 in
          let nextStatus := if nearingPatient then arrived else en_route in
          let tracking :=
            {| t_distance := distance; t_eta := eta; t_nearingPatient := nearingPatient;
               t_patientAddress := Emergency.address emergency |} in
          if tooSoon emergency now && movedLittle emergency latitude longitude
             && statusSame emergency nextStatus
          then (respond 200 (DriverPostSkipped tracking), db)
          else
            update_then eid (driver_location_data latitude longitude now distance eta nextStatus)
              db (DriverPostError "Failed to update location") (fun _ db' =>
              (respond 200
                 (DriverPostWritten tracking
                    (if nearingPatient
                     then Some "You have arrived at the patient location" else None)), db'))
        end
    | _, _, _ =>
      (respond 400 (DriverPostError "Emergency ID and coordinates are required"), db)
    end
  | _ => (respond 401 (DriverPostError "Unauthorized"), db)
  end.

End DriverRoute.

Inductive StatusBody :=
| StatusError (error : string)
| StatusOk (id : string) (status : Status).

Definition status_data (status : option Status) (arrivedAt completedAt : option Z)
    (bedType notes : option string) : Emergency.data :=
  {| Emergency.d_status := status;
     Emergency.d_patientLat := None;
     Emergency.d_patientLng := None;
     Emergency.d_address := None;
     Emergency.d_severityScore := None;
     Emergency.d_aiAssessment := None;
     Emergency.d_assignedHospitalId := None;
     Emergency.d_assignedDriverId := None;
     Emergency.d_driverLat := None;
     Emergency.d_driverLng := None;
     Emergency.d_driverLastLocationUpdate := None;
     Emergency.d_distanceKm := None;
     Emergency.d_etaMinutes := None;
     Emergency.d_acceptedAt := None;
     Emergency.d_arrivedAt := arrivedAt;
     Emergency.d_completedAt := completedAt;
     Emergency.d_assignedBedType := bedType;
     Emergency.d_hospitalNotes := notes |}.

(** The [updateData] the driver PATCH builds from [action] and [status].
    The body's [status] is read at the column's type. *)
Definition driver_action_data (action : option string) (status : option Status) (now : Z)
  : Emergency.data :=
  if bool_decide (action = Some "patient_loaded") then
    status_data (Some en_route) None None None None
  else if bool_decide (action = Some "arrived_hospital") then
    status_data (Some arrived) (Some now) None None None
  else if bool_decide (action = Some "handover_complete") then
    status_data (Some completed) None (Some now) None None
  else status_data status None None None None.

(** PATCH /api/driver/location. *)
Definition driver_status_PATCH (requestUser : option RequestUser)
    (emergencyId : option string) (status : option Status) (action : option string)
    (now : Z) (db : Db) : Response StatusBody * Db :=
  match requestUser with
  | Some {| ru_id := uid; ru_role := driver |} =>
    match truthy_string emergencyId with
    | None => (respond 400 (StatusError "Emergency ID is required"), db)
    | Some eid =>
      match find_emergency eid
              (fun e => bool_decide (Emergency.assignedDriverId e = Some uid)) db with
      | None => (respond 404 (StatusError "Emergency not found"), db)
      | Some _ =>
        update_then eid (driver_action_data action status now) db
          (StatusError "Failed to update status") (fun updated db' =>
          (respond 200 (StatusOk (Emergency.id updated) (Emergency.status updated)), db'))
      end
    end
  | _ => (respond 401 (StatusError "Unauthorized"), db)
  end.

(** ** The hospital route: accept, status update and the feed *)

Inductive AcceptBody :=
| AcceptError (error : string)
| AcceptOk (id : string) (status : Status) (acceptedAt : option Z).

Definition accept_data (hid : string) (now : Z) : Emergency.data :=
  {| Emergency.d_status := Some assigned;
     Emergency.d_patientLat := None;
     Emergency.d_patientLng := None;
     Emergency.d_address := None;
     Emergency.d_severityScore := None;
     Emergency.d_aiAssessment := None;
     Emergency.d_assignedHospitalId := Some hid;
     Emergency.d_assignedDriverId := None;
     Emergency.d_driverLat := None;
     Emergency.d_driverLng := None;
     Emergency.d_driverLastLocationUpdate := None;
     Emergency.d_distanceKm := None;
     Emergency.d_etaMinutes := None;
     Emergency.d_acceptedAt := Some now;
     Emergency.d_arrivedAt := None;
     Emergency.d_completedAt := None;
     Emergency.d_assignedBedType := None;
     Emergency.d_hospitalNotes := None |}.

(** POST /api/hospital/emergencies (accept case).  The update's rejection is
    caught in place and answered 404. *)
Definition hospital_accept_POST (requestUser : option RequestUser)
    (emergencyId : option string) (now : Z) (db : Db) : Response AcceptBody * Db :=
  match requestUser with
  | Some {| ru_id := uid; ru_role := hospital |} =>
    match truthy_string emergencyId with
    | None => (respond 400 (AcceptError "Emergency ID is required"), db)
    | Some eid =>
      match emergency_update eid (accept_data uid now) db with
      | None => (respond 404 (AcceptError "Emergency not found"), db)
      | Some (e, db') =>
        (respond 200
           (AcceptOk (Emergency.id e) (Emergency.status e) (Emergency.acceptedAt e)), db')
      end
    end
  | _ => (respond 401 (AcceptError "Unauthorized"), db)
  end.

(** [validStatuses.includes(status)], returning the status it names. *)
Definition status_of_string (s : string) : option Status :=
  if String.eqb s "pending" then Some pending
  else if String.eqb s "assigned" then Some assigned
  else if String.eqb s "en_route" then Some en_route
  else if String.eqb s "arrived" then Some arrived
  else if String.eqb s "completed" then Some completed
  else None.

(** PUT /api/hospital/emergencies (status update). *)
Definition hospital_status_PUT (requestUser : option RequestUser)
    (emergencyId status bedType notes : option string) (now : Z) (db : Db)
  : Response StatusBody * Db :=
  match requestUser with
  | Some {| ru_id := uid; ru_role := hospital |} =>
    match truthy_string emergencyId, truthy_string status with
    | Some eid, Some status =>
      match status_of_string status with
      | None => (respond 400 (StatusError "Invalid status"), db)
      | Some st =>
        let updateData :=
          status_data (Some st)
            (if bool_decide (st = arrived) then Some now else None)
            (if bool_decide (st = completed) then Some now else None)
            (truthy_string bedType) (truthy_string notes) in
        match emergency_update eid updateData db with
        | None => (respond 404 (StatusError "Emergency not found"), db)
        | Some (e, db') =>
          (respond 200 (StatusOk (Emergency.id e) (Emergency.status e)), db')
        end
      end
    | _, _ => (respond 400 (StatusError "Emergency ID and status are required"), db)
    end
  | _ => (respond 401 (StatusError "Unauthorized"), db)
  end.

Definition status_string (s : Status) : string :=
  match s with
  | pending => "pending"
  | assigned => "assigned"
  | en_route => "en_route"
  | arrived => "arrived"
  | completed => "completed"
  end.

(** The entries of the per-process caches ([Map<string, CacheEntry>]). *)
Record CacheEntry (P : Type) := {
  ce_createdAt : Z;
  ce_expiresAt : Z;
  ce_payload : P
}.
Arguments ce_createdAt {P} _.
Arguments ce_expiresAt {P} _.
Arguments ce_payload {P} _.

(** [cached && test(cached)]: the entry, when there is one and it passes. *)
Definition cached_when {P} (test : CacheEntry P → bool) (cached : option (CacheEntry P))
  : option (CacheEntry P) :=
  match cached with
  | Some c => if test c then Some c else None
  | None => None
  end.

(** The documents attached to an emergency (the [documents] relation). *)
Definition documents_of (eid : string) (db : Db) : list MedicalDocument.t :=
  filter (fun d => MedicalDocument.emergencyId d = eid) (map_to_list (documents db)).*2.

Definition unexpired (now : Z) (d : MedicalDocument.t) : bool :=
  now <? MedicalDocument.expiresAt d.

(** The [where] object of the feed query. *)
Definition feed_where (hid : string) (status : option string) (now : Z) (db : Db)
    (e : Emergency.t) : bool :=
  let cutoff := now - 60 * 60 * 1000 in
  let docs := documents_of (Emergency.id e) db in
  bool_decide (Emergency.assignedHospitalId e = Some hid)
  && match truthy_string status with
     | Some s => String.eqb (status_string (Emergency.status e)) s
     | None => negb (bool_decide (Emergency.status e = completed))
     end
  && (existsb (unexpired now) docs
      || (bool_decide (docs = []) && (cutoff <=? Emergency.triggeredAt e))).

(** The rows matching the feed's [where], newest first. *)
Definition feed_matches (hid : string) (status : option string) (now : Z) (db : Db)
  : list Emergency.t :=
  sort_by (fun a b => Emergency.triggeredAt b <? Emergency.triggeredAt a)
    (filter (fun e => feed_where hid status now db e = true)
       (map_to_list (emergencies db)).*2).

(** "Keep only latest case per patient": the filter over [seenPatients]. *)
Fixpoint dedupe (seenPatients : gset string) (l : list Emergency.t) : list Emergency.t :=
  match l with
  | [] => []
  | e :: l' =>
    let pid := Emergency.patientId e in
    if String.eqb pid "" then dedupe seenPatients l'
    else if bool_decide (pid ∈ seenPatients) then dedupe seenPatients l'
    else e :: dedupe ({[pid]} ∪ seenPatients) l'
  end.

(** Row [i] of [l] is [e], and it is the first row of its patient there:
    what the per-patient filter keeps. *)
Definition first_of_patient (l : list Emergency.t) (i : nat) (e : Emergency.t) : Prop :=
  l !! i = Some e
  ∧ Emergency.patientId e ≠ ""
  ∧ ∀ j e', (j < i)%nat → l !! j = Some e' →
            Emergency.patientId e' ≠ Emergency.patientId e.

(** One entry of [transformedEmergencies]: the row's columns under the
    response's names, with the unexpired documents newest first. *)
Record FeedItem := {
  f_emergency : Emergency.t;
  f_documents : list MedicalDocument.t
}.

Definition feed_item (now : Z) (db : Db) (e : Emergency.t) : FeedItem :=
  {| f_emergency := e;
     f_documents :=
       sort_by (fun a b => MedicalDocument.createdAt b <? MedicalDocument.createdAt a)
         (filter (fun d => unexpired now d = true) (documents_of (Emergency.id e) db)) |}.

Record FeedPayload := {
  fp_emergencies : list FeedItem;
  fp_total : nat;
  fp_limit : nat;
  fp_offset : nat
}.

Inductive FeedBody :=
| FeedError (error : string)
| FeedOk (payload : FeedPayload) (stale : bool).

(** The feed computed from storage: [findMany] with [take]/[skip], [count],
    the per-patient filter and the transformation. *)
Definition feed_read (hid : string) (status : option string) (limit offset : nat)
    (now : Z) (db : Db) : FeedPayload :=
  let matches := feed_matches hid status now db in
  let emergencies := take limit (drop offset matches) in
  {| fp_emergencies := feed_item now db <$> dedupe ∅ emergencies;
     fp_total := length matches;
     fp_limit := limit;
     fp_offset := offset |}.

Definition feed_cacheKey (hid : string) (status : option string) (limit offset : nat)
  : string :=
  hid +:+ ":status=" +:+ default "" (truthy_string status)
      +:+ ":limit=" +:+ pretty limit +:+ ":offset=" +:+ pretty offset.

(** GET /api/hospital/emergencies.  [limit] and [offset] are the parsed
    query parameters ([None]: absent, read as 20 and 0); [storage_ok] tells
    whether the Prisma reads succeed. *)
Definition hospital_feed_GET (requestUser : option RequestUser) (status : option string)
    (limit offset : option nat) (now : Z) (storage_ok : bool)
    (cache : gmap string (CacheEntry FeedPayload)) (db : Db)
  : Response FeedBody * gmap string (CacheEntry FeedPayload) :=
  match requestUser with
  | Some {| ru_id := uid; ru_role := hospital |} =>
    let limit := default 20%nat limit in
    let offset := default 0%nat offset in
    let cacheKey := feed_cacheKey uid status limit offset in
    let cached := cache !! cacheKey in
    match cached_when (fun c => now <? ce_expiresAt c) cached with
    | Some c => (respond 200 (FeedOk (ce_payload c) false), cache)
    | None =>
      if storage_ok then
        let payload := feed_read uid status limit offset now db in
        (respond 200 (FeedOk payload false),
         <[cacheKey := {| ce_createdAt := now; ce_expiresAt := now + 3000;
                          ce_payload := payload |}]> cache)
      else
        match cached_when (fun c => now - ce_createdAt c <? 30000) cached with
        | Some c => (respond 200 (FeedOk (ce_payload c) true), cache)
        | None => (respond 500 (FeedError "Failed to fetch emergencies"), cache)
        end
    end
  | _ =>
    (respond 401 (FeedError "Unauthorized: Only hospitals can access this endpoint"), cache)
  end.

(** ** Tracking Read Cache: GET /api/emergency/tracking *)

Record TrackedHospital := {
  th_id : string;
  th_name : string;
  th_licenseNumber : option string;
  th_phone : string;
  th_address : option string;
  th_lat : option Q;
  th_lng : option Q
}.

Record TrackedDriver := {
  td_id : string;
  td_name : string;
  td_phone : string;
  td_vehiclePlate : option string
}.

Record TrackingPayload := {
  tp_emergencyId : string;
  tp_status : Status;
  tp_patient : Q * Q * string;
  tp_ambulance : option (Q * Q * option Z);
  tp_etaMinutes : option Z;
  tp_distanceKm : option Q;
  tp_hospital : option TrackedHospital;
  tp_driver : option TrackedDriver
}.

Inductive TrackingBody :=
| TrackingError (error : string)
| TrackingOk (payload : TrackingPayload) (stale : bool).

Definition tracking_cacheKey (ru : RequestUser) (emergencyId : string) : string :=
  role_string (ru_role ru) +:+ ":" +:+ ru_id ru +:+ ":emergency_tracking:" +:+ emergencyId.

(** The access predicate of the tracking read. *)
Definition hasAccess (ru : RequestUser) (e : Emergency.t) : bool :=
  bool_decide (Emergency.patientId e = ru_id ru)
  || (bool_decide (ru_role ru = hospital)
      && bool_decide (Emergency.assignedHospitalId e = Some (ru_id ru)))
  || (bool_decide (ru_role ru = driver)
      && bool_decide (Emergency.assignedDriverId e = Some (ru_id ru))).

Definition tracked_hospital (u : User.t) : TrackedHospital :=
  {| th_id := User.id u; th_name := User.name u;
     th_licenseNumber := User.licenseNumber u; th_phone := User.phone u;
     th_address := User.address u; th_lat := User.locationLat u;
     th_lng := User.locationLng u |}.

Definition tracked_driver (u : User.t) : TrackedDriver :=
  {| td_id := User.id u; td_name := User.name u; td_phone := User.phone u;
     td_vehiclePlate := User.vehiclePlate u |}.

Definition tracking_payload (db : Db) (e : Emergency.t) : TrackingPayload :=
  {| tp_emergencyId := Emergency.id e;
     tp_status := Emergency.status e;
     tp_patient := (Emergency.patientLat e, Emergency.patientLng e, Emergency.address e);
     tp_ambulance :=
       match Emergency.driverLat e, Emergency.driverLng e with
       | Some a, Some b => Some (a, b, Emergency.driverLastLocationUpdate e)
       | _, _ => None
       end;
     tp_etaMinutes := Emergency.etaMinutes e;
     tp_distanceKm := Emergency.distanceKm e;
     tp_hospital :=
       tracked_hospital <$> (Emergency.assignedHospitalId e ≫= fun h => find_user h (users db));
     tp_driver :=
       tracked_driver <$> (Emergency.assignedDriverId e ≫= fun d => find_user d (users db)) |}.

(** The handler.  [storage_ok] tells whether [prisma.emergency.findUnique]
    succeeds; when it throws the [catch] block runs. *)
Definition tracking_GET (requestUser : option RequestUser) (emergencyId : option string)
    (now : Z) (storage_ok : bool) (cache : gmap string (CacheEntry TrackingPayload))
    (db : Db) : Response TrackingBody * gmap string (CacheEntry TrackingPayload) :=
  match requestUser with
  | None => (respond 401 (TrackingError "Unauthorized"), cache)
  | Some ru =>
    match truthy_string emergencyId with
    | None => (respond 400 (TrackingError "Emergency ID is required"), cache)
    | Some eid =>
      let cacheKey := tracking_cacheKey ru eid in
      let cached := cache !! cacheKey in
      match cached_when (fun c => now <? ce_expiresAt c) cached with
      | Some c => (respond 200 (TrackingOk (ce_payload c) false), cache)
      | None =>
        if storage_ok then
          match emergencies db !! eid with
          | None => (respond 404 (TrackingError "Emergency not found"), cache)
          | Some emergency =>
            if hasAccess ru emergency then
              let payload := tracking_payload db emergency in
              (respond 200 (TrackingOk payload false),
               <[cacheKey := {| ce_createdAt := now; ce_expiresAt := now + 2000;
                                ce_payload := payload |}]> cache)
            else (respond 403 (TrackingError "Unauthorized"), cache)
          end
        else
          match cached_when (fun c => now - ce_createdAt c <? 30000) cached with
          | Some c => (respond 200 (TrackingOk (ce_payload c) true), cache)
          | None => (respond 500 (TrackingError "Failed to fetch tracking"), cache)
          end
      end
    end
  end.

(** ** Document Access Controller *)

(** The fields [verifyDocumentToken] reads from the parsed payload; a
    missing string field reads as the empty string, a missing [exp] as 0
    (each is falsy, as [undefined] is). *)
Record DocumentTokenPayload := {
  documentId : string;
  userId : string;
  tk_role : string;
  exp : Z
}.

(** What [verifyDocumentToken] obtains from Node: the HMAC-SHA256 digest
    ([crypto.createHmac('sha256', secret).update(m).digest()]), base64url
    decoding to a byte string, and [JSON.parse] at the payload's shape
    ([None] when it throws). *)
Class TokenCrypto := {
  hmac_sha256 : string → string → string;
  base64urlToBuffer : string → string;
  JSON_parse : string → option DocumentTokenPayload
}.

(** [s.split(c)]. *)
Fixpoint split_on (c : ascii) (s : string) : list string :=
  match s with
  | EmptyString => [""]
  | String a s' =>
    if Ascii.eqb a c then "" :: split_on c s'
    else
      match split_on c s' with
      | [] => [String a ""]
      | piece :: rest => String a piece :: rest
      end
  end.

Section DocumentToken.
Context `{TokenCrypto}.

(** [verifyDocumentToken(token)] at clock reading [now]; [secret] is the
    configured secret ([None]: [getSecret] throws, and the [catch] returns
    null). *)
Definition verifyDocumentToken (secret : option string) (now : Z) (token : string)
  : option DocumentTokenPayload :=
  match secret with
  | None => None
  | Some secret =>
    let parts := split_on "."%char token in
    match truthy_string (parts !! 0%nat), truthy_string (parts !! 1%nat) with
    | Some payloadB64, Some sigB64 =>
      let expectedSig := hmac_sha256 secret payloadB64 in
      let providedSig := base64urlToBuffer sigB64 in
      if negb (String.length providedSig =? String.length expectedSig)%nat then None
      else if negb (String.eqb expectedSig providedSig) then None
      else
        match JSON_parse (base64urlToBuffer payloadB64) with
        | None => None
        | Some payload =>
          if String.eqb (documentId payload) "" || String.eqb (userId payload) ""
             || String.eqb (tk_role payload) "" || (exp payload =? 0)
          then None
          else if exp payload <? now / 1000 then None
          else Some payload
        end
    | _, _ => None
    end
  end.

End DocumentToken.

Inductive ViewBody :=
| ViewError (error : string)
  (* 200: the proxied bytes of [doc.url] *)
| ViewContent (url : string)
  (* 302: a signed URL for the blob *)
| ViewRedirect (cloudinaryId : string).

Definition serves_content (r : Response ViewBody) : bool :=
  match body r with
  | ViewError _ => false
  | _ => true
  end.

(** The access predicate of the document view, on the token's identity. *)
Definition allowed (payload : DocumentTokenPayload) (e : Emergency.t) : bool :=
  bool_decide (Emergency.patientId e = userId payload)
  || (String.eqb (tk_role payload) "hospital"
      && bool_decide (Emergency.assignedHospitalId e = Some (userId payload)))
  || (String.eqb (tk_role payload) "driver"
      && bool_decide (Emergency.assignedDriverId e = Some (userId payload))).

(** [deleteExpiredDocument] followed by [prisma.medicalDocument.delete]:
    the blob store and the table both honour the request (a failure of
    either is swallowed by the handler). *)
Definition delete_document (doc : MedicalDocument.t) (db : Db) : Db :=
  {| users := users db;
     emergencies := emergencies db;
     documents := delete (MedicalDocument.id doc) (documents db);
     blobs := blobs db ∖ {[MedicalDocument.cloudinaryId doc]} |}.

Section DocumentView.
Context `{TokenCrypto}.

(** GET /api/documents/view.  [upstream_ok]: the server-side fetch of
    [doc.url] answered with a body; [signed_https]: the URL signer returned
    an https URL. *)
Definition documents_view_GET (secret : option string) (token : option string)
    (upstream_ok signed_https : bool) (now : Z) (db : Db) : Response ViewBody * Db :=
  match truthy_string token with
  | None => (respond 400 (ViewError "Missing token"), db)
  | Some token =>
    match verifyDocumentToken secret now token with
    | None => (respond 401 (ViewError "Invalid or expired token"), db)
    | Some payload =>
      match documents db !! documentId payload with
      | None => (respond 404 (ViewError "Document not found"), db)
      | Some doc =>
        if MedicalDocument.expiresAt doc <=? now then
          (respond 410 (ViewError "Document expired"), delete_document doc db)
        else
          match emergencies db !! MedicalDocument.emergencyId doc with
          | None => (respond 404 (ViewError "Emergency not found"), db)
          | Some emergency =>
            if negb (allowed payload emergency)
            then (respond 403 (ViewError "Unauthorized"), db)
            else if upstream_ok
            then (respond 200 (ViewContent (MedicalDocument.url doc)), db)
            else if signed_https
            then (respond 302 (ViewRedirect (MedicalDocument.cloudinaryId doc)), db)
            else (respond 502 (ViewError "Failed to fetch document"), db)
          end
      end
    end
  end.

End DocumentView.

(** An active hospital account: what both hospital scans select on. *)
Definition active_hospital (u : User.t) : Prop :=
  User.role u = hospital ∧ User.isActive u = true.

(** ** The branch a dispatch takes

    The decisions of [sos_POST] after the row is created, as a value: which
    of its five returns a request with a usable location reaches, with the
    hospital and driver it picked. *)
Inductive Dispatch :=
| NoHospital
| FallbackHospital (fh : User.t)
| NoLicense (h : RankedHospital)
| NoDriver (h : RankedHospital) (license : string)
| DriverFound (h : RankedHospital) (license : string) (a : RankedDriver).

Definition dispatch_of `{GeoOracle} (la lo : Q) (us : list User.t) : Dispatch :=
  match findNearestHospitals la lo 5 us with
  | [] =>
    match fallback_hospital us with
    | None => NoHospital
    | Some fh => FallbackHospital fh
    end
  | h :: _ =>
    match truthy_string (User.licenseNumber (h_user h)) with
    | None => NoLicense h
    | Some license =>
      match findNearestAmbulances la lo 3 (Some license) us with
      | [] => NoDriver h license
      | a :: _ => DriverFound h license a
      end
    end
  end.

(** The outcome of a dispatch, by name. *)
Inductive Outcome :=
| dispatched
| hospital_only_no_license
| hospital_only_no_driver
| hospital_only_unranked
| no_hospitals_available.

Definition outcome_of (d : Dispatch) : Outcome :=
  match d with
  | NoHospital => no_hospitals_available
  | FallbackHospital _ => hospital_only_unranked
  | NoLicense _ => hospital_only_no_license
  | NoDriver _ _ => hospital_only_no_driver
  | DriverFound _ _ _ => dispatched
  end.

(** What a client can read off an SOS response to tell the outcomes apart:
    the HTTP status, the [ambulanceDispatched] flag and the message text. *)
Definition sos_report (r : Response SosBody) : Z * option bool * option string :=
  (httpStatus r, ambulanceDispatched (body r), sos_text (body r)).

(** The report each return statement of [sos_POST] produces. *)
Definition report_of (o : Outcome) : Z * option bool * option string :=
  match o with
  | no_hospitals_available => (503, None, Some "No hospitals available")
  | hospital_only_unranked => (202, Some false, Some msg_fallback)
  | hospital_only_no_license => (202, Some false, Some msg_no_license)
  | hospital_only_no_driver => (202, Some false, Some msg_no_driver)
  | dispatched => (201, Some true, None)
  end.

(** The columns the handler writes once the branch is known. *)
Definition dispatch_data `{GeoOracle} (la lo : Q) (severityScore : Z) (aiAssessment : string)
    (d : Dispatch) : Emergency.data :=
  match d with
  | NoHospital => Emergency.no_data
  | FallbackHospital fh => hospital_only_data (User.id fh) severityScore aiAssessment
  | NoLicense h | NoDriver h _ =>
    hospital_only_data (User.id (h_user h)) severityScore aiAssessment
  | DriverFound h _ a =>
    let distanceKm :=
      (fun '(dlat, dlng) => calculateDistance dlat dlng la lo) <$> currentLocation a in
    dispatched_data (User.id (h_user h)) (User.id (a_user a)) severityScore aiAssessment
      (calculateETA <$> distanceKm) distanceKm
  end.

(** The visibility rule of the unfiltered feed, as a proposition: the case
    belongs to the hospital, is not completed, and has an unexpired document
    or has no document and was triggered at most 60 minutes ago. *)
Definition feed_visible (hid : string) (now : Z) (db : Db) (e : Emergency.t) : Prop :=
  Emergency.assignedHospitalId e = Some hid
  ∧ Emergency.status e ≠ completed
  ∧ ((∃ d, d ∈ documents_of (Emergency.id e) db ∧ now < MedicalDocument.expiresAt d)
     ∨ (documents_of (Emergency.id e) db = []
        ∧ now - 60 * 60 * 1000 ≤ Emergency.triggeredAt e)).

(** ** Requests against one database

    The handlers that write to an existing emergency, as requests served
    one after the other. *)
Inductive Request :=
| UpdatePatientLocation (requestUser : option RequestUser) (emergencyId : option string)
    (location : option LocationInput)
| ReportDriverLocation (requestUser : option RequestUser) (emergencyId : option string)
    (latitude longitude : option Q)
| DriverStatusAction (requestUser : option RequestUser) (emergencyId : option string)
    (status : option Status) (action : option string)
| AcceptCase (requestUser : option RequestUser) (emergencyId : option string)
| HospitalStatusUpdate (requestUser : option RequestUser)
    (emergencyId status bedType notes : option string).

Definition serve `{GeoOracle} (q : Request) (now : Z) (db : Db) : Db :=
  match q with
  | UpdatePatientLocation ru eid location => (sos_PATCH ru eid location db).2
  | ReportDriverLocation ru eid latitude longitude =>
      (driver_location_POST ru eid latitude longitude now db).2
  | DriverStatusAction ru eid status action =>
      (driver_status_PATCH ru eid status action now db).2
  | AcceptCase ru eid => (hospital_accept_POST ru eid now db).2
  | HospitalStatusUpdate ru eid status bedType notes =>
      (hospital_status_PUT ru eid status bedType notes now db).2
  end.

(** Requests arriving at the given clock readings, oldest first. *)
Definition serve_all `{GeoOracle} (qs : list (Request * Z)) (db : Db) : Db :=
  foldl (fun db '(q, now) => serve q now db) db qs.

Definition status_at (db : Db) (eid : string) : option Status :=
  Emergency.status <$> emergencies db !! eid.

(** The ordering pending < assigned < en_route < arrived < completed. *)
Definition status_rank (s : Status) : nat :=
  match s with
  | pending => 0
  | assigned => 1
  | en_route => 2
  | arrived => 3
  | completed => 4
  end.

Definition in_transit (s : Status) : bool :=
  match s with
  | en_route | arrived => true
  | _ => false
  end.

(** [new] does not regress from [old]: it is not lower in the ordering, or
    both are transit statuses (en_route and arrived may alternate). *)
Definition no_regress (old new : Status) : bool :=
  (status_rank old <=? status_rank new)%nat || (in_transit old && in_transit new).

(** The driver operations of the claim: a location report, or a status
    action that names one of the three actions. *)
Definition driver_operation (q : Request) : bool :=
  match q with
  | ReportDriverLocation _ _ _ _ => true
  | DriverStatusAction _ _ _ action =>
      bool_decide (action = Some "patient_loaded")
      || bool_decide (action = Some "arrived_hospital")
      || bool_decide (action = Some "handover_complete")
  | _ => false
  end.

(** A driver operation other than "handover_complete". *)
Definition transit_operation (q : Request) : Prop :=
  driver_operation q = true
  ∧ ∀ ru i st, q ≠ DriverStatusAction ru i st (Some "handover_complete").

(** The assignment invariant on one row: an assigned driver comes with an
    assigned hospital, and the two accounts carry the same license. *)
Definition assignment_consistent (us : list User.t) (e : Emergency.t) : Prop :=
  ∀ d, Emergency.assignedDriverId e = Some d →
    ∃ h du hu,
      Emergency.assignedHospitalId e = Some h
      ∧ find_user d us = Some du ∧ find_user h us = Some hu
      ∧ User.licenseNumber du = User.licenseNumber hu.

(** ** More of the maps service *)

(** [l] is in non-decreasing order for [le]: an earlier entry is below every
    later one. *)
Definition ordered_by {A} (le : A → A → Prop) (l : list A) : Prop :=
  ∀ i j a b, (i < j)%nat → l !! i = Some a → l !! j = Some b → le a b.

Section Radius.
Context `{GeoOracle}.

(** [getHospitalsInRadius]: the scan stops after 200 located active
    hospitals ([take: 200]); the ranked ones within the radius are sorted and
    cut to 10.  (The scan selects no license column; [h_user] carries the
    whole row.) *)
Definition getHospitalsInRadius (latitude longitude radiusKm : Q) (us : list User.t)
  : list RankedHospital :=
  take 10
    (sort_by (fun a b => Qltb (h_distance a) (h_distance b))
       (filter (fun h => Qle_bool (h_distance h) radiusKm = true)
          (take 200 (omap (rank_hospital latitude longitude) us)))).

End Radius.

(** ** What a write leaves alone *)

(** The columns no [data] object reaches, and the optional columns it can
    only fill. *)
Definition same_case (e e' : Emergency.t) : Prop :=
  Emergency.id e' = Emergency.id e
  ∧ Emergency.patientId e' = Emergency.patientId e
  ∧ Emergency.triggeredAt e' = Emergency.triggeredAt e
  ∧ Emergency.symptoms e' = Emergency.symptoms e.

Definition stamps_kept (e e' : Emergency.t) : Prop :=
  (is_Some (Emergency.acceptedAt e) → is_Some (Emergency.acceptedAt e'))
  ∧ (is_Some (Emergency.arrivedAt e) → is_Some (Emergency.arrivedAt e'))
  ∧ (is_Some (Emergency.completedAt e) → is_Some (Emergency.completedAt e'))
  ∧ (is_Some (Emergency.assignedHospitalId e) → is_Some (Emergency.assignedHospitalId e'))
  ∧ (is_Some (Emergency.assignedDriverId e) → is_Some (Emergency.assignedDriverId e'))
  ∧ (is_Some (Emergency.driverLastLocationUpdate e)
     → is_Some (Emergency.driverLastLocationUpdate e')).

(** ** The driver assignment read: GET /api/driver/assignment *)

(** The [assignment] object: the columns of the emergency under the
    response's names, the patient and hospital accounts it selects from, and
    the unexpired documents. *)
Record Assignment := {
  as_emergency : Emergency.t;
  as_patient : User.t;
  as_hospital : option User.t;
  as_documents : list MedicalDocument.t
}.

Inductive AssignmentBody :=
| AssignmentError (error : string)
| AssignmentNone                                   (* 204, no body *)
| AssignmentOk (payload : Assignment) (stale : bool).

(** The [where] object of the assignment query; [assignedHospital] is the
    account [assignedHospitalId] refers to. *)
Definition assignment_where (uid driverLicense : string) (db : Db) (e : Emergency.t)
  : bool :=
  bool_decide (Emergency.assignedDriverId e = Some uid)
  && (bool_decide (Emergency.status e = assigned)
      || bool_decide (Emergency.status e = en_route))
  && match Emergency.assignedHospitalId e ≫= fun h => find_user h (users db) with
     | Some hu => bool_decide (User.licenseNumber hu = Some driverLicense)
     | None => false
     end.

(** [prisma.emergency.findFirst] over that [where], newest first. *)
Definition current_assignment (uid driverLicense : string) (db : Db)
  : option Emergency.t :=
  head (sort_by (fun a b => Emergency.triggeredAt b <? Emergency.triggeredAt a)
          (filter (fun e => assignment_where uid driverLicense db e = true)
             (map_to_list (emergencies db)).*2)).

Definition assignment_cacheKey (uid : string) : string := "driver_assignment:" +:+ uid.

(** The handler.  [storage_ok] tells whether the Prisma reads succeed; a
    row whose patient account is missing makes [emergency.patient.id] throw,
    which lands in the same [catch]. *)
Definition driver_assignment_GET (requestUser : option RequestUser) (now : Z)
    (storage_ok : bool) (cache : gmap string (CacheEntry Assignment)) (db : Db)
  : Response AssignmentBody * gmap string (CacheEntry Assignment) :=
  match requestUser with
  | Some {| ru_id := uid; ru_role := driver |} =>
    let cacheKey := assignment_cacheKey uid in
    let cached := cache !! cacheKey in
    match cached_when (fun c => now <? ce_expiresAt c) cached with
    | Some c => (respond 200 (AssignmentOk (ce_payload c) false), cache)
    | None =>
      let caught :=
        match cached_when (fun c => now - ce_createdAt c <? 30000) cached with
        | Some c => (respond 200 (AssignmentOk (ce_payload c) true), cache)
        | None => (respond 500 (AssignmentError "Failed to fetch assignment"), cache)
        end in
      if storage_ok then
        match truthy_string (find_user uid (users db) ≫= User.licenseNumber) with
        | None => (respond 204 AssignmentNone, cache)
        | Some driverLicense =>
          match current_assignment uid driverLicense db with
          | None => (respond 204 AssignmentNone, cache)
          | Some emergency =>
            match find_user (Emergency.patientId emergency) (users db) with
            | None => caught
            | Some p =>
              let payload :=
                {| as_emergency := emergency;
                   as_patient := p;
                   as_hospital :=
                     Emergency.assignedHospitalId emergency ≫= fun h => find_user h (users db);
                   as_documents :=
                     filter (fun d => unexpired now d = true)
                       (documents_of (Emergency.id emergency) db) |} in
              (respond 200 (AssignmentOk payload false),
               <[cacheKey := {| ce_createdAt := now; ce_expiresAt := now + 2000;
                                ce_payload := payload |}]> cache)
            end
          end
        end
      else caught
    end
  | _ =>
    (respond 401 (AssignmentError "Unauthorized: Only drivers can access this endpoint"),
     cache)
  end.

(** ** The codec and the writer of document tokens

    Buffers are byte strings.  [toString('base64')] and
    [Buffer.from(_, 'base64')] are Node's: the encoder of RFC 4648, and the
    decoder that skips characters outside its table and stops at '='. *)

Module Base64Url.

Definition alphabet : string :=
  "ABCDEFGHIJKLMNOPQRSTUVWXYZabcdefghijklmnopqrstuvwxyz0123456789+/".

(** The character of a 6-bit value. *)
Definition digit (n : N) : ascii :=
  default "A"%char (String.get (N.to_nat n) alphabet).

(** [buf.toString('base64')]: three bytes give four characters; a last group
    of one or two bytes is padded with '='. *)
Fixpoint toString_base64 (buf : string) : string :=
  match buf with
  | EmptyString => EmptyString
  | String a EmptyString =>
    let x := N_of_ascii a in
    String (digit (x / 4)) (String (digit (x mod 4 * 16)) "==")
  | String a (String b EmptyString) =>
    let x := N_of_ascii a in
    let y := N_of_ascii b in
    String (digit (x / 4)) (String (digit (x mod 4 * 16 + y / 16))
      (String (digit (y mod 16 * 4)) "="))
  | String a (String b (String c rest)) =>
    let x := N_of_ascii a in
    let y := N_of_ascii b in
    let z := N_of_ascii c in
    String (digit (x / 4)) (String (digit (x mod 4 * 16 + y / 16))
      (String (digit (y mod 16 * 4 + z / 64)) (String (digit (z mod 64))
         (toString_base64 rest))))
  end%N.

(** [s.replace(/c/g, d)] for a one-character pattern. *)
Fixpoint replace_all (c d : ascii) (s : string) : string :=
  match s with
  | EmptyString => EmptyString
  | String a s' => String (if Ascii.eqb a c then d else a) (replace_all c d s')
  end.

(** [s.replace(/=+$/g, '')]: the run of '=' at the end is dropped. *)
Fixpoint strip_padding (s : string) : string :=
  match s with
  | EmptyString => EmptyString
  | String a s' =>
    let r := strip_padding s' in
    if Ascii.eqb a "=" && String.eqb r "" then EmptyString else String a r
  end.

Definition base64url (input : string) : string :=
  strip_padding (replace_all "/" "_" (replace_all "+" "-" (toString_base64 input))).

(** [unbase64]: the value of a character in Node's decoding table, which
    reads '-' and '_' as it reads '+' and '/'. *)
Definition unbase64 (c : ascii) : option N :=
  let n := N_of_ascii c in
  (if (65 <=? n) && (n <=? 90) then Some (n - 65)
   else if (97 <=? n) && (n <=? 122) then Some (n - 71)
   else if (48 <=? n) && (n <=? 57) then Some (n + 4)
   else if (n =? 43) || (n =? 45) then Some 62
   else if (n =? 47) || (n =? 95) then Some 63
   else None)%N.

(** The 6-bit values Node's decoder reads from a string: a character outside
    the table is skipped, and '=' ends the input. *)
Fixpoint sextets (s : string) : list N :=
  match s with
  | EmptyString => []
  | String c s' =>
    if Ascii.eqb c "=" then []
    else match unbase64 c with
         | Some v => v :: sextets s'
         | None => sextets s'
         end
  end.

(** The bytes of a run of 6-bit values; a last group of two or three values
    gives one or two bytes, a single left-over value none. *)
Fixpoint bytes_of_sextets (l : list N) : string :=
  match l with
  | v1 :: v2 :: v3 :: v4 :: rest =>
    String (ascii_of_N (v1 * 4 + v2 / 16))
      (String (ascii_of_N (v2 mod 16 * 16 + v3 / 4))
         (String (ascii_of_N (v3 mod 4 * 64 + v4)) (bytes_of_sextets rest)))
  | [v1; v2; v3] =>
    String (ascii_of_N (v1 * 4 + v2 / 16))
      (String (ascii_of_N (v2 mod 16 * 16 + v3 / 4)) EmptyString)
  | [v1; v2] => String (ascii_of_N (v1 * 4 + v2 / 16)) EmptyString
  | _ => EmptyString
  end%N.

(** [Buffer.from(s, 'base64')]. *)
Definition Buffer_from_base64 (s : string) : string := bytes_of_sextets (sextets s).

Fixpoint repeat_char (c : ascii) (n : nat) : string :=
  match n with
  | O => EmptyString
  | S n' => String c (repeat_char c n')
  end.

Definition base64urlToBuffer (input : string) : string :=
  let b64 := replace_all "_" "/" (replace_all "-" "+" input) in
  let pad :=
    if (String.length b64 mod 4 =? 0)%nat then EmptyString
    else repeat_char "=" (4 - String.length b64 mod 4) in
  Buffer_from_base64 (b64 +:+ pad).

(** The characters a token segment is made of. *)
Definition url_safe (c : ascii) : bool :=
  let n := N_of_ascii c in
  ((65 <=? n) && (n <=? 90) || (97 <=? n) && (n <=? 122) || (48 <=? n) && (n <=? 57)
   || (n =? 45) || (n =? 95))%N.

Fixpoint all_chars (P : ascii → bool) (s : string) : bool :=
  match s with
  | EmptyString => true
  | String c s' => P c && all_chars P s'
  end.

(** What the two replacements of [base64url], and the two of
    [base64urlToBuffer], do to one character. *)
Definition url1 (c : ascii) : ascii :=
  let c1 := if Ascii.eqb c "+" then "-"%char else c in
  if Ascii.eqb c1 "/" then "_"%char else c1.
Definition unurl1 (c : ascii) : ascii :=
  let c1 := if Ascii.eqb c "-" then "+"%char else c in
  if Ascii.eqb c1 "_" then "/"%char else c1.

Definition digit_ok (n : N) : bool :=
  let c := unurl1 (url1 (digit n)) in
  negb (Ascii.eqb c "=") && bool_decide (unbase64 c = Some n)
  && negb (Ascii.eqb (url1 (digit n)) "=") && url_safe (url1 (digit n)).

End Base64Url.

Section CreateToken.
Context `{TokenCrypto}.
Variable JSON_stringify : DocumentTokenPayload → string.

(** [createDocumentToken(params)] at clock reading [now]; [ttlSeconds] is
    [None] when the caller leaves it out.  [None]: [getSecret] throws. *)
Definition createDocumentToken (secret : option string) (documentId userId role : string)
    (ttlSeconds : option Z) (now : Z) : option string :=
  let ttlSeconds := default 300 ttlSeconds in
  let payload :=
    {| documentId := documentId; userId := userId; tk_role := role;
       exp := now / 1000 + ttlSeconds |} in
  let payloadStr := JSON_stringify payload in
  let payloadB64 := Base64Url.base64url payloadStr in
  match secret with
  | None => None
  | Some secret =>
    let sig := hmac_sha256 secret payloadB64 in
    let sigB64 := Base64Url.base64url sig in
    Some (payloadB64 +:+ "." +:+ sigB64)
  end.

End CreateToken.

(** ** Document storage: [saveDocumentReference] and the cleanup job *)

(** What [uploadMedicalDocument] resolves with; [fileType] is echoed in
    [type]. *)
Record UploadResult := {
  ur_url : string;
  ur_publicId : string;
  ur_size : Z;
  ur_type : string
}.

(** [saveDocumentReference] at clock reading [now]; [freshId] is the id
    Prisma gives the new row, whose [createdAt] is the time of the insert. *)
Definition saveDocumentReference (emergencyId : string) (uploadResult : UploadResult)
    (freshId : string) (now : Z) (db : Db) : (string * Z) * Db :=
  let expiresAt := now + 60 * 60 * 1000 in
  let doc :=
    {| MedicalDocument.id := freshId;
       MedicalDocument.emergencyId := emergencyId;
       MedicalDocument.url := ur_url uploadResult;
       MedicalDocument.cloudinaryId := ur_publicId uploadResult;
       MedicalDocument.expiresAt := expiresAt;
       MedicalDocument.createdAt := now |} in
  ((freshId, expiresAt),
   {| users := users db; emergencies := emergencies db;
      documents := <[freshId := doc]> (documents db); blobs := blobs db |}).

(** [getEmergencyDocuments]: the unexpired documents of a case, newest
    first. *)
Definition getEmergencyDocuments (emergencyId : string) (now : Z) (db : Db)
  : list MedicalDocument.t :=
  sort_by (fun a b => MedicalDocument.createdAt b <? MedicalDocument.createdAt a)
    (filter (fun d => unexpired now d = true) (documents_of emergencyId db)).

(** [cleanupExpiredDocuments]: up to 200 rows with [expiresAt] before [now]
    are deleted, each with its blob. *)
Definition cleanupExpiredDocuments (now : Z) (db : Db) : Db :=
  let expired :=
    take 200 (filter (fun d => MedicalDocument.expiresAt d < now)
                (map_to_list (documents db)).*2) in
  foldl (fun db doc => delete_document doc db) db expired.

(** Every row of the document table is stored under its own id. *)
Definition documents_keyed (db : Db) : Prop :=
  ∀ k d, documents db !! k = Some d → MedicalDocument.id d = k.

(** ** The upload route: POST, GET and DELETE /api/uploads/document *)

Record UploadFile := {
  file_type : string;
  file_size : Z;
  file_name : string
}.

Definition allowedTypes : list string :=
  ["application/pdf"; "image/jpeg"; "image/png"; "image/webp"].

Inductive UploadBody :=
| UploadError (error : string)
| UploadOk (id type : string) (size expiresAt : Z) (viewToken : string).

Inductive DocumentsBody :=
| DocumentsError (error : string)
| DocumentsOk (documents : list (MedicalDocument.t * string)).

Inductive DeleteBody :=
| DeleteError (error : string)
| DeleteOk.

(** What the storage service answers to an upload: the URL, the public id
    and the byte count. *)
Record Uploaded := {
  up_url : string;
  up_publicId : string;
  up_bytes : Z
}.

Section UploadRoute.
Context `{TokenCrypto}.
Variable JSON_stringify : DocumentTokenPayload → string.

(** POST.  [uploaded] is [None] when [uploadMedicalDocument] rejects. *)
Definition uploads_POST (secret : option string) (requestUser : option RequestUser)
    (file : option UploadFile) (emergencyId docType : option string)
    (uploaded : option Uploaded) (freshId : string) (now : Z) (db : Db)
  : Response UploadBody * Db :=
  match requestUser with
  | Some {| ru_id := uid; ru_role := patient |} =>
    match file with
    | None => (respond 400 (UploadError "File is required"), db)
    | Some file =>
      match truthy_string emergencyId with
      | None => (respond 400 (UploadError "Emergency ID is required"), db)
      | Some eid =>
        if negb (bool_decide (file_type file ∈ allowedTypes)) then
          (respond 400
             (UploadError
                "Invalid file type. Only PDF and images (JPEG, PNG, WebP) are allowed"), db)
        else if 5 * 1024 * 1024 <? file_size file then
          (respond 400 (UploadError "File size must be less than 5MB"), db)
        else
          match emergencies db !! eid with
          | None => (respond 404 (UploadError "Emergency not found"), db)
          | Some emergency =>
            if negb (bool_decide (Emergency.patientId emergency = uid)) then
              (respond 403 (UploadError "Unauthorized: Cannot upload to this emergency"), db)
            else
              match uploaded with
              | None => (respond 500 (UploadError "Failed to upload document"), db)
              | Some up =>
                let uploadResult :=
                  {| ur_url := up_url up; ur_publicId := up_publicId up;
                     ur_size := up_bytes up;
                     ur_type := default "other" (truthy_string docType) |} in
                let db1 :=
                  {| users := users db; emergencies := emergencies db;
                     documents := documents db;
                     blobs := {[up_publicId up]} ∪ blobs db |} in
                let '(docRef, db2) := saveDocumentReference eid uploadResult freshId now db1 in
                match createDocumentToken JSON_stringify secret docRef.1 uid
                        (role_string patient) (Some 300) now with
                | None => (respond 500 (UploadError "Failed to upload document"), db2)
                | Some token =>
                  (respond 201
                     (UploadOk docRef.1 (ur_type uploadResult) (ur_size uploadResult)
                        docRef.2 token), db2)
                end
              end
          end
      end
    end
  | _ => (respond 401 (UploadError "Unauthorized: Only patients can upload documents"), db)
  end.

(** GET: the unexpired documents of a case, each with a view token for the
    requester. *)
Definition uploads_GET (secret : option string) (requestUser : option RequestUser)
    (emergencyId : option string) (now : Z) (db : Db) : Response DocumentsBody :=
  match requestUser with
  | None => respond 401 (DocumentsError "Unauthorized")
  | Some ru =>
    match truthy_string emergencyId with
    | None => respond 400 (DocumentsError "Emergency ID is required")
    | Some eid =>
      match emergencies db !! eid with
      | None => respond 404 (DocumentsError "Emergency not found")
      | Some emergency =>
        if negb (hasAccess ru emergency) then respond 403 (DocumentsError "Unauthorized")
        else
          match
            mapM (fun d =>
                    (fun token => (d, token))
                      <$> createDocumentToken JSON_stringify secret (MedicalDocument.id d)
                            (ru_id ru) (role_string (ru_role ru)) (Some 300) now)
              (getEmergencyDocuments eid now db)
          with
          | None => respond 500 (DocumentsError "Failed to fetch documents")
          | Some documents => respond 200 (DocumentsOk documents)
          end
      end
    end
  end.

End UploadRoute.

(** DELETE: the patient of the case removes one of its documents.  As in
    [delete_document], the blob store is taken to honour the request. *)
Definition uploads_DELETE (requestUser : option RequestUser)
    (documentId emergencyId : option string) (db : Db) : Response DeleteBody * Db :=
  match requestUser with
  | None => (respond 401 (DeleteError "Unauthorized"), db)
  | Some ru =>
    match truthy_string documentId, truthy_string emergencyId with
    | Some did, Some eid =>
      match emergencies db !! eid with
      | None => (respond 404 (DeleteError "Emergency not found"), db)
      | Some emergency =>
        if negb (bool_decide (Emergency.patientId emergency = ru_id ru)) then
          (respond 403 (DeleteError "Unauthorized"), db)
        else
          match documents db !! did with
          | None => (respond 404 (DeleteError "Document not found"), db)
          | Some document =>
            if negb (bool_decide (MedicalDocument.emergencyId document = eid)) then
              (respond 404 (DeleteError "Document not found"), db)
            else
              (respond 200 DeleteOk,
               {| users := users db; emergencies := emergencies db;
                  documents := delete did (documents db);
                  blobs := blobs db ∖ {[MedicalDocument.cloudinaryId document]} |})
          end
      end
    | _, _ => (respond 400 (DeleteError "Document ID and Emergency ID are required"), db)
    end
  end.

(** ** POST /api/user/location *)

Inductive LocationBody :=
| LocationError (error : string)
| LocationOk (id : string) (locationLat locationLng : option Q) (address : option string).

(** [prisma.user.update({ where: { id }, data })]. *)
Fixpoint user_update (uid : string) (f : User.t → User.t) (us : list User.t)
  : option (User.t * list User.t) :=
  match us with
  | [] => None
  | u :: us' =>
    if String.eqb (User.id u) uid then Some (f u, f u :: us')
    else
      match user_update uid f us' with
      | Some (u', us'') => Some (u', u :: us'')
      | None => None
      end
  end.

Definition set_location (lat lng : Q) (address : option string) (u : User.t) : User.t :=
  {| User.id := User.id u; User.role := User.role u; User.isActive := User.isActive u;
     User.name := User.name u; User.email := User.email u; User.phone := User.phone u;
     User.licenseNumber := User.licenseNumber u;
     User.address := address;
     User.locationLat := Some lat; User.locationLng := Some lng;
     User.vehiclePlate := User.vehiclePlate u; User.createdAt := User.createdAt u |}.

Definition user_location_POST (requestUser : option RequestUser) (lat lng : option Q)
    (address : option string) (db : Db) : Response LocationBody * Db :=
  match requestUser with
  | None => (respond 401 (LocationError "Unauthorized"), db)
  | Some ru =>
    match lat, lng with
    | Some lat, Some lng =>
      if Qltb lat (-90) || Qltb 90 lat || Qltb lng (-180) || Qltb 180 lng then
        (respond 400 (LocationError "Invalid coordinates"), db)
      else
        match user_update (ru_id ru) (set_location lat lng (truthy_string address))
                (users db) with
        | None => (respond 500 (LocationError "Failed to save location"), db)
        | Some (updated, us) =>
          (respond 200
             (LocationOk (User.id updated) (User.locationLat updated)
                (User.locationLng updated) (User.address updated)),
           {| users := us; emergencies := emergencies db;
              documents := documents db; blobs := blobs db |})
        end
    | _, _ => (respond 400 (LocationError "lat and lng are required"), db)
    end
  end.

(** ** The dashboards' location watcher and polling loops *)

(** [lastLocationSentRef.current]. *)
Record Sent := {
  sent_at : Z;
  sent_lat : Q;
  sent_lng : Q
}.

Definition movedEnough (prev : option Sent) (lat lng : Q) : bool :=
  match prev with
  | None => true
  | Some p =>
    Qltb (15 # 100000) (Qabs (lat - sent_lat p))
    || Qltb (15 # 100000) (Qabs (lng - sent_lng p))
  end.

Definition timeEnough (prev : option Sent) (now : Z) : bool :=
  match prev with
  | None => true
  | Some p => 5000 <? now - sent_at p
  end.

(** The [watchPosition] callback of the patient and driver pages on one
    reading: the new value of the ref, and whether the position is sent. *)
Definition onPosition (prev : option Sent) (lat lng : Q) (now : Z) : option Sent * bool :=
  if negb (movedEnough prev lat lng) || negb (timeEnough prev now) then (prev, false)
  else (Some {| sent_at := now; sent_lat := lat; sent_lng := lng |}, true).

(** The positions sent over a run of readings [(lat, lng, now)]. *)
Fixpoint watch (prev : option Sent) (readings : list (Q * Q * Z)) : list Sent :=
  match readings with
  | [] => []
  | (lat, lng, now) :: rest =>
    match onPosition prev lat lng now with
    | (prev', true) =>
      {| sent_at := now; sent_lat := lat; sent_lng := lng |} :: watch prev' rest
    | (prev', false) => watch prev' rest
    end
  end.

(** One round of a polling loop's [tick]: the failure count after the poll
    ([ok]: it did not throw), and the delay before the next one. *)
Definition tick (base : Z) (ok : bool) (failures : Z) : Z * Z :=
  let failures := if ok then 0 else Z.min 6 (failures + 1) in
  (failures, if 0 <? failures then Z.min 60000 (base * (failures + 1)) else base).

(** The delays of a run of polls. *)
Fixpoint delays (base : Z) (failures : Z) (outcomes : list bool) : list Z :=
  match outcomes with
  | [] => []
  | ok :: rest =>
    let '(failures', backoff) := tick base ok failures in
    backoff :: delays base failures' rest
  end.

(** ** Sample data

    Concrete users, rows and oracles on which the handlers are run. *)

(** A stand-in for [haversineKm] on concrete data.  Between two points of
    the same longitude the haversine formula reduces to R * |dLat| * pi / 180;
    this is that expression with 355/113 for pi (the longitude difference is
    added the same way, so the function is only meant for points on one
    meridian, which is what the samples use). *)
Definition meridianKm : GeoOracle := fun lat1 lng1 lat2 lng2 =>
  (6371 * (Qabs (lat2 - lat1) + Qabs (lng2 - lng1)) * (355 # 113) / 180)%Q.

Definition sample_user (id : string) (role : Role) (license : option string)
    (loc : option (Q * Q)) (createdAt : Z) : User.t :=
  {| User.id := id; User.role := role; User.isActive := true;
     User.name := id; User.email := id +:+ "@example.org"; User.phone := "100";
     User.licenseNumber := license; User.address := None;
     User.locationLat := fst <$> loc; User.locationLng := snd <$> loc;
     User.vehiclePlate := None; User.createdAt := createdAt |}.

Definition hospA : User.t :=
  sample_user "hospA" hospital (Some "H1") (Some ((2861 # 100)%Q, (772 # 10)%Q)) 1.
Definition hospB : User.t :=
  sample_user "hospB" hospital (Some "H2") (Some ((287 # 10)%Q, (772 # 10)%Q)) 2.
Definition drvA : User.t :=
  sample_user "drvA" driver (Some "H1") (Some ((2862 # 100)%Q, (772 # 10)%Q)) 3.
Definition pat1 : User.t := sample_user "pat1" patient None None 4.

(** A hospital that never set its coordinates, and one without a license. *)
Definition hospNoLoc : User.t := sample_user "hospNoLoc" hospital (Some "H1") None 1.
Definition hospNoLic : User.t :=
  sample_user "hospNoLic" hospital None (Some ((2861 # 100)%Q, (772 # 10)%Q)) 1.

Definition empty_db (us : list User.t) : Db :=
  {| users := us; emergencies := ∅; documents := ∅; blobs := ∅ |}.

Definition city_db : Db := empty_db [hospA; hospB; drvA; pat1].

Definition pat1_user : RequestUser := {| ru_id := "pat1"; ru_role := patient |}.
Definition hospA_user : RequestUser := {| ru_id := "hospA"; ru_role := hospital |}.
Definition hospB_user : RequestUser := {| ru_id := "hospB"; ru_role := hospital |}.
Definition drvA_user : RequestUser := {| ru_id := "drvA"; ru_role := driver |}.

Definition at_patient : LocationInput :=
  {| lat := Some (286 # 10)%Q; lng := Some (772 # 10)%Q; loc_address := Some "12 Main Road" |}.

(** The database after pat1 triggers an SOS at [at_patient] in [city_db]
    at time 1000, the new row getting id "e1". *)
Definition dispatched_db : Db :=
  (sos_POST (H := meridianKm) (Some pat1_user) (Some at_patient) None None "e1" 1000
     city_db).2.

(** The same database after drvA reports "handover_complete" at time 5000:
    e1 is completed. *)
Definition completed_db : Db :=
  (driver_status_PATCH (Some drvA_user) (Some "e1") None (Some "handover_complete")
     5000 dispatched_db).2.

(** The row with id [eid], for sample databases that hold one. *)
Definition row (eid : string) (db : Db) : Emergency.t :=
  default (created_row eid "" 0 0 None None 0) (emergencies db !! eid).

(** Databases for the degraded dispatches: the only hospital has no
    license; the only hospital has no coordinates (and a driver with its
    license is on duty). *)
Definition nolic_db : Db := empty_db [hospNoLic; pat1].
Definition noloc_db : Db := empty_db [hospNoLoc; drvA; pat1].

(** Rows for the hospital feed: what hospA sees at clock reading
    [feed_now].  c1 was triggered two minutes earlier, is completed and has
    one document that expires in 58 minutes; c2 was triggered two hours
    earlier, is completed and has no document; c3 was triggered one minute
    earlier and is still pending. *)
Definition feed_now : Z := 10000000.

Definition sample_row (id patientId : string) (status : Status) (triggeredAt : Z)
  : Emergency.t :=
  Emergency.write
    {| Emergency.d_status := Some status;
       Emergency.d_patientLat := None;
       Emergency.d_patientLng := None;
       Emergency.d_address := None;
       Emergency.d_severityScore := Some 50;
       Emergency.d_aiAssessment := None;
       Emergency.d_assignedHospitalId := Some "hospA";
       Emergency.d_assignedDriverId := None;
       Emergency.d_driverLat := None;
       Emergency.d_driverLng := None;
       Emergency.d_driverLastLocationUpdate := None;
       Emergency.d_distanceKm := None;
       Emergency.d_etaMinutes := None;
       Emergency.d_acceptedAt := None;
       Emergency.d_arrivedAt := None;
       Emergency.d_completedAt := None;
       Emergency.d_assignedBedType := None;
       Emergency.d_hospitalNotes := None |}
    (created_row id patientId (286 # 10) (772 # 10) None None triggeredAt).

Definition doc1 : MedicalDocument.t :=
  {| MedicalDocument.id := "doc1"; MedicalDocument.emergencyId := "c1";
     MedicalDocument.url := "https://res.example.org/doc1.pdf";
     MedicalDocument.cloudinaryId := "blob1";
     MedicalDocument.expiresAt := feed_now + 58 * 60 * 1000;
     MedicalDocument.createdAt := feed_now - 2 * 60 * 1000 |}.

Definition feed_db : Db :=
  {| users := [hospA; hospB; drvA; pat1];
     emergencies :=
       <["c1" := sample_row "c1" "pat1" completed (feed_now - 2 * 60 * 1000)]>
         (<["c2" := sample_row "c2" "pat2" completed (feed_now - 2 * 60 * 60 * 1000)]>
            (<["c3" := sample_row "c3" "pat3" pending (feed_now - 60 * 1000)]> ∅));
     documents := {["doc1" := doc1]};
     blobs := {["blob1"]} |}.

(** The dispatched database after drvA reports from (28.7, 77.2) at time
    2000: about 11 km from the patient, so e1 is en_route. *)
Definition en_route_db : Db :=
  (driver_location_POST (H := meridianKm) (Some drvA_user) (Some "e1") (Some (287 # 10)%Q)
     (Some (772 # 10)%Q) 2000 dispatched_db).2.

(** A stand-in for Node's crypto and JSON on concrete data: the digest of a
    message is the secret followed by the message, base64url decoding is the
    identity, and two payload strings parse. "P1" expires at second 9000,
    "P2" at second 99999; both name doc1 and the patient pat1. *)
Definition toy_crypto : TokenCrypto :=
  {| hmac_sha256 := fun secret m => secret +:+ m;
     base64urlToBuffer := fun s => s;
     JSON_parse := fun s =>
       if String.eqb s "P1" then
         Some {| documentId := "doc1"; userId := "pat1"; tk_role := "patient"; exp := 9000 |}
       else if String.eqb s "P2" then
         Some {| documentId := "doc1"; userId := "pat1"; tk_role := "patient"; exp := 99999 |}
       else None |}.


(** A stand-in with the real codec: the digest is the secret followed by
    the message, the decoder is [Base64Url.base64urlToBuffer], and the one
    payload text that parses is what [toy_stringify] writes for a patient
    token on "doc9" that expires at second 1300. *)
Definition toy_stringify (p : DocumentTokenPayload) : string :=
  documentId p +:+ "|" +:+ userId p +:+ "|" +:+ tk_role p +:+ "|" +:+ pretty (exp p).

Definition doc9_payload : DocumentTokenPayload :=
  {| documentId := "doc9"; userId := "pat1"; tk_role := "patient"; exp := 1300 |}.

Definition codec_crypto : TokenCrypto :=
  {| hmac_sha256 := fun secret m => secret +:+ m;
     base64urlToBuffer := Base64Url.base64urlToBuffer;
     JSON_parse := fun s =>
       if String.eqb s "doc9|pat1|patient|1300" then Some doc9_payload else None |}.

(** A 2 kB PDF, and what the storage service answers to its upload. *)
Definition sample_file : UploadFile :=
  {| file_type := "application/pdf"; file_size := 2048; file_name := "report.pdf" |}.

Definition sample_uploaded : Uploaded :=
  {| up_url := "https://res.example.org/doc9.pdf"; up_publicId := "blob9";
     up_bytes := 2048 |}.

Definition sample_uploadResult : UploadResult :=
  {| ur_url := "https://res.example.org/doc1.pdf"; ur_publicId := "blob1";
     ur_size := 2048; ur_type := "report" |}.

(** The payload of the sample token "P2.kP2". *)
Definition p2_payload : DocumentTokenPayload :=
  {| documentId := "doc1"; userId := "pat1"; tk_role := "patient"; exp := 99999 |}.

(** * Properties *)

(** ** Storage lemmas *)

Lemma emergency_update_found (eid : string) (d : Emergency.data) (db : Db) (e : Emergency.t) :
  emergencies db !! eid = Some e →
  emergency_update eid d db
  = Some (Emergency.write d e,
          with_emergencies (<[eid := Emergency.write d e]> (emergencies db)) db).
Proof. intros Hl. unfold emergency_update. by rewrite Hl. Qed.

Lemma emergency_update_missing (eid : string) (d : Emergency.data) (db : Db) :
  emergencies db !! eid = None → emergency_update eid d db = None.
Proof. intros Hl. unfold emergency_update. by rewrite Hl. Qed.

Lemma update_then_found {B} (eid : string) (d : Emergency.data) (db : Db) (e : Emergency.t)
    (failure : B) (k : Emergency.t → Db → Response B * Db) :
  emergencies db !! eid = Some e →
  update_then eid d db failure k
  = k (Emergency.write d e)
      (with_emergencies (<[eid := Emergency.write d e]> (emergencies db)) db).
Proof. intros Hl. unfold update_then. by rewrite (emergency_update_found _ _ _ _ Hl). Qed.

Lemma find_emergency_found (eid : string) (cond : Emergency.t → bool) (db : Db)
    (e : Emergency.t) :
  emergencies db !! eid = Some e → cond e = true → find_emergency eid cond db = Some e.
Proof. intros Hl Hc. unfold find_emergency. by rewrite Hl, Hc. Qed.

Lemma truthy_string_Some (s : string) : s ≠ "" → truthy_string (Some s) = Some s.
Proof.
  intros Hs. simpl. destruct (String.eqb_spec s ""); [contradiction | reflexivity].
Qed.

Lemma truthy_string_inv (o : option string) (s : string) :
  truthy_string o = Some s → o = Some s ∧ s ≠ "".
Proof.
  destruct o as [s'|]; simpl; [|discriminate].
  destruct (String.eqb_spec s' ""); [discriminate|].
  intros [= ->]. done.
Qed.

(** ** The terminal state and the location handlers *)

(** C1 (what the code does on a completed emergency).  Both location
    handlers write to a completed emergency.  The patient PATCH answers
    [{ success, status: "completed" }] but has already overwritten the
    patient coordinates; the driver POST passes the throttle (the stored
    status cannot equal the derived one) and overwrites the driver position,
    the timestamp and the status, which leaves [completed]. *)
Theorem completed_emergency_is_rewritten `{GeoOracle} (db : Db) (eid : string)
    (e : Emergency.t) :
  emergencies db !! eid = Some e →
  eid ≠ "" →
  Emergency.status e = completed →
  (∀ la lo addr,
     ∃ e',
       sos_PATCH (Some {| ru_id := Emergency.patientId e; ru_role := patient |}) (Some eid)
         (Some {| lat := Some la; lng := Some lo; loc_address := addr |}) db
       = (respond 200 PatchCompleted,
          with_emergencies (<[eid := e']> (emergencies db)) db)
       ∧ Emergency.status e' = completed
       ∧ Emergency.patientLat e' = la ∧ Emergency.patientLng e' = lo)
  ∧
  (∀ uid latitude longitude now,
     Emergency.assignedDriverId e = Some uid →
     isValidCoordinate latitude longitude = true →
     ∃ e' t n,
       driver_location_POST (Some {| ru_id := uid; ru_role := driver |}) (Some eid)
         (Some latitude) (Some longitude) now db
       = (respond 200 (DriverPostWritten t n),
          with_emergencies (<[eid := e']> (emergencies db)) db)
       ∧ (Emergency.status e' = en_route ∨ Emergency.status e' = arrived)
       ∧ Emergency.driverLat e' = Some latitude
       ∧ Emergency.driverLng e' = Some longitude
       ∧ Emergency.driverLastLocationUpdate e' = Some now).
Proof.
  intros Hl Hne Hst. split.
  - intros la lo addr. eexists. unfold sos_PATCH.
    rewrite (truthy_string_Some _ Hne). simpl valid_location. cbv iota beta.
    rewrite (find_emergency_found _ _ _ _ Hl) by (by rewrite bool_decide_eq_true).
    rewrite (update_then_found _ _ _ _ _ _ Hl).
    simpl. rewrite Hst. simpl. done.
  - intros uid latitude longitude now Hd Hv. unfold driver_location_POST.
    rewrite (truthy_string_Some _ Hne), Hv. simpl negb. cbv iota beta.
    rewrite (find_emergency_found _ _ _ _ Hl) by (by rewrite bool_decide_eq_true).
    cbv zeta.
    assert (Hsame : ∀ s, (s = arrived ∨ s = en_route) → statusSame e s = false).
    { intros s [-> | ->]; unfold statusSame; rewrite Hst; done. }
    rewrite Hsame, andb_false_r by (destruct (Qltb _ 1); auto).
    rewrite (update_then_found _ _ _ _ _ _ Hl).
    do 3 eexists. split; [reflexivity|]. simpl.
    destruct (Qltb _ 1); auto.
Qed.

(** ** The SOS handler, branch by branch *)

Lemma with_emergencies_twice (m m' : gmap string Emergency.t) (db : Db) :
  with_emergencies m' (with_emergencies m db) = with_emergencies m' db.
Proof. reflexivity. Qed.

Lemma update_created {B} (eid : string) (created : Emergency.t) (d : Emergency.data)
    (db : Db) (failure : B) (k : Emergency.t → Db → Response B * Db) :
  update_then eid d (with_emergencies (<[eid := created]> (emergencies db)) db) failure k
  = k (Emergency.write d created)
      (with_emergencies (<[eid := Emergency.write d created]> (emergencies db)) db).
Proof.
  rewrite (update_then_found _ _ _ created) by (simpl; apply lookup_insert_eq).
  simpl emergencies. by rewrite insert_insert_eq, with_emergencies_twice.
Qed.

(** The handler's result for a patient request with a usable location: the
    created row with the branch's columns written, and the branch's report. *)
Lemma sos_POST_dispatch `{GeoOracle} (uid : string) (location : option LocationInput)
    (la lo : Q) (symptoms : option string) (ai : option AiResult) (freshId : string)
    (now : Z) (db : Db) :
  valid_location location = Some (la, lo) →
  ∃ r,
    sos_POST (Some {| ru_id := uid; ru_role := patient |}) location symptoms ai freshId now db
    = (r, with_emergencies
            (<[freshId :=
                 Emergency.write
                   (dispatch_data la lo (from_option ai_severityScore 50 ai)
                      (from_option ai_assessment "Symptoms received, awaiting analysis" ai)
                      (dispatch_of la lo (users db)))
                   (created_row freshId uid la lo location symptoms now)]>
               (emergencies db)) db)
    ∧ sos_report r = report_of (outcome_of (dispatch_of la lo (users db))).
Proof.
  intros Hv. unfold sos_POST, dispatch_of. rewrite Hv. cbv zeta. simpl users.
  destruct (findNearestHospitals la lo 5 (users db)) as [|h hs].
  - destruct (fallback_hospital (users db)) as [fh|].
    + rewrite update_created. eexists. split; reflexivity.
    + eexists. split; reflexivity.
  - destruct (truthy_string (User.licenseNumber (h_user h))) as [license|].
    + destruct (findNearestAmbulances la lo 3 (Some license) (users db)) as [|a amb].
      * rewrite update_created. eexists. split; reflexivity.
      * rewrite update_created. eexists. split; reflexivity.
    + rewrite update_created. eexists. split; reflexivity.
Qed.

(** ** Coordinate validation *)

(** C9 (what the code does with out-of-range coordinates).  The two SOS
    handlers check that the coordinates are present and numeric and nothing
    more: whatever the values, [create] stores a row that carries them and
    [updatePatientLocation] overwrites the row with them.  Only the driver
    location handler tests the range, and it leaves the database alone when
    the test fails. *)
Theorem sos_coordinates_are_not_range_checked `{GeoOracle} :
  (∀ uid la lo addr symptoms ai freshId now db,
     ∃ e,
       emergencies
         (sos_POST (Some {| ru_id := uid; ru_role := patient |})
            (Some {| lat := Some la; lng := Some lo; loc_address := addr |})
            symptoms ai freshId now db).2 !! freshId = Some e
       ∧ Emergency.patientLat e = la ∧ Emergency.patientLng e = lo)
  ∧ (∀ db eid e la lo addr,
       emergencies db !! eid = Some e → eid ≠ "" →
       ∃ e',
         emergencies
           (sos_PATCH (Some {| ru_id := Emergency.patientId e; ru_role := patient |})
              (Some eid) (Some {| lat := Some la; lng := Some lo; loc_address := addr |})
              db).2 !! eid = Some e'
         ∧ Emergency.patientLat e' = la ∧ Emergency.patientLng e' = lo)
  ∧ (∀ requestUser emergencyId latitude longitude now db,
       isValidCoordinate latitude longitude = false →
       (driver_location_POST requestUser emergencyId (Some latitude) (Some longitude)
          now db).2 = db).
Proof.
  split; [|split].
  - intros uid la lo addr symptoms ai freshId now db.
    destruct (sos_POST_dispatch uid
                (Some {| lat := Some la; lng := Some lo; loc_address := addr |})
                la lo symptoms ai freshId now db eq_refl) as (r & -> & _).
    eexists. split; [simpl; apply lookup_insert_eq|].
    destruct (dispatch_of la lo (users db)); done.
  - intros db eid e la lo addr Hl Hne. unfold sos_PATCH.
    rewrite (truthy_string_Some _ Hne). simpl valid_location. cbv iota beta.
    rewrite (find_emergency_found _ _ _ _ Hl) by (by rewrite bool_decide_eq_true).
    rewrite (update_then_found _ _ _ _ _ _ Hl).
    eexists. split.
    + destruct (bool_decide _); simpl; apply lookup_insert_eq.
    + done.
  - intros [[uid []]|] emergencyId latitude longitude now db Hv; try reflexivity.
    unfold driver_location_POST.
    destruct (truthy_string emergencyId); [|reflexivity].
    by rewrite Hv.
Qed.

(** ** Sorting *)

Lemma insert_by_Permutation {A} (before : A → A → bool) (x : A) (l : list A) :
  insert_by before x l ≡ₚ x :: l.
Proof.
  induction l as [|y l IH]; simpl; [done|].
  destruct (before y x); [|done].
  rewrite IH. apply Permutation_swap.
Qed.

Lemma sort_by_Permutation {A} (before : A → A → bool) (l : list A) :
  sort_by before l ≡ₚ l.
Proof.
  induction l as [|x l IH]; simpl; [done|].
  unfold sort_by in IH. by rewrite insert_by_Permutation, IH.
Qed.

Lemma elem_of_sort_by {A} (before : A → A → bool) (l : list A) (x : A) :
  x ∈ sort_by before l ↔ x ∈ l.
Proof. by rewrite sort_by_Permutation. Qed.

Lemma sort_by_nil {A} (before : A → A → bool) (l : list A) :
  sort_by before l = [] ↔ l = [].
Proof.
  split; [|by intros ->].
  intros Hs. apply Permutation_nil_r. by rewrite <- Hs, sort_by_Permutation.
Qed.

Lemma filter_nil_forall {A} (P : A → Prop) `{∀ x, Decision (P x)} (l : list A) :
  filter P l = [] ↔ ∀ x, x ∈ l → ¬ P x.
Proof.
  split.
  - intros Hf x Hx HP. by apply (filter_nil_not_elem_of P l x).
  - intros Hn. apply elem_of_nil_inv. intros x [HP Hx]%list_elem_of_filter.
    by apply (Hn x).
Qed.

(** ** The outcomes of a dispatch *)

Lemma active_hospital_test (u : User.t) :
  bool_decide (User.role u = hospital) && User.isActive u = true ↔ active_hospital u.
Proof.
  unfold active_hospital. rewrite andb_true_iff, bool_decide_eq_true. done.
Qed.

Lemma fallback_hospital_None (us : list User.t) :
  fallback_hospital us = None ↔ ∀ u, u ∈ us → ¬ active_hospital u.
Proof.
  unfold fallback_hospital. rewrite head_None, sort_by_nil.
  rewrite filter_nil_forall.
  split; intros Hn u Hu; specialize (Hn u Hu); by rewrite active_hospital_test in *.
Qed.

Lemma rank_hospital_Some `{GeoOracle} (la lo : Q) (u : User.t) (h : RankedHospital) :
  rank_hospital la lo u = Some h → h_user h = u ∧ active_hospital u.
Proof.
  unfold rank_hospital.
  destruct (bool_decide (User.role u = hospital) && User.isActive u) eqn:Ha; [|done].
  apply active_hospital_test in Ha.
  destruct (User.locationLat u), (User.locationLng u); try done.
  by intros [= <-].
Qed.

Lemma findNearestHospitals_elem `{GeoOracle} (la lo : Q) (n : nat) (us : list User.t)
    (h : RankedHospital) :
  h ∈ findNearestHospitals la lo n us → h_user h ∈ us ∧ active_hospital (h_user h).
Proof.
  unfold findNearestHospitals. intros Hh.
  apply elem_of_take in Hh as (i & Hh & _). apply list_elem_of_lookup_2 in Hh.
  apply elem_of_sort_by, list_elem_of_omap in Hh as (u & Hu & Hr).
  apply rank_hospital_Some in Hr as [-> Ha]. done.
Qed.

Lemma dispatch_NoHospital `{GeoOracle} (la lo : Q) (us : list User.t) :
  dispatch_of la lo us = NoHospital ↔ ∀ u, u ∈ us → ¬ active_hospital u.
Proof.
  unfold dispatch_of. split.
  - destruct (findNearestHospitals la lo 5 us) as [|h hs].
    + destruct (fallback_hospital us) eqn:Hf; [done|]. intros _.
      by apply fallback_hospital_None.
    + destruct (truthy_string _); [destruct (findNearestAmbulances _ _ _ _ _)|]; done.
  - intros Hn.
    destruct (findNearestHospitals la lo 5 us) as [|h hs] eqn:Hh.
    + apply fallback_hospital_None in Hn. by rewrite Hn.
    + exfalso. destruct (findNearestHospitals_elem la lo 5 us h) as [Hu Ha].
      { rewrite Hh. left. }
      by apply (Hn _ Hu).
Qed.

Lemma omap_nil_forall {A B} (f : A → option B) (l : list A) :
  omap f l = [] ↔ ∀ x, x ∈ l → f x = None.
Proof.
  induction l as [|x l IH]; simpl.
  - split; [by intros _ x ?%elem_of_nil | done].
  - destruct (f x) eqn:Hx.
    + split; [done|]. intros Hall. specialize (Hall x (list_elem_of_here _ _)). congruence.
    + rewrite IH. split.
      * intros Hall y [->|Hy]%elem_of_cons; auto.
      * intros Hall y Hy. apply Hall. by right.
Qed.

Lemma findNearestHospitals_nil `{GeoOracle} (la lo : Q) (n : nat) (us : list User.t) :
  findNearestHospitals la lo (S n) us = []
  ↔ ∀ u, u ∈ us → active_hospital u → user_location u = None.
Proof.
  unfold findNearestHospitals.
  assert (∀ {A} (l : list A), take (S n) l = [] ↔ l = []) as ->
    by (intros A []; simpl; split; congruence).
  rewrite sort_by_nil, omap_nil_forall.
  split; intros Hall u Hu; specialize (Hall u Hu); revert Hall;
    unfold rank_hospital, user_location;
    destruct (bool_decide (User.role u = hospital) && User.isActive u) eqn:Ha.
  - apply active_hospital_test in Ha.
    by destruct (User.locationLat u), (User.locationLng u).
  - intros _ Hact. apply active_hospital_test in Hact. congruence.
  - apply active_hospital_test in Ha. intros Hloc. specialize (Hloc Ha).
    by destruct (User.locationLat u), (User.locationLng u).
  - done.
Qed.

Lemma fallback_hospital_Some (us : list User.t) (fh : User.t) :
  fallback_hospital us = Some fh → fh ∈ us ∧ active_hospital fh.
Proof.
  unfold fallback_hospital. intros Hh. apply head_Some_elem_of in Hh.
  apply elem_of_sort_by, list_elem_of_filter in Hh as [Ha Hu].
  by apply active_hospital_test in Ha.
Qed.

Lemma dispatch_unranked `{GeoOracle} (la lo : Q) (us : list User.t) :
  outcome_of (dispatch_of la lo us) = hospital_only_unranked
  ↔ (∃ u, u ∈ us ∧ active_hospital u)
    ∧ ∀ u, u ∈ us → active_hospital u → user_location u = None.
Proof.
  rewrite <- (findNearestHospitals_nil la lo 4 us). unfold dispatch_of.
  destruct (findNearestHospitals la lo 5 us) as [|h hs].
  - destruct (fallback_hospital us) as [fh|] eqn:Hf; simpl.
    + apply fallback_hospital_Some in Hf. split; [eauto | done].
    + split; [done|]. intros [(u & Hu & Ha) _]. exfalso.
      by apply (proj1 (fallback_hospital_None us) Hf u).
  - split; [|by intros [_ ?]].
    destruct (truthy_string _); [destruct (findNearestAmbulances _ _ _ _ _)|]; simpl; done.
Qed.

Lemma report_of_inj (o o' : Outcome) : report_of o = report_of o' → o = o'.
Proof.
  destruct o, o'; intros Heq; try reflexivity;
    unfold report_of, msg_fallback, msg_no_license, msg_no_driver in Heq; congruence.
Qed.

(** C6 (amended).  An SOS response names no outcome code.  What it carries
    is the HTTP status, the [ambulanceDispatched] flag and a message, and
    these tell five outcomes apart, not four: 201 with the flag set for a
    dispatch; 503 for no hospital at all, which is the case exactly when no
    active hospital account exists; and 202 with the flag cleared and a
    message of its own for each of the three hospital-only outcomes, the
    third being a hospital taken without distance ranking, which is the case
    exactly when active hospitals exist and none has coordinates. *)
Theorem sos_outcomes_are_reported_apart `{GeoOracle} :
  (∀ uid la lo addr symptoms ai freshId now db,
     sos_report
       (sos_POST (Some {| ru_id := uid; ru_role := patient |})
          (Some {| lat := Some la; lng := Some lo; loc_address := addr |})
          symptoms ai freshId now db).1
     = report_of (outcome_of (dispatch_of la lo (users db))))
  ∧ (∀ o o', report_of o = report_of o' → o = o')
  ∧ (∀ o, (report_of o).1.1 = 503 ↔ o = no_hospitals_available)
  ∧ (∀ la lo us,
       outcome_of (dispatch_of la lo us) = no_hospitals_available
       ↔ ∀ u, u ∈ us → ¬ active_hospital u)
  ∧ (∀ la lo us,
       outcome_of (dispatch_of la lo us) = hospital_only_unranked
       ↔ (∃ u, u ∈ us ∧ active_hospital u)
         ∧ ∀ u, u ∈ us → active_hospital u → user_location u = None).
Proof.
  split; [|split; [|split; [|split]]]; [| | | |apply @dispatch_unranked].
  - intros uid la lo addr symptoms ai freshId now db.
    destruct (sos_POST_dispatch uid
                (Some {| lat := Some la; lng := Some lo; loc_address := addr |})
                la lo symptoms ai freshId now db eq_refl) as (r & -> & Hr).
    exact Hr.
  - apply report_of_inj.
  - intros []; simpl; split; intros Heq; first [reflexivity | discriminate Heq].
  - intros la lo us. rewrite <- (dispatch_NoHospital la lo us).
    destruct (dispatch_of la lo us); simpl; split; intros Heq;
      first [reflexivity | discriminate Heq].
Qed.

(** C5 (amended).  A created emergency is persisted with status [assigned]
    exactly when a driver was found (the 201 response).  In the three
    hospital-only outcomes (202) the hospital is recorded and the status
    stays [pending]; with no hospital at all (503) the row stays [pending]
    and unassigned. *)
Theorem created_status_is_assigned_only_with_driver `{GeoOracle}
    (uid : string) (la lo : Q) (addr symptoms : option string) (ai : option AiResult)
    (freshId : string) (now : Z) (db : Db) :
  ∃ r db' e,
    sos_POST (Some {| ru_id := uid; ru_role := patient |})
      (Some {| lat := Some la; lng := Some lo; loc_address := addr |})
      symptoms ai freshId now db = (r, db')
    ∧ emergencies db' !! freshId = Some e
    ∧ ((httpStatus r = 201 ∧ Emergency.status e = assigned
        ∧ is_Some (Emergency.assignedHospitalId e) ∧ is_Some (Emergency.assignedDriverId e))
       ∨ (httpStatus r = 202 ∧ Emergency.status e = pending
          ∧ is_Some (Emergency.assignedHospitalId e) ∧ Emergency.assignedDriverId e = None)
       ∨ (httpStatus r = 503 ∧ Emergency.status e = pending
          ∧ Emergency.assignedHospitalId e = None ∧ Emergency.assignedDriverId e = None)).
Proof.
  destruct (sos_POST_dispatch uid
              (Some {| lat := Some la; lng := Some lo; loc_address := addr |})
              la lo symptoms ai freshId now db eq_refl) as (r & Heq & Hr).
  eexists _, _, _. split; [exact Heq|]. split; [simpl; apply lookup_insert_eq|].
  unfold sos_report in Hr.
  destruct (dispatch_of la lo (users db)); simpl in *; injection Hr as -> _ _;
    [right; right | right; left | right; left | right; left | left];
    repeat split; eauto.
Qed.

(** ** What a write request does to the database *)

Lemma find_emergency_inv (eid : string) (cond : Emergency.t → bool) (db : Db)
    (e : Emergency.t) :
  find_emergency eid cond db = Some e → emergencies db !! eid = Some e ∧ cond e = true.
Proof.
  unfold find_emergency. destruct (emergencies db !! eid) as [e0|]; [|done].
  destruct (cond e0) eqn:Hc; [|done]. by intros [= <-].
Qed.

(** A served request leaves the database as it was, or rewrites one existing
    row with a [data] object.  Only [AcceptCase] writes an assignment column,
    and a driver operation writes a transit status or [completed]. *)
Lemma serve_effect `{GeoOracle} (q : Request) (now : Z) (db : Db) :
  serve q now db = db
  ∨ ∃ eid e d,
      emergencies db !! eid = Some e
      ∧ serve q now db
        = with_emergencies (<[eid := Emergency.write d e]> (emergencies db)) db
      ∧ ((∀ ru i, q ≠ AcceptCase ru i) →
         Emergency.d_assignedHospitalId d = None ∧ Emergency.d_assignedDriverId d = None)
      ∧ (driver_operation q = true →
         ∃ s, Emergency.d_status d = Some s
              ∧ (in_transit s = true
                 ∨ (s = completed
                    ∧ ∃ ru i st, q = DriverStatusAction ru i st (Some "handover_complete")))).
Proof.
  destruct q as [ru i loc | ru i la lo | ru i st act | ru i | ru i st b n]; simpl.
  - (* updatePatientLocation *)
    unfold sos_PATCH. destruct ru as [[uid []]|]; auto.
    destruct (truthy_string i) as [eid|]; auto.
    destruct (valid_location loc) as [[a b]|]; auto.
    destruct (find_emergency _ _ _) as [e|] eqn:Hf; auto.
    apply find_emergency_inv in Hf as [Hl _]. right.
    rewrite (update_then_found _ _ _ _ _ _ Hl). exists eid, e. eexists.
    split; [done|]. split; [by destruct (bool_decide _)|]. split; done.
  - (* reportDriverLocation *)
    unfold driver_location_POST. destruct ru as [[uid []]|]; auto.
    destruct (truthy_string i) as [eid|], la as [la|], lo as [lo|]; auto.
    destruct (negb _); auto.
    destruct (find_emergency _ _ _) as [e|] eqn:Hf; auto.
    apply find_emergency_inv in Hf as [Hl _]. cbv zeta.
    destruct (_ && _ && _); auto. right.
    rewrite (update_then_found _ _ _ _ _ _ Hl). exists eid, e. eexists.
    split; [done|]. split; [done|]. split; [done|]. intros _. simpl.
    eexists. split; [done|]. destruct (Qltb _ 1); auto.
  - (* driver status action *)
    unfold driver_status_PATCH. destruct ru as [[uid []]|]; auto.
    destruct (truthy_string i) as [eid|]; auto.
    destruct (find_emergency _ _ _) as [e|] eqn:Hf; auto.
    apply find_emergency_inv in Hf as [Hl _]. right.
    rewrite (update_then_found _ _ _ _ _ _ Hl). exists eid, e. eexists.
    split; [done|]. split; [done|]. unfold driver_action_data. split.
    + intros _. repeat case_bool_decide; done.
    + repeat case_bool_decide; simpl; try done; intros _; eexists; split; eauto.
      subst act. right. eauto.
  - (* acceptCase *)
    unfold hospital_accept_POST. destruct ru as [[uid []]|]; auto.
    destruct (truthy_string i) as [eid|]; auto.
    destruct (emergencies db !! eid) as [e|] eqn:Hl.
    + right. rewrite (emergency_update_found _ _ _ _ Hl). exists eid, e. eexists.
      split; [done|]. split; [done|]. split; [|done].
      intros Hq. by destruct (Hq (Some {| ru_id := uid; ru_role := hospital |}) i).
    + left. by rewrite (emergency_update_missing _ _ _ Hl).
  - (* hospital status update *)
    unfold hospital_status_PUT. destruct ru as [[uid []]|]; auto.
    destruct (truthy_string i) as [eid|], (truthy_string st) as [s|]; auto.
    destruct (status_of_string s) as [s'|]; auto.
    destruct (emergencies db !! eid) as [e|] eqn:Hl.
    + right. rewrite (emergency_update_found _ _ _ _ Hl). exists eid, e. eexists.
      split; [done|]. split; [done|]. split; done.
    + left. by rewrite (emergency_update_missing _ _ _ Hl).
Qed.

Lemma status_at_rewritten (db : Db) (eid eid' : string) (d : Emergency.data)
    (e : Emergency.t) :
  emergencies db !! eid = Some e →
  status_at (with_emergencies (<[eid := Emergency.write d e]> (emergencies db)) db) eid'
  = if decide (eid = eid')
    then Some (default (Emergency.status e) (Emergency.d_status d))
    else status_at db eid'.
Proof.
  intros Hl. unfold status_at. simpl. rewrite lookup_insert.
  destruct (decide (eid = eid')); done.
Qed.

Lemma no_regress_refl (s : Status) : no_regress s s = true.
Proof. by destruct s. Qed.

Lemma no_regress_into_transit (old new : Status) :
  old ≠ completed → in_transit new = true → no_regress old new = true.
Proof. destruct old, new; done. Qed.

(** One driver operation on an emergency that is not completed: the status
    stays, or becomes a transit status, or becomes [completed] through
    "handover_complete". *)
Lemma driver_operation_step `{GeoOracle} (q : Request) (now : Z) (db : Db) (eid : string)
    (old : Status) :
  driver_operation q = true →
  status_at db eid = Some old →
  ∃ new,
    status_at (serve q now db) eid = Some new
    ∧ (new = old ∨ in_transit new = true
       ∨ (new = completed
          ∧ ∃ ru i st, q = DriverStatusAction ru i st (Some "handover_complete"))).
Proof.
  intros Hq Hold.
  destruct (serve_effect q now db) as [-> | (i & e & d & Hl & -> & _ & Hd)]; [eauto|].
  destruct (Hd Hq) as (s & Hs & Hcase).
  rewrite (status_at_rewritten _ _ _ _ _ Hl), Hs. simpl.
  destruct (decide (i = eid)); eauto.
Qed.

Lemma transit_operations_run `{GeoOracle} (qs : list (Request * Z)) (eid : string)
    (old : Status) :
  Forall (fun qn => transit_operation qn.1) qs →
  ∀ db cur,
    status_at db eid = Some cur →
    cur = old ∨ in_transit cur = true →
    ∃ new,
      status_at (serve_all qs db) eid = Some new ∧ (new = old ∨ in_transit new = true).
Proof.
  induction 1 as [|[q now] qs [Hq Hnot] _ IH]; intros db cur Hcur Hinv; [by eauto|].
  simpl in *.
  destruct (driver_operation_step q now db eid cur Hq Hcur)
    as (mid & Hmid & [-> | [Ht | [_ (ru & i & st & ->)]]]).
  - by apply (IH _ cur).
  - apply (IH _ mid); auto.
  - by destruct (Hnot ru i st).
Qed.

(** C2 (amended).  The handlers overwrite the status without reading it, so
    monotonicity holds only where the written values happen to respect it.
    On an emergency that is not completed, a driver location report or a
    driver status action never regresses the status (en_route and arrived may
    alternate), and so no sequence of location reports, "patient_loaded" and
    "arrived_hospital" actions does.  acceptCase always leaves the status
    [assigned], and the hospital status update leaves whichever of the five
    statuses was requested, whatever the status was. *)
Theorem status_regresses_only_through_overwrites `{GeoOracle} :
  (∀ q now db eid old,
     driver_operation q = true →
     status_at db eid = Some old → old ≠ completed →
     ∃ new, status_at (serve q now db) eid = Some new ∧ no_regress old new = true)
  ∧ (∀ qs db eid old,
       Forall (fun qn => transit_operation qn.1) qs →
       status_at db eid = Some old → old ≠ completed →
       ∃ new,
         status_at (serve_all qs db) eid = Some new
         ∧ no_regress old new = true ∧ new ≠ completed)
  ∧ (∀ hid eid now db,
       eid ≠ "" → is_Some (emergencies db !! eid) →
       status_at
         (serve (AcceptCase (Some {| ru_id := hid; ru_role := hospital |}) (Some eid)) now db)
         eid
       = Some assigned)
  ∧ (∀ hid eid s st bedType notes now db,
       eid ≠ "" → status_of_string s = Some st → is_Some (emergencies db !! eid) →
       status_at
         (serve (HospitalStatusUpdate (Some {| ru_id := hid; ru_role := hospital |})
                   (Some eid) (Some s) bedType notes) now db)
         eid
       = Some st).
Proof.
  split; [|split; [|split]].
  - intros q now db eid old Hq Hold Hnc.
    destruct (driver_operation_step q now db eid old Hq Hold)
      as (new & Hnew & [-> | [Ht | [-> _]]]); exists new || eexists; split; eauto.
    + apply no_regress_refl.
    + by apply no_regress_into_transit.
    + by destruct old.
  - intros qs db eid old Hqs Hold Hnc.
    destruct (transit_operations_run qs eid old Hqs db old Hold (or_introl eq_refl))
      as (new & Hnew & Hcase).
    exists new. split; [done|]. destruct Hcase as [-> | Ht].
    + split; [apply no_regress_refl | done].
    + split; [by apply no_regress_into_transit | by destruct new].
  - intros hid eid now db Hne [e Hl]. unfold serve, hospital_accept_POST.
    rewrite (truthy_string_Some _ Hne), (emergency_update_found _ _ _ _ Hl). simpl.
    unfold status_at. simpl. by rewrite lookup_insert_eq.
  - intros hid eid s st bedType notes now db Hne Hs [e Hl].
    unfold serve, hospital_status_PUT.
    assert (s ≠ "") as Hs' by (by intros ->).
    rewrite (truthy_string_Some _ Hne), (truthy_string_Some _ Hs'), Hs.
    rewrite (emergency_update_found _ _ _ _ Hl). simpl.
    unfold status_at. simpl. by rewrite lookup_insert_eq.
Qed.

(** ** The assignment invariant *)

Lemma find_user_unique (us : list User.t) (u : User.t) :
  NoDup (User.id <$> us) → u ∈ us → find_user (User.id u) us = Some u.
Proof.
  unfold find_user. induction us as [|v us IH]; intros Hnd Hu; [by inversion Hu|].
  rewrite fmap_cons in Hnd. apply NoDup_cons in Hnd as [Hv Hnd]. simpl.
  destruct (String.eqb_spec (User.id v) (User.id u)) as [Heq|Hne].
  - apply elem_of_cons in Hu as [->|Hu]; [done|].
    exfalso. apply Hv. rewrite Heq. by apply list_elem_of_fmap_2.
  - apply elem_of_cons in Hu as [->|Hu]; [done|]. by apply IH.
Qed.

Lemma findNearestAmbulances_elem `{GeoOracle} (la lo : Q) (n : nat)
    (license : option string) (us : list User.t) (a : RankedDriver) :
  a ∈ findNearestAmbulances la lo n license us →
  a_user a ∈ us ∧ driver_candidate license (a_user a) = true.
Proof.
  unfold findNearestAmbulances. intros Ha.
  apply elem_of_take in Ha as (i & Ha & _). apply list_elem_of_lookup_2 in Ha.
  apply elem_of_sort_by, list_elem_of_fmap in Ha as (u & -> & Hu).
  apply list_elem_of_filter in Hu as [Hc Hu].
  replace (a_user (rank_driver la lo u)) with u; [done|].
  unfold rank_driver. by destruct (User.locationLat u), (User.locationLng u).
Qed.

Lemma dispatch_DriverFound `{GeoOracle} (la lo : Q) (us : list User.t)
    (h : RankedHospital) (license : string) (a : RankedDriver) :
  dispatch_of la lo us = DriverFound h license a →
  h_user h ∈ us ∧ a_user a ∈ us
  ∧ User.licenseNumber (h_user h) = Some license
  ∧ User.licenseNumber (a_user a) = Some license.
Proof.
  unfold dispatch_of.
  destruct (findNearestHospitals la lo 5 us) as [|h0 hs] eqn:Hh;
    [by destruct (fallback_hospital us)|].
  destruct (truthy_string (User.licenseNumber (h_user h0))) as [l|] eqn:Hl; [|done].
  destruct (findNearestAmbulances la lo 3 (Some l) us) as [|a0 amb] eqn:Ha; [done|].
  intros [= -> -> ->].
  destruct (findNearestHospitals_elem la lo 5 us h) as [Hu _]; [rewrite Hh; left|].
  destruct (findNearestAmbulances_elem la lo 3 (Some license) us a) as [Hd Hc];
    [rewrite Ha; left|].
  apply truthy_string_inv in Hl as [Hlic Hne].
  repeat split; try done.
  unfold driver_candidate in Hc. rewrite (truthy_string_Some _ Hne) in Hc.
  apply andb_true_iff in Hc as [_ Hc]. by apply bool_decide_eq_true in Hc.
Qed.

(** C3 (amended).  Dispatch at creation establishes the invariant on the row
    it creates: a driver is recorded only together with the hospital whose
    license the driver carries.  acceptCase overwrites the hospital and
    leaves the driver, so the accepted row satisfies the invariant exactly
    when the row has no driver or the driver's license is the accepting
    hospital's.  No other write request touches either assignment column. *)
Theorem assignment_consistency_of_dispatch_and_accept `{GeoOracle} :
  (∀ uid la lo addr symptoms ai freshId now db e,
     NoDup (User.id <$> users db) →
     emergencies
       (sos_POST (Some {| ru_id := uid; ru_role := patient |})
          (Some {| lat := Some la; lng := Some lo; loc_address := addr |})
          symptoms ai freshId now db).2 !! freshId = Some e →
     assignment_consistent (users db) e)
  ∧ (∀ hid eid now db e,
       eid ≠ "" → emergencies db !! eid = Some e →
       ∃ e',
         emergencies
           (serve (AcceptCase (Some {| ru_id := hid; ru_role := hospital |}) (Some eid))
              now db) !! eid = Some e'
         ∧ Emergency.assignedHospitalId e' = Some hid
         ∧ Emergency.assignedDriverId e' = Emergency.assignedDriverId e
         ∧ (assignment_consistent (users db) e'
            ↔ ∀ d, Emergency.assignedDriverId e = Some d →
                ∃ du hu,
                  find_user d (users db) = Some du ∧ find_user hid (users db) = Some hu
                  ∧ User.licenseNumber du = User.licenseNumber hu))
  ∧ (∀ q now db eid e,
       (∀ ru i, q ≠ AcceptCase ru i) →
       emergencies db !! eid = Some e →
       ∃ e',
         emergencies (serve q now db) !! eid = Some e'
         ∧ Emergency.assignedHospitalId e' = Emergency.assignedHospitalId e
         ∧ Emergency.assignedDriverId e' = Emergency.assignedDriverId e).
Proof.
  split; [|split].
  - intros uid la lo addr symptoms ai freshId now db e Hnd.
    destruct (sos_POST_dispatch uid
                (Some {| lat := Some la; lng := Some lo; loc_address := addr |})
                la lo symptoms ai freshId now db eq_refl) as (r & -> & _).
    simpl. rewrite lookup_insert_eq. intros [= <-].
    destruct (dispatch_of la lo (users db)) as [|fh|h|h l|h l a] eqn:Hd;
      try (intros d; simpl; discriminate).
    apply dispatch_DriverFound in Hd as (Hh & Ha & Hlh & Hla).
    intros d. simpl. intros [= <-].
    exists (User.id (h_user h)), (a_user a), (h_user h).
    rewrite !find_user_unique by done. by rewrite Hlh, Hla.
  - intros hid eid now db e Hne Hl. unfold serve, hospital_accept_POST.
    rewrite (truthy_string_Some _ Hne), (emergency_update_found _ _ _ _ Hl). simpl.
    rewrite lookup_insert_eq. eexists. split; [done|]. simpl.
    split; [done|]. split; [done|]. unfold assignment_consistent. simpl. split.
    + intros Hc d Hd. destruct (Hc d Hd) as (h & du & hu & [= <-] & ? & ? & ?). eauto.
    + intros Hc d Hd. destruct (Hc d Hd) as (du & hu & ? & ? & ?).
      exists hid, du, hu. done.
  - intros q now db eid e Hq Hl.
    destruct (serve_effect q now db) as [-> | (i & e0 & d & Hl0 & -> & Hd & _)]; [eauto|].
    destruct (Hd Hq) as [Hdh Hdd]. simpl. rewrite lookup_insert.
    destruct (decide (i = eid)) as [->|]; [|eauto].
    rewrite Hl in Hl0. injection Hl0 as <-.
    eexists. split; [done|]. simpl. by rewrite Hdh, Hdd.
Qed.

(** ** The hospital feed *)

Lemma feed_where_visible (hid : string) (now : Z) (db : Db) (e : Emergency.t) :
  feed_where hid None now db e = true ↔ feed_visible hid now db e.
Proof.
  unfold feed_where, feed_visible. cbv zeta. simpl truthy_string. cbv iota.
  rewrite !andb_true_iff, orb_true_iff, andb_true_iff, negb_true_iff.
  rewrite bool_decide_eq_true, bool_decide_eq_false, bool_decide_eq_true.
  rewrite existsb_exists, Z.leb_le.
  assert ((∃ x, In x (documents_of (Emergency.id e) db) ∧ unexpired now x = true)
          ↔ ∃ d, d ∈ documents_of (Emergency.id e) db ∧ now < MedicalDocument.expiresAt d)
    as ->; [|tauto].
  split; intros (d & Hd & Hx); exists d;
    (split; [by apply list_elem_of_In | by apply Z.ltb_lt]).
Qed.

Lemma elem_of_feed_matches (hid : string) (status : option string) (now : Z) (db : Db)
    (e : Emergency.t) :
  e ∈ feed_matches hid status now db
  ↔ (∃ k, emergencies db !! k = Some e) ∧ feed_where hid status now db e = true.
Proof.
  unfold feed_matches. rewrite elem_of_sort_by, list_elem_of_filter.
  rewrite list_elem_of_fmap. split.
  - intros [Hw ([k e'] & -> & Hk)]. apply elem_of_map_to_list in Hk. eauto.
  - intros [[k Hk] Hw]. split; [done|]. exists (k, e). split; [done|].
    by apply elem_of_map_to_list.
Qed.

Lemma dedupe_sound (seen : gset string) (l : list Emergency.t) (e : Emergency.t) :
  e ∈ dedupe seen l →
  ∃ i, first_of_patient l i e ∧ Emergency.patientId e ∉ seen.
Proof.
  revert seen. induction l as [|x l IH]; intros seen; simpl; [by intros ?%elem_of_nil|].
  assert (∀ seen',
            e ∈ dedupe seen' l →
            (Emergency.patientId e ∉ seen' →
             Emergency.patientId x ≠ Emergency.patientId e
             ∧ Emergency.patientId e ∉ seen) →
            ∃ i, first_of_patient (x :: l) i e ∧ Emergency.patientId e ∉ seen) as Htail.
  { intros seen' He Hseen'. apply IH in He as (i & (Hi & Hne & Hfirst) & Hns).
    destruct (Hseen' Hns) as [Hxe Hnseen].
    exists (S i). split; [|done]. split; [done|]. split; [done|].
    intros [|j] e' Hj He'; simpl in He'; [by injection He' as <-|].
    apply (Hfirst j); [lia | done]. }
  destruct (String.eqb_spec (Emergency.patientId x) "") as [Hempty|Hfull].
  { intros He. apply (Htail seen He). intros Hns. split; [|done].
    apply IH in He as (i & (_ & Hne & _) & _). congruence. }
  case_bool_decide as Hin.
  { intros He. apply (Htail seen He). intros Hns. split; [|done].
    intros Heq. by rewrite Heq in Hin. }
  intros [->|He]%elem_of_cons.
  - exists 0%nat. split; [|done]. split; [done|]. split; [done|]. intros j e' Hj. lia.
  - apply (Htail _ He). intros Hns. split.
    + intros Heq. apply Hns, elem_of_union_l, elem_of_singleton. by symmetry.
    + intros Hs. by apply Hns, elem_of_union_r.
Qed.

Lemma dedupe_complete (seen : gset string) (l : list Emergency.t) (i : nat)
    (e : Emergency.t) :
  first_of_patient l i e → Emergency.patientId e ∉ seen → e ∈ dedupe seen l.
Proof.
  revert seen i. induction l as [|x l IH]; intros seen i (Hi & Hne & Hfirst) Hns;
    [by rewrite lookup_nil in Hi|].
  simpl. destruct i as [|i].
  - simpl in Hi. injection Hi as ->.
    destruct (String.eqb_spec (Emergency.patientId e) ""); [done|].
    rewrite bool_decide_eq_false_2 by done. left.
  - assert (Emergency.patientId x ≠ Emergency.patientId e) as Hxe
      by (apply (Hfirst 0%nat); [lia | done]).
    assert (first_of_patient l i e) as Hrest.
    { split; [done|]. split; [done|]. intros j e' Hj He'.
      apply (Hfirst (S j)); [lia | done]. }
    destruct (String.eqb _ ""); [by apply (IH _ i)|].
    destruct (bool_decide _); [by apply (IH _ i)|].
    right. apply (IH _ i); [done|].
    intros [Hs|Hs]%elem_of_union; [apply elem_of_singleton in Hs; congruence | done].
Qed.

(** C4 (amended).  Without a status filter the feed query excludes completed
    emergencies: its matches are the emergencies assigned to the hospital
    that are not completed and have an unexpired document, or have no
    document and were triggered within the last 60 minutes.  The feed holds
    exactly the matches that lie on the requested page (newest first, offset
    and limit) and are the first row of their patient on that page; so every
    listed emergency meets the rule, and a match can still be dropped by the
    page or by the per-patient filter.  The handler answers with this feed
    whenever its cache has no fresh entry and storage answers. *)
Theorem feed_lists_visible_uncompleted_cases :
  (∀ hid now db e,
     e ∈ feed_matches hid None now db
     ↔ (∃ k, emergencies db !! k = Some e) ∧ feed_visible hid now db e)
  ∧ (∀ hid status limit offset now db item,
       item ∈ fp_emergencies (feed_read hid status limit offset now db)
       ↔ ∃ e i,
           item = feed_item now db e
           ∧ first_of_patient
               (take limit (drop offset (feed_matches hid status now db))) i e)
  ∧ (∀ hid limit offset now db item,
       item ∈ fp_emergencies (feed_read hid None limit offset now db) →
       (∃ k, emergencies db !! k = Some (f_emergency item))
       ∧ feed_visible hid now db (f_emergency item))
  ∧ (∀ hid limit offset now cache db,
       cached_when (fun c => now <? ce_expiresAt c)
         (cache !! feed_cacheKey hid None (default 20%nat limit) (default 0%nat offset))
       = None →
       (hospital_feed_GET (Some {| ru_id := hid; ru_role := hospital |}) None limit offset
          now true cache db).1
       = respond 200
           (FeedOk (feed_read hid None (default 20%nat limit) (default 0%nat offset) now db)
              false)).
Proof.
  assert (∀ hid now db e,
            e ∈ feed_matches hid None now db
            ↔ (∃ k, emergencies db !! k = Some e) ∧ feed_visible hid now db e) as Hmatch.
  { intros. by rewrite elem_of_feed_matches, feed_where_visible. }
  assert (∀ hid status limit offset now db item,
            item ∈ fp_emergencies (feed_read hid status limit offset now db)
            ↔ ∃ e i,
                item = feed_item now db e
                ∧ first_of_patient
                    (take limit (drop offset (feed_matches hid status now db))) i e)
    as Hfeed.
  { intros hid status limit offset now db item. simpl. rewrite list_elem_of_fmap. split.
    - intros (e & -> & He). apply dedupe_sound in He as (i & Hfirst & _). eauto.
    - intros (e & i & -> & Hfirst). exists e. split; [done|].
      by apply (dedupe_complete _ _ i). }
  split; [done|]. split; [done|]. split.
  - intros hid limit offset now db item Hitem.
    apply Hfeed in Hitem as (e & i & -> & He & _). simpl.
    apply Hmatch. apply lookup_take_Some in He as [He _].
    rewrite lookup_drop in He. by apply list_elem_of_lookup_2 in He.
  - intros hid limit offset now cache db Hc. unfold hospital_feed_GET. cbv zeta.
    by rewrite Hc.
Qed.

(** ** The write throttle of the driver location route *)

Lemma Math_round_nonpos (y : Q) : Math_round y ≤ 0 ↔ (y < 1 # 2)%Q.
Proof.
  unfold Math_round. set (z := (y + (1 # 2))%Q). split.
  - intros Hle. pose proof (Qlt_floor z) as Hlt.
    assert (inject_Z (Qfloor z + 1) <= inject_Z 1)%Q as Hone
      by (rewrite <- Zle_Qle; lia).
    change (inject_Z 1) with 1%Q in Hone. unfold z in *. lra.
  - intros Hy. pose proof (Qfloor_le z) as Hfl.
    assert (inject_Z (Qfloor z) < inject_Z 1)%Q as Hone.
    { change (inject_Z 1) with 1%Q. unfold z in *. lra. }
    rewrite <- Zlt_Qlt in Hone. lia.
Qed.

Lemma tenths_below_threshold (k : Z) :
  Qltb (inject_Z k / 10) (2 # 100) = true ↔ k ≤ 0.
Proof.
  unfold Qltb. rewrite negb_true_iff.
  destruct (Qle_bool (2 # 100) (inject_Z k / 10)) eqn:Hb.
  - apply Qle_bool_iff in Hb. unfold Qle in Hb. simpl in Hb. split; [done | lia].
  - split; [|done]. intros _.
    destruct (Z_le_gt_dec k 0) as [|Hgt]; [done|]. exfalso.
    assert (Qle_bool (2 # 100) (inject_Z k / 10) = true) as Hb'; [|congruence].
    apply Qle_bool_iff. unfold Qle. simpl. lia.
Qed.

(** With a previous position on file the movement test passes exactly when
    the unrounded distance is under 50 metres: the rounded distance is a
    whole number of tenths of a kilometre, and only 0 is below 0.02. *)
Lemma movedLittle_iff `{GeoOracle} (e : Emergency.t) (latitude longitude prevLat prevLng : Q) :
  Emergency.driverLat e = Some prevLat →
  Emergency.driverLng e = Some prevLng →
  movedLittle e latitude longitude = true
  ↔ (haversineKm latitude longitude prevLat prevLng < 5 # 100)%Q.
Proof.
  intros Hlat Hlng. unfold movedLittle, movedKm, calculateDistance.
  rewrite Hlat, Hlng, tenths_below_threshold, Math_round_nonpos.
  split; intros; lra.
Qed.

Lemma tooSoon_iff (e : Emergency.t) (now : Z) :
  tooSoon e now = true
  ↔ ∃ lastAt,
      Emergency.driverLastLocationUpdate e = Some lastAt
      ∧ lastAt ≠ 0 ∧ now - lastAt < 4000.
Proof.
  unfold tooSoon. cbv zeta.
  rewrite andb_true_iff, negb_true_iff, Z.eqb_neq, Z.ltb_lt.
  destruct (Emergency.driverLastLocationUpdate e) as [t|]; simpl.
  - split; [intros []; eauto | intros (? & [= <-] & ? & ?); done].
  - split; [intros []; done | intros (? & ? & _); done].
Qed.

(** C7 (what the code does).  For a report on an emergency assigned to the
    driver, with a previous position on file, the write is skipped exactly
    when the last write is less than 4 seconds old, the unrounded distance
    from the previous position is under 50 metres (not 20: the comparison
    with 0.02 km is made on the distance rounded to 0.1 km), and the stored
    status is the derived one.  Skipped or written, the response carries the
    distance and ETA computed from the new position. *)
Theorem throttle_skips_below_fifty_metres `{GeoOracle} (db : Db) (eid uid : string)
    (e : Emergency.t) (latitude longitude prevLat prevLng : Q) (now : Z) :
  emergencies db !! eid = Some e →
  eid ≠ "" →
  Emergency.assignedDriverId e = Some uid →
  isValidCoordinate latitude longitude = true →
  Emergency.driverLat e = Some prevLat →
  Emergency.driverLng e = Some prevLng →
  (skips_write e latitude longitude now = true
   ↔ (∃ lastAt,
        Emergency.driverLastLocationUpdate e = Some lastAt
        ∧ lastAt ≠ 0 ∧ now - lastAt < 4000)
     ∧ (haversineKm latitude longitude prevLat prevLng < 5 # 100)%Q
     ∧ Emergency.status e
       = nextStatus_of
           (calculateDistance latitude longitude
              (Emergency.patientLat e) (Emergency.patientLng e)))
  ∧ ∃ tracking,
      t_distance tracking
      = calculateDistance latitude longitude (Emergency.patientLat e) (Emergency.patientLng e)
      ∧ t_eta tracking = calculateETA (t_distance tracking)
      ∧ (skips_write e latitude longitude now = true →
         driver_location_POST (Some {| ru_id := uid; ru_role := driver |}) (Some eid)
           (Some latitude) (Some longitude) now db
         = (respond 200 (DriverPostSkipped tracking), db))
      ∧ (skips_write e latitude longitude now = false →
         ∃ notification,
           driver_location_POST (Some {| ru_id := uid; ru_role := driver |}) (Some eid)
             (Some latitude) (Some longitude) now db
           = (respond 200 (DriverPostWritten tracking notification),
              with_emergencies
                (<[eid :=
                     Emergency.write
                       (driver_location_data latitude longitude now (t_distance tracking)
                          (t_eta tracking) (nextStatus_of (t_distance tracking))) e]>
                   (emergencies db)) db)).
Proof.
  intros Hl Hne Hd Hv Hlat Hlng. split.
  - unfold skips_write. cbv zeta.
    rewrite !andb_true_iff, tooSoon_iff, (movedLittle_iff _ _ _ _ _ Hlat Hlng).
    unfold statusSame. rewrite bool_decide_eq_true. tauto.
  - set (distance :=
           calculateDistance latitude longitude
             (Emergency.patientLat e) (Emergency.patientLng e)).
    exists {| t_distance := distance; t_eta := calculateETA distance;
              t_nearingPatient := Qltb distance 1;
              t_patientAddress := Emergency.address e |}.
    split; [reflexivity|]. split; [reflexivity|]. subst distance.
    unfold driver_location_POST, skips_write.
    rewrite (truthy_string_Some _ Hne), Hv. simpl negb. cbv iota beta.
    rewrite (find_emergency_found _ _ _ _ Hl) by (by rewrite bool_decide_eq_true).
    cbv zeta. unfold nextStatus_of. split.
    + intros ->. reflexivity.
    + intros ->. rewrite (update_then_found _ _ _ _ _ _ Hl). eexists. reflexivity.
Qed.

(** ** The tracking read cache *)

Lemma tracking_GET_fresh_hit (ru : RequestUser) (eid : string) (now : Z) (storage_ok : bool)
    (cache : gmap string (CacheEntry TrackingPayload)) (db : Db)
    (c : CacheEntry TrackingPayload) :
  eid ≠ "" →
  cache !! tracking_cacheKey ru eid = Some c →
  now < ce_expiresAt c →
  tracking_GET (Some ru) (Some eid) now storage_ok cache db
  = (respond 200 (TrackingOk (ce_payload c) false), cache).
Proof.
  intros Hne Hc Hfresh. unfold tracking_GET.
  rewrite (truthy_string_Some _ Hne). cbv zeta. rewrite Hc. simpl.
  by rewrite (proj2 (Z.ltb_lt _ _) Hfresh).
Qed.

Lemma tracking_GET_fills_cache (ru : RequestUser) (eid : string) (now : Z)
    (cache : gmap string (CacheEntry TrackingPayload)) (db : Db) (e : Emergency.t) :
  eid ≠ "" →
  cached_when (fun c => now <? ce_expiresAt c) (cache !! tracking_cacheKey ru eid) = None →
  emergencies db !! eid = Some e →
  hasAccess ru e = true →
  tracking_GET (Some ru) (Some eid) now true cache db
  = (respond 200 (TrackingOk (tracking_payload db e) false),
     <[tracking_cacheKey ru eid :=
         {| ce_createdAt := now; ce_expiresAt := now + 2000;
            ce_payload := tracking_payload db e |}]> cache).
Proof.
  intros Hne Hmiss Hl Hacc. unfold tracking_GET.
  rewrite (truthy_string_Some _ Hne). cbv zeta. by rewrite Hmiss, Hl, Hacc.
Qed.

(** C10.  While a cache entry for (role, requester, emergency) is fresh the
    handler answers with its payload whatever the database holds and whether
    or not storage answers: the emergency is not read and the access
    predicate is not evaluated.  When storage fails, an entry younger than 30
    seconds is served marked stale.  A successful read stores its payload
    for 2 seconds, so for 2 seconds the same requester gets that payload from
    any later database, including one in which the requester no longer has
    access. *)
Theorem tracking_cache_serves_without_rechecking :
  (∀ ru eid now storage_ok cache db c,
     eid ≠ "" →
     cache !! tracking_cacheKey ru eid = Some c →
     now < ce_expiresAt c →
     tracking_GET (Some ru) (Some eid) now storage_ok cache db
     = (respond 200 (TrackingOk (ce_payload c) false), cache))
  ∧ (∀ ru eid now cache db c,
       eid ≠ "" →
       cache !! tracking_cacheKey ru eid = Some c →
       ce_expiresAt c ≤ now →
       now - ce_createdAt c < 30000 →
       tracking_GET (Some ru) (Some eid) now false cache db
       = (respond 200 (TrackingOk (ce_payload c) true), cache))
  ∧ (∀ ru eid now0 cache0 db0 e now1 storage_ok db1,
       eid ≠ "" →
       cached_when (fun c => now0 <? ce_expiresAt c) (cache0 !! tracking_cacheKey ru eid)
       = None →
       emergencies db0 !! eid = Some e →
       hasAccess ru e = true →
       now1 < now0 + 2000 →
       ∃ cache1,
         tracking_GET (Some ru) (Some eid) now0 true cache0 db0
         = (respond 200 (TrackingOk (tracking_payload db0 e) false), cache1)
         ∧ tracking_GET (Some ru) (Some eid) now1 storage_ok cache1 db1
           = (respond 200 (TrackingOk (tracking_payload db0 e) false), cache1)).
Proof.
  split; [|split].
  - intros. by apply tracking_GET_fresh_hit.
  - intros ru eid now cache db c Hne Hc Hold Hyoung. unfold tracking_GET.
    rewrite (truthy_string_Some _ Hne). cbv zeta. rewrite Hc. simpl.
    rewrite (proj2 (Z.ltb_ge _ _) Hold). by rewrite (proj2 (Z.ltb_lt _ _) Hyoung).
  - intros ru eid now0 cache0 db0 e now1 storage_ok db1 Hne Hmiss Hl Hacc Hsoon.
    eexists. split; [by apply tracking_GET_fills_cache|].
    by apply (tracking_GET_fresh_hit _ _ _ _ _ _
                {| ce_createdAt := now0; ce_expiresAt := now0 + 2000;
                   ce_payload := tracking_payload db0 e |});
      [ | apply lookup_insert_eq | ].
Qed.

(** ** Document tokens and document expiry *)

(** The clock enters [verifyDocumentToken] only in its last test: a token
    accepted at one time is, at any other time, rejected or accepted with the
    same payload according to [exp] alone. *)
Lemma verifyDocumentToken_clock `{TokenCrypto} (secret : option string) (now0 now : Z)
    (token : string) (p : DocumentTokenPayload) :
  verifyDocumentToken secret now0 token = Some p →
  verifyDocumentToken secret now token
  = (if exp p <? now / 1000 then None else Some p)
  ∧ now0 / 1000 ≤ exp p.
Proof.
  unfold verifyDocumentToken. destruct secret as [secret|]; [|done].
  cbv zeta.
  destruct (truthy_string (split_on "." token !! 0%nat)) as [payloadB64|]; [|done].
  destruct (truthy_string (split_on "." token !! 1%nat)) as [sigB64|]; [|done].
  destruct (negb _); [done|]. destruct (negb _); [done|].
  destruct (JSON_parse _) as [payload|]; [|done].
  destruct (_ || _); [done|].
  destruct (exp payload <? now0 / 1000) eqn:Hexp; [done|].
  intros [= <-]. split; [done|]. by apply Z.ltb_ge.
Qed.

Lemma verifyDocumentToken_empty `{TokenCrypto} (secret : option string) (now : Z) :
  verifyDocumentToken secret now "" = None.
Proof. by destruct secret. Qed.

Lemma verified_token_nonempty `{TokenCrypto} (secret : option string) (now : Z)
    (token : string) (p : DocumentTokenPayload) :
  verifyDocumentToken secret now token = Some p → truthy_string (Some token) = Some token.
Proof.
  intros Hv. apply truthy_string_Some. intros ->.
  by rewrite verifyDocumentToken_empty in Hv.
Qed.

(** C8.  A token that verifies at some time is answered 401 at every time
    whose whole second is past its [exp], before the document is looked up,
    so whatever the document's [expiresAt] (the database is left as it is).
    Under a token that verifies now, a document whose [expiresAt] is not
    after now is answered 410 and removed from the table and the blob store;
    a later request with the same token, still valid, finds no document
    (404).  Content (200 or the 302 to the blob) is only ever served when the
    token verifies now and the document expires after now. *)
Theorem document_view_enforces_both_expiries `{TokenCrypto} :
  (∀ secret token now0 now p upstream_ok signed_https db,
     verifyDocumentToken secret now0 token = Some p →
     exp p < now / 1000 →
     documents_view_GET secret (Some token) upstream_ok signed_https now db
     = (respond 401 (ViewError "Invalid or expired token"), db))
  ∧ (∀ secret token now p doc upstream_ok signed_https db,
       verifyDocumentToken secret now token = Some p →
       documents db !! documentId p = Some doc →
       MedicalDocument.id doc = documentId p →
       MedicalDocument.expiresAt doc ≤ now →
       ∃ db',
         documents_view_GET secret (Some token) upstream_ok signed_https now db
         = (respond 410 (ViewError "Document expired"), db')
         ∧ documents db' !! documentId p = None
         ∧ (MedicalDocument.cloudinaryId doc ∉ blobs db')
         ∧ ∀ now' upstream_ok' signed_https',
             now' / 1000 ≤ exp p →
             documents_view_GET secret (Some token) upstream_ok' signed_https' now' db'
             = (respond 404 (ViewError "Document not found"), db'))
  ∧ (∀ secret token upstream_ok signed_https now db,
       serves_content
         (documents_view_GET secret token upstream_ok signed_https now db).1 = true →
       ∃ tk p doc,
         token = Some tk
         ∧ verifyDocumentToken secret now tk = Some p
         ∧ now / 1000 ≤ exp p
         ∧ documents db !! documentId p = Some doc
         ∧ now < MedicalDocument.expiresAt doc
         ∧ (documents_view_GET secret token upstream_ok signed_https now db).2 = db).
Proof.
  split; [|split].
  - intros secret token now0 now p up sg db Hv Hexp. unfold documents_view_GET.
    rewrite (verified_token_nonempty _ _ _ _ Hv).
    destruct (verifyDocumentToken_clock secret now0 now token p Hv) as [-> _].
    by rewrite (proj2 (Z.ltb_lt _ _) Hexp).
  - intros secret token now p doc up sg db Hv Hdoc Hid Hexp.
    exists (delete_document doc db). unfold documents_view_GET.
    rewrite (verified_token_nonempty _ _ _ _ Hv), Hv, Hdoc.
    rewrite (proj2 (Z.leb_le _ _) Hexp).
    assert (documents (delete_document doc db) !! documentId p = None) as Hgone.
    { simpl. rewrite Hid. apply lookup_delete_eq. }
    split; [done|]. split; [done|]. split.
    + simpl. rewrite elem_of_difference, elem_of_singleton. tauto.
    + intros now' up' sg' Hvalid.
      destruct (verifyDocumentToken_clock secret now now' token p Hv) as [-> _].
      rewrite (proj2 (Z.ltb_ge _ _) Hvalid). by rewrite Hgone.
  - intros secret token up sg now db. unfold documents_view_GET.
    destruct token as [tk|]; [|done]. simpl truthy_string.
    destruct (String.eqb tk ""); [done|].
    destruct (verifyDocumentToken secret now tk) as [p|] eqn:Hv; [|done].
    destruct (verifyDocumentToken_clock secret now now tk p Hv) as [_ Hexp].
    destruct (documents db !! documentId p) as [doc|] eqn:Hdoc; [|done].
    destruct (MedicalDocument.expiresAt doc <=? now) eqn:Hlive; [done|].
    apply Z.leb_gt in Hlive.
    destruct (emergencies db !! _) as [e|]; [|done].
    destruct (negb _); [done|].
    destruct up; [|destruct sg; [|done]]; intros _; exists tk, p, doc; done.
Qed.

(** * More of the code *)

(** ** Order on rationals and strings *)

Lemma Qltb_true (a b : Q) : Qltb a b = true ↔ (a < b)%Q.
Proof.
  unfold Qltb. rewrite negb_true_iff. split.
  - intros Hb. apply Qnot_le_lt. intros Hle. apply Qle_bool_iff in Hle. congruence.
  - intros Hlt. destruct (Qle_bool b a) eqn:Hb; [|done].
    apply Qle_bool_iff in Hb. by apply Qlt_not_le in Hlt.
Qed.

Lemma Qltb_false (a b : Q) : Qltb a b = false ↔ (b <= a)%Q.
Proof.
  unfold Qltb. rewrite negb_false_iff. apply Qle_bool_iff.
Qed.

(** ** Sorting gives an ordered list *)

Lemma insert_by_sorted {A} (before : A → A → bool) (x : A) (l : list A) :
  (∀ a b c, before b a = false → before c b = false → before c a = false) →
  (∀ a b, before a b = true → before b a = false) →
  StronglySorted (fun a b => before b a = false) l →
  StronglySorted (fun a b => before b a = false) (insert_by before x l).
Proof.
  intros Htrans Hasym. induction 1 as [|y l Hs IH Hy]; simpl.
  - repeat constructor.
  - destruct (before y x) eqn:Hyx.
    + constructor; [done|].
      rewrite Forall_forall. intros z Hz.
      rewrite insert_by_Permutation in Hz.
      apply elem_of_cons in Hz as [->|Hz]; [by apply Hasym|].
      rewrite Forall_forall in Hy. by apply Hy.
    + constructor; [by constructor|].
      constructor; [done|].
      rewrite Forall_forall in Hy |- *. intros z Hz.
      apply (Htrans _ y); [done | by apply Hy].
Qed.

Lemma sort_by_sorted {A} (before : A → A → bool) (l : list A) :
  (∀ a b c, before b a = false → before c b = false → before c a = false) →
  (∀ a b, before a b = true → before b a = false) →
  StronglySorted (fun a b => before b a = false) (sort_by before l).
Proof.
  intros Htrans Hasym. induction l as [|x l IH]; simpl; [constructor|].
  by apply insert_by_sorted.
Qed.

Lemma StronglySorted_ordered_by {A} (le : A → A → Prop) (l : list A) :
  StronglySorted le l → ordered_by le l.
Proof.
  induction 1 as [|x l Hs IH Hx]; intros i j a b Hij Hi Hj; [by rewrite lookup_nil in Hi|].
  destruct j as [|j]; [lia|]. simpl in Hj. destruct i as [|i].
  - simpl in Hi. injection Hi as <-. rewrite Forall_forall in Hx.
    by apply Hx, (list_elem_of_lookup_2 _ j).
  - simpl in Hi. apply (IH i j); [lia | done | done].
Qed.

Lemma ordered_by_take {A} (le : A → A → Prop) (n : nat) (l : list A) :
  ordered_by le l → ordered_by le (take n l).
Proof.
  intros Ho i j a b Hij Hi Hj.
  apply lookup_take_Some in Hi as [Hi _]. apply lookup_take_Some in Hj as [Hj _].
  by apply (Ho i j).
Qed.

Lemma string_compare_lt_trans (s1 s2 s3 : string) :
  String.compare s1 s2 = Lt → String.compare s2 s3 = Lt → String.compare s1 s3 = Lt.
Proof.
  revert s2 s3. induction s1 as [|a s1 IH]; intros [|b s2] [|c s3]; simpl; try done.
  unfold Ascii.compare.
  destruct (N.compare_spec (N_of_ascii a) (N_of_ascii b)) as [Hab|Hab|Hab];
    destruct (N.compare_spec (N_of_ascii b) (N_of_ascii c)) as [Hbc|Hbc|Hbc];
    destruct (N.compare_spec (N_of_ascii a) (N_of_ascii c)) as [Hac|Hac|Hac];
    try done; try lia.
  apply IH.
Qed.

Lemma string_ltb_asym (s1 s2 : string) :
  String.ltb s1 s2 = true → String.ltb s2 s1 = false.
Proof.
  unfold String.ltb. rewrite (String.compare_antisym s2 s1).
  by destruct (String.compare s1 s2).
Qed.

(** If neither [b] sorts before [a] nor [c] before [b], then [c] does not
    sort before [a]. *)
Lemma string_ltb_chain (a b c : string) :
  String.ltb b a = false → String.ltb c b = false → String.ltb c a = false.
Proof.
  unfold String.ltb. intros Hba Hcb.
  destruct (String.compare c a) eqn:Hca; try done. exfalso.
  destruct (String.compare c b) eqn:Hcb'; try done.
  - apply String.compare_eq_iff in Hcb' as ->. by rewrite Hca in Hba.
  - assert (String.compare b c = Lt) as Hbc
      by (rewrite String.compare_antisym, Hcb'; done).
    by rewrite (string_compare_lt_trans b c a Hbc Hca) in Hba.
Qed.

(** ** Ranking of hospitals and ambulances *)

Lemma rank_hospital_spec `{GeoOracle} (la lo : Q) (u : User.t) (h : RankedHospital) :
  rank_hospital la lo u = Some h
  ↔ active_hospital u
    ∧ ∃ a b, user_location u = Some (a, b)
             ∧ h = {| h_user := u; h_distance := calculateDistance la lo a b |}.
Proof.
  unfold rank_hospital, user_location.
  destruct (bool_decide (User.role u = hospital) && User.isActive u) eqn:Ha.
  - apply active_hospital_test in Ha.
    destruct (User.locationLat u) as [a|], (User.locationLng u) as [b|]; split;
      try done; try (by intros (_ & ? & ? & ? & _)).
    + intros [= <-]. eauto.
    + intros (_ & a' & b' & [= <- <-] & ->). done.
  - split; [done|]. intros [Hact _]. apply active_hospital_test in Hact. congruence.
Qed.

Lemma hospitals_sorted (l : list RankedHospital) :
  StronglySorted (fun a b => Qltb (h_distance b) (h_distance a) = false)
    (sort_by (fun a b => Qltb (h_distance a) (h_distance b)) l).
Proof.
  apply (sort_by_sorted (fun a b => Qltb (h_distance a) (h_distance b))).
  - intros a b c. rewrite !Qltb_false. intros. by apply (Qle_trans _ (h_distance b)).
  - intros a b. rewrite Qltb_true, Qltb_false. apply Qlt_le_weak.
Qed.

Lemma hospitals_ordered (l : list RankedHospital) :
  ordered_by (fun a b => (h_distance a <= h_distance b)%Q)
    (sort_by (fun a b => Qltb (h_distance a) (h_distance b)) l).
Proof.
  intros i j a b Hij Hi Hj. apply Qltb_false.
  by apply (StronglySorted_ordered_by _ _ (hospitals_sorted l) i j).
Qed.

(** The first of a sorted list is below every entry of the list. *)
Lemma sorted_head_least {A} (R : A → A → Prop) (x : A) (l : list A) (y : A) :
  StronglySorted R (x :: l) → y ∈ x :: l → y = x ∨ R x y.
Proof.
  intros Hs Hy. apply StronglySorted_inv in Hs as [_ Hx].
  apply elem_of_cons in Hy as [->|Hy]; [by left|].
  right. rewrite Forall_forall in Hx. by apply Hx.
Qed.

(** X2.  [findNearestHospitals] returns at most [limit] entries, each an
    active hospital of the table with both coordinates and its rounded
    distance from the given point; the entries are in non-decreasing order
    of distance; and the first entry is at least as close as every active
    hospital with coordinates, listed or not. *)
Theorem findNearestHospitals_ranks_by_distance `{GeoOracle} (la lo : Q) (limit : nat)
    (us : list User.t) :
  (length (findNearestHospitals la lo limit us) ≤ limit)%nat
  ∧ (∀ h, h ∈ findNearestHospitals la lo limit us →
       h_user h ∈ us ∧ active_hospital (h_user h)
       ∧ ∃ a b, user_location (h_user h) = Some (a, b)
                ∧ h_distance h = calculateDistance la lo a b)
  ∧ ordered_by (fun a b => (h_distance a <= h_distance b)%Q)
      (findNearestHospitals la lo limit us)
  ∧ (∀ h rest u a b,
       findNearestHospitals la lo limit us = h :: rest →
       u ∈ us → active_hospital u → user_location u = Some (a, b) →
       (h_distance h <= calculateDistance la lo a b)%Q).
Proof.
  unfold findNearestHospitals.
  set (ranked := omap (rank_hospital la lo) us).
  set (sorted := sort_by (fun a b => Qltb (h_distance a) (h_distance b)) ranked).
  split; [rewrite length_take; lia|]. split; [|split].
  - intros h Hh. apply elem_of_take in Hh as (i & Hh & _).
    apply list_elem_of_lookup_2, elem_of_sort_by, list_elem_of_omap in Hh
      as (u & Hu & Hr).
    apply rank_hospital_spec in Hr as (Hact & a & b & Hloc & ->). simpl. eauto 6.
  - apply ordered_by_take, hospitals_ordered.
  - intros h rest u a b Hhead Hu Hact Hloc.
    assert ({| h_user := u; h_distance := calculateDistance la lo a b |} ∈ sorted) as Hin.
    { apply elem_of_sort_by, list_elem_of_omap. exists u. split; [done|].
      apply rank_hospital_spec. eauto. }
    pose proof (hospitals_sorted ranked) as Hs. fold sorted in Hs.
    destruct sorted as [|h0 sorted']; [by destruct limit|].
    destruct limit as [|limit]; [done|]. simpl in Hhead. injection Hhead as -> _.
    destruct (sorted_head_least _ _ _ _ Hs Hin) as [Heq|Hle].
    + rewrite <- Heq. simpl. apply Qle_refl.
    + by apply Qltb_false in Hle.
Qed.

Lemma driver_before_chain (a b c : RankedDriver) :
  driver_before b a = false → driver_before c b = false → driver_before c a = false.
Proof.
  unfold driver_before.
  destruct (a_distance a) as [x|], (a_distance b) as [y|], (a_distance c) as [z|];
    try done.
  rewrite !orb_false_iff, !andb_false_iff, !Qltb_false.
  intros [Hxy Hba] [Hyz Hcb]. split; [by apply (Qle_trans _ y)|].
  destruct (Qeq_bool z x) eqn:Hzx; [|by left]. right.
  apply Qeq_bool_iff in Hzx.
  assert (y == x)%Q as Hyx by (apply Qle_antisym; [rewrite <- Hzx|]; done).
  assert (z == y)%Q as Hzy by (by rewrite Hzx, Hyx).
  apply (string_ltb_chain _ (User.id (a_user b))).
  - destruct Hba as [Hba|]; [|done]. apply Qeq_bool_iff in Hyx. congruence.
  - destruct Hcb as [Hcb|]; [|done]. apply Qeq_bool_iff in Hzy. congruence.
Qed.

Lemma driver_before_asym (a b : RankedDriver) :
  driver_before a b = true → driver_before b a = false.
Proof.
  unfold driver_before.
  destruct (a_distance a) as [x|], (a_distance b) as [y|]; try done.
  rewrite orb_true_iff, andb_true_iff, orb_false_iff, andb_false_iff.
  rewrite Qltb_true, Qltb_false.
  intros [Hlt|[Heq Hid]].
  - split; [by apply Qlt_le_weak|]. left.
    destruct (Qeq_bool y x) eqn:Hyx; [|done].
    apply Qeq_bool_iff in Hyx. rewrite Hyx in Hlt. by apply Qlt_irrefl in Hlt.
  - apply Qeq_bool_iff in Heq. split; [by rewrite Heq; apply Qle_refl|].
    right. by apply string_ltb_asym.
Qed.


(** X4.  [getHospitalsInRadius] returns at most 10 entries, each an active
    hospital of the table with coordinates whose rounded distance is within
    the radius, in non-decreasing order of distance.  When the table has at
    most 200 located active hospitals and at most 10 of them are within the
    radius, every one of those is returned. *)
Theorem getHospitalsInRadius_within_radius `{GeoOracle} (la lo radiusKm : Q)
    (us : list User.t) :
  (length (getHospitalsInRadius la lo radiusKm us) ≤ 10)%nat
  ∧ (∀ h, h ∈ getHospitalsInRadius la lo radiusKm us →
       (h_distance h <= radiusKm)%Q
       ∧ h_user h ∈ us ∧ active_hospital (h_user h)
       ∧ ∃ a b, user_location (h_user h) = Some (a, b)
                ∧ h_distance h = calculateDistance la lo a b)
  ∧ ordered_by (fun a b => (h_distance a <= h_distance b)%Q)
      (getHospitalsInRadius la lo radiusKm us)
  ∧ (∀ u a b,
       (length (omap (rank_hospital la lo) us) ≤ 200)%nat →
       (length (filter (fun h => Qle_bool (h_distance h) radiusKm = true)
                  (omap (rank_hospital la lo) us)) ≤ 10)%nat →
       u ∈ us → active_hospital u → user_location u = Some (a, b) →
       (calculateDistance la lo a b <= radiusKm)%Q →
       {| h_user := u; h_distance := calculateDistance la lo a b |}
       ∈ getHospitalsInRadius la lo radiusKm us).
Proof.
  unfold getHospitalsInRadius.
  split; [rewrite length_take; lia|]. split; [|split].
  - intros h Hh. apply elem_of_take in Hh as (i & Hh & _).
    apply list_elem_of_lookup_2, elem_of_sort_by, list_elem_of_filter in Hh as [Hr Hh].
    apply Qle_bool_iff in Hr. split; [done|].
    apply elem_of_take in Hh as (k & Hh & _).
    apply list_elem_of_lookup_2, list_elem_of_omap in Hh as (u & Hu & Hrank).
    apply rank_hospital_spec in Hrank as (Hact & a & b & Hloc & ->). simpl. eauto 6.
  - apply ordered_by_take, hospitals_ordered.
  - intros u a b Hscan Hfew Hu Hact Hloc Hr.
    rewrite (take_ge (omap _ _)) by done.
    rewrite take_ge by (by rewrite (Permutation_length (sort_by_Permutation _ _))).
    apply elem_of_sort_by, list_elem_of_filter. split; [by apply Qle_bool_iff|].
    apply list_elem_of_omap. exists u. split; [done|]. apply rank_hospital_spec. eauto.
Qed.


(** ** What the write handlers leave alone *)

Lemma put_is_Some {A} (new old : option A) : is_Some old → is_Some (Emergency.put new old).
Proof. by destruct new. Qed.

Lemma write_same_case (d : Emergency.data) (e : Emergency.t) :
  same_case e (Emergency.write d e).
Proof. done. Qed.

Lemma write_stamps_kept (d : Emergency.data) (e : Emergency.t) :
  stamps_kept e (Emergency.write d e).
Proof. repeat split; apply put_is_Some. Qed.

Lemma serve_rows `{GeoOracle} (q : Request) (now : Z) (db : Db) :
  users (serve q now db) = users db
  ∧ documents (serve q now db) = documents db
  ∧ blobs (serve q now db) = blobs db
  ∧ (∀ k, emergencies db !! k = None → emergencies (serve q now db) !! k = None)
  ∧ (∀ k e, emergencies db !! k = Some e →
       ∃ e', emergencies (serve q now db) !! k = Some e'
             ∧ same_case e e' ∧ stamps_kept e e')
  ∧ ∃ eid, ∀ k, k ≠ eid → emergencies (serve q now db) !! k = emergencies db !! k.
Proof.
  destruct (serve_effect q now db) as [->|(eid & e & d & Hl & -> & _)].
  - repeat split; try done.
    + intros k e Hk. exists e. repeat split; done.
    + by exists "".
  - repeat split; try done.
    + intros k Hk. simpl. rewrite lookup_insert_ne; [done|]. intros <-. congruence.
    + intros k e0 Hk. simpl. destruct (decide (eid = k)) as [<-|Hne].
      * rewrite lookup_insert_eq. assert (e0 = e) as -> by congruence.
        eexists. split; [done|]. split; [apply write_same_case|apply write_stamps_kept].
      * rewrite lookup_insert_ne by done. exists e0. repeat split; done.
    + exists eid. intros k Hk. simpl. by rewrite lookup_insert_ne.
Qed.

(** X5.  Whatever requests the handlers that write to an existing emergency
    serve, in whatever order: the user, document and blob tables are as
    before, no emergency is created or deleted, and each emergency keeps its
    id, patient, trigger time and symptoms. *)
Theorem write_handlers_keep_the_case `{GeoOracle} (qs : list (Request * Z)) (db : Db) :
  users (serve_all qs db) = users db
  ∧ documents (serve_all qs db) = documents db
  ∧ blobs (serve_all qs db) = blobs db
  ∧ (∀ k, emergencies db !! k = None → emergencies (serve_all qs db) !! k = None)
  ∧ (∀ k e, emergencies db !! k = Some e →
       ∃ e', emergencies (serve_all qs db) !! k = Some e' ∧ same_case e e').
Proof.
  revert db. induction qs as [|[q now] qs IH]; intros db.
  - repeat split; try done. intros k e Hk. exists e. repeat split; done.
  - unfold serve_all. simpl. fold (serve_all qs (serve q now db)).
    destruct (serve_rows q now db) as (Hu & Hd & Hb & Hnone & Hsome & _).
    destruct (IH (serve q now db)) as (Hu' & Hd' & Hb' & Hnone' & Hsome').
    split; [congruence|]. split; [congruence|]. split; [congruence|]. split.
    + intros k Hk. by apply Hnone', Hnone.
    + intros k e Hk. destruct (Hsome k e Hk) as (e1 & Hk1 & Hc1 & _).
      destruct (Hsome' k e1 Hk1) as (e2 & Hk2 & Hc2). exists e2. split; [done|].
      destruct Hc1 as (?&?&?&?), Hc2 as (?&?&?&?). repeat split; congruence.
Qed.

(** X6.  No request the write handlers serve clears a column once it is
    filled: acceptance, arrival and completion times, the assigned hospital
    and driver and the time of the last location report stay set, also when
    the status is written back to an earlier one. *)
Theorem filled_columns_stay_filled `{GeoOracle} (qs : list (Request * Z)) (db : Db)
    (k : string) (e : Emergency.t) :
  emergencies db !! k = Some e →
  ∃ e', emergencies (serve_all qs db) !! k = Some e' ∧ stamps_kept e e'.
Proof.
  revert db e. induction qs as [|[q now] qs IH]; intros db e Hk.
  - exists e. repeat split; done.
  - unfold serve_all. simpl. fold (serve_all qs (serve q now db)).
    destruct (serve_rows q now db) as (_ & _ & _ & _ & Hsome & _).
    destruct (Hsome k e Hk) as (e1 & Hk1 & _ & Hs1).
    destruct (IH _ _ Hk1) as (e2 & Hk2 & Hs2). exists e2. split; [done|].
    destruct Hs1 as (?&?&?&?&?&?), Hs2 as (?&?&?&?&?&?). repeat split; auto.
Qed.

(** X7.  A single served request changes at most one emergency, and an answer
    other than 200 comes with the database as it was. *)
Theorem errors_do_not_write `{GeoOracle} :
  (∀ q now db, ∃ eid, ∀ k, k ≠ eid →
     emergencies (serve q now db) !! k = emergencies db !! k)
  ∧ (∀ ru i loc db,
       httpStatus (sos_PATCH ru i loc db).1 ≠ 200 → (sos_PATCH ru i loc db).2 = db)
  ∧ (∀ ru i la lo now db,
       httpStatus (driver_location_POST ru i la lo now db).1 ≠ 200 →
       (driver_location_POST ru i la lo now db).2 = db)
  ∧ (∀ ru i st act now db,
       httpStatus (driver_status_PATCH ru i st act now db).1 ≠ 200 →
       (driver_status_PATCH ru i st act now db).2 = db)
  ∧ (∀ ru i now db,
       httpStatus (hospital_accept_POST ru i now db).1 ≠ 200 →
       (hospital_accept_POST ru i now db).2 = db)
  ∧ (∀ ru i st b n now db,
       httpStatus (hospital_status_PUT ru i st b n now db).1 ≠ 200 →
       (hospital_status_PUT ru i st b n now db).2 = db).
Proof.
  split; [intros q now db; apply serve_rows|]. repeat split.
  - intros ru i loc db. unfold sos_PATCH. destruct ru as [[uid []]|]; try done.
    destruct (truthy_string i) as [eid|]; [|done].
    destruct (valid_location loc) as [[a b]|]; [|done].
    destruct (find_emergency _ _ _) as [e|] eqn:Hf; [|done].
    apply find_emergency_inv in Hf as [Hl _].
    rewrite (update_then_found _ _ _ _ _ _ Hl). by destruct (bool_decide _).
  - intros ru i la lo now db. unfold driver_location_POST.
    destruct ru as [[uid []]|]; try done.
    destruct (truthy_string i) as [eid|], la as [la|], lo as [lo|]; try done.
    destruct (negb _); [done|].
    destruct (find_emergency _ _ _) as [e|] eqn:Hf; [|done].
    apply find_emergency_inv in Hf as [Hl _]. cbv zeta.
    destruct (_ && _ && _); [done|].
    by rewrite (update_then_found _ _ _ _ _ _ Hl).
  - intros ru i st act now db. unfold driver_status_PATCH.
    destruct ru as [[uid []]|]; try done.
    destruct (truthy_string i) as [eid|]; [|done].
    destruct (find_emergency _ _ _) as [e|] eqn:Hf; [|done].
    apply find_emergency_inv in Hf as [Hl _].
    by rewrite (update_then_found _ _ _ _ _ _ Hl).
  - intros ru i now db. unfold hospital_accept_POST.
    destruct ru as [[uid []]|]; try done.
    destruct (truthy_string i) as [eid|]; [|done].
    by destruct (emergency_update _ _ _) as [[e db']|].
  - intros ru i st b n now db. unfold hospital_status_PUT.
    destruct ru as [[uid []]|]; try done.
    destruct (truthy_string i) as [eid|], (truthy_string st) as [s|]; try done.
    destruct (status_of_string s) as [s'|]; [|done].
    by destruct (emergency_update _ _ _) as [[e db']|].
Qed.

(** ** More of the hospital feed *)

Lemma StronglySorted_impl {A} (R R' : A → A → Prop) (l : list A) :
  (∀ a b, R a b → R' a b) → StronglySorted R l → StronglySorted R' l.
Proof.
  intros HR. induction 1 as [|x l Hs IH Hx]; constructor; [done|].
  by apply (Forall_impl _ _ _ Hx), HR.
Qed.

Lemma StronglySorted_sublist {A} (R : A → A → Prop) (l1 l2 : list A) :
  l1 `sublist_of` l2 → StronglySorted R l2 → StronglySorted R l1.
Proof.
  induction 1 as [|x l1 l2 Hsub IH|x l1 l2 Hsub IH]; intros Hs; [done|..].
  - apply StronglySorted_inv in Hs as [Hs Hx]. constructor; [by apply IH|].
    rewrite Forall_forall in Hx |- *. intros y Hy. apply Hx.
    by apply (elem_of_sublist l1).
  - apply StronglySorted_inv in Hs as [Hs _]. by apply IH.
Qed.

Lemma dedupe_sublist (seen : gset string) (l : list Emergency.t) :
  dedupe seen l `sublist_of` l.
Proof.
  revert seen. induction l as [|x l IH]; intros seen; simpl; [done|].
  destruct (String.eqb _ _); [by apply sublist_cons|].
  destruct (bool_decide _); [by apply sublist_cons|]. by apply sublist_skip.
Qed.

Lemma dedupe_NoDup (seen : gset string) (l : list Emergency.t) :
  NoDup (Emergency.patientId <$> dedupe seen l).
Proof.
  revert seen. induction l as [|x l IH]; intros seen; simpl; [constructor|].
  destruct (String.eqb _ _); [done|]. destruct (bool_decide _); [done|].
  rewrite fmap_cons. constructor; [|done].
  intros (e & Heq & He)%list_elem_of_fmap.
  apply dedupe_sound in He as (_ & _ & Hns). rewrite <- Heq in Hns. set_solver.
Qed.

Lemma feed_matches_sorted (hid : string) (status : option string) (now : Z) (db : Db) :
  StronglySorted (fun a b => Emergency.triggeredAt b ≤ Emergency.triggeredAt a)
    (feed_matches hid status now db).
Proof.
  unfold feed_matches.
  eapply StronglySorted_impl;
    [|apply (sort_by_sorted (fun a b => Emergency.triggeredAt b <? Emergency.triggeredAt a))].
  - intros a b Hab. simpl in Hab. by apply Z.ltb_ge in Hab.
  - intros a b c. rewrite !Z.ltb_ge. lia.
  - intros a b. rewrite Z.ltb_lt, Z.ltb_ge. lia.
Qed.

Lemma status_string_inj (s s' : Status) : status_string s = status_string s' → s = s'.
Proof. by destruct s, s'. Qed.

(** X8.  A page of the feed has at most [limit] entries and no two of the
    same patient, none with an empty patient id; it can be shorter than the
    rows the query returned.  [total] counts every matching row, whatever
    the page asked for. *)
Theorem feed_page_has_one_case_per_patient (hid : string) (status : option string)
    (limit offset : nat) (now : Z) (db : Db) :
  (length (fp_emergencies (feed_read hid status limit offset now db)) ≤ limit)%nat
  ∧ (length (fp_emergencies (feed_read hid status limit offset now db))
     ≤ fp_total (feed_read hid status limit offset now db) - offset)%nat
  ∧ NoDup ((fun item => Emergency.patientId (f_emergency item))
             <$> fp_emergencies (feed_read hid status limit offset now db))
  ∧ (∀ item, item ∈ fp_emergencies (feed_read hid status limit offset now db) →
       Emergency.patientId (f_emergency item) ≠ "")
  ∧ (∀ limit' offset',
       fp_total (feed_read hid status limit' offset' now db)
       = fp_total (feed_read hid status limit offset now db)).
Proof.
  unfold feed_read. simpl.
  pose proof (sublist_length _ _
                (dedupe_sublist ∅ (take limit (drop offset (feed_matches hid status now db)))))
    as Hlen.
  rewrite length_take, length_drop in Hlen.
  rewrite length_fmap. split; [lia|]. split; [lia|]. split; [|split; [|done]].
  - rewrite <- list_fmap_compose.
    exact (dedupe_NoDup _ _).
  - intros item (e & -> & He)%list_elem_of_fmap. simpl.
    by apply dedupe_sound in He as (i & (_ & Hne & _) & _).
Qed.

(** X9.  The feed lists newer cases before older ones.  Each entry carries
    exactly the documents attached to its case that have not expired, the
    newest first. *)
Theorem feed_is_newest_first (hid : string) (status : option string)
    (limit offset : nat) (now : Z) (db : Db) :
  ordered_by
    (fun a b => Emergency.triggeredAt (f_emergency b) ≤ Emergency.triggeredAt (f_emergency a))
    (fp_emergencies (feed_read hid status limit offset now db))
  ∧ ∀ item, item ∈ fp_emergencies (feed_read hid status limit offset now db) →
      (∀ d, d ∈ f_documents item
            ↔ d ∈ documents_of (Emergency.id (f_emergency item)) db
              ∧ now < MedicalDocument.expiresAt d)
      ∧ ordered_by
          (fun a b => MedicalDocument.createdAt b ≤ MedicalDocument.createdAt a)
          (f_documents item).
Proof.
  unfold feed_read. simpl. split.
  - intros i j a b Hij Hi Hj.
    apply list_lookup_fmap_Some in Hi as (ea & -> & Hi).
    apply list_lookup_fmap_Some in Hj as (eb & -> & Hj). simpl.
    refine (StronglySorted_ordered_by
              (fun a b => Emergency.triggeredAt b ≤ Emergency.triggeredAt a)
              _ _ i j ea eb Hij Hi Hj).
    eapply StronglySorted_sublist; [apply dedupe_sublist|].
    eapply StronglySorted_sublist; [apply sublist_take|].
    eapply StronglySorted_sublist; [apply sublist_drop|].
    apply feed_matches_sorted.
  - intros item (e & -> & _)%list_elem_of_fmap. simpl. split.
    + intros d. rewrite elem_of_sort_by, list_elem_of_filter.
      unfold unexpired. rewrite Z.ltb_lt. tauto.
    + apply StronglySorted_ordered_by.
      eapply StronglySorted_impl;
        [|apply (sort_by_sorted
                   (fun a b => MedicalDocument.createdAt b <? MedicalDocument.createdAt a))].
      * intros a b Hab. simpl in Hab. by apply Z.ltb_ge in Hab.
      * intros a b c. rewrite !Z.ltb_ge. lia.
      * intros a b. rewrite Z.ltb_lt, Z.ltb_ge. lia.
Qed.

(** X10.  With a [status] filter naming one of the five statuses, the feed
    query matches the hospital's cases in that status under the document and
    age rule: a filter on "completed" lists the completed cases the
    unfiltered feed leaves out. *)
Theorem feed_status_filter_selects_that_status (hid : string) (st : Status) (now : Z)
    (db : Db) (e : Emergency.t) :
  e ∈ feed_matches hid (Some (status_string st)) now db
  ↔ (∃ k, emergencies db !! k = Some e)
    ∧ Emergency.assignedHospitalId e = Some hid
    ∧ Emergency.status e = st
    ∧ ((∃ d, d ∈ documents_of (Emergency.id e) db ∧ now < MedicalDocument.expiresAt d)
       ∨ (documents_of (Emergency.id e) db = []
          ∧ now - 60 * 60 * 1000 ≤ Emergency.triggeredAt e)).
Proof.
  rewrite elem_of_feed_matches. unfold feed_where. cbv zeta.
  assert (truthy_string (Some (status_string st)) = Some (status_string st)) as ->
    by (by destruct st).
  rewrite !andb_true_iff, orb_true_iff, andb_true_iff.
  rewrite !bool_decide_eq_true, existsb_exists, Z.leb_le, String.eqb_eq.
  assert (status_string (Emergency.status e) = status_string st ↔ Emergency.status e = st)
    as -> by (split; [apply status_string_inj|congruence]).
  assert ((∃ x, In x (documents_of (Emergency.id e) db) ∧ unexpired now x = true)
          ↔ ∃ d, d ∈ documents_of (Emergency.id e) db ∧ now < MedicalDocument.expiresAt d)
    as ->.
  { unfold unexpired. split; intros (d & Hd & Hx); exists d.
    - by rewrite list_elem_of_In, <- Z.ltb_lt.
    - by rewrite <- list_elem_of_In, Z.ltb_lt. }
  tauto.
Qed.

(** X11.  The feed cache.  A feed computed at [now0] is answered again,
    unchanged, to the same query for the next 3 seconds, whatever the tables
    hold by then.  After that, while storage fails, the same payload is
    answered marked stale until it is 30 seconds old, and 500 from then on. *)
Theorem feed_cache_repeats_the_page (hid : string) (status : option string)
    (limit offset : option nat) (now0 : Z)
    (cache0 : gmap string (CacheEntry FeedPayload)) (db0 : Db) :
  cached_when (fun c => now0 <? ce_expiresAt c)
    (cache0 !! feed_cacheKey hid status (default 20%nat limit) (default 0%nat offset))
  = None →
  ∃ payload cache1,
    hospital_feed_GET (Some {| ru_id := hid; ru_role := hospital |}) status limit offset
      now0 true cache0 db0
    = (respond 200 (FeedOk payload false), cache1)
    ∧ payload = feed_read hid status (default 20%nat limit) (default 0%nat offset) now0 db0
    ∧ (∀ now1 storage_ok db1,
         now1 < now0 + 3000 →
         hospital_feed_GET (Some {| ru_id := hid; ru_role := hospital |}) status limit
           offset now1 storage_ok cache1 db1
         = (respond 200 (FeedOk payload false), cache1))
    ∧ (∀ now1 db1,
         now0 + 3000 ≤ now1 → now1 < now0 + 30000 →
         hospital_feed_GET (Some {| ru_id := hid; ru_role := hospital |}) status limit
           offset now1 false cache1 db1
         = (respond 200 (FeedOk payload true), cache1))
    ∧ (∀ now1 db1,
         now0 + 30000 ≤ now1 →
         hospital_feed_GET (Some {| ru_id := hid; ru_role := hospital |}) status limit
           offset now1 false cache1 db1
         = (respond 500 (FeedError "Failed to fetch emergencies"), cache1)).
Proof.
  intros Hmiss. eexists _, _. unfold hospital_feed_GET at 1. cbv zeta.
  rewrite Hmiss. split; [reflexivity|]. split; [reflexivity|].
  repeat split.
  - intros now1 storage_ok db1 Hlt. unfold hospital_feed_GET. cbv zeta.
    rewrite lookup_insert_eq. simpl.
    by destruct (Z.ltb_spec now1 (now0 + 3000)); [|lia].
  - intros now1 db1 Hge Hlt. unfold hospital_feed_GET. cbv zeta.
    rewrite lookup_insert_eq. simpl.
    destruct (Z.ltb_spec now1 (now0 + 3000)); [lia|].
    by destruct (Z.ltb_spec (now1 - now0) 30000); [|lia].
  - intros now1 db1 Hge. unfold hospital_feed_GET. cbv zeta.
    rewrite lookup_insert_eq. simpl.
    destruct (Z.ltb_spec now1 (now0 + 3000)); [lia|].
    by destruct (Z.ltb_spec (now1 - now0) 30000); [lia|].
Qed.

(** ** The driver assignment read *)

Lemma current_assignment_spec (uid license : string) (db : Db) (e : Emergency.t) :
  current_assignment uid license db = Some e →
  (∃ k, emergencies db !! k = Some e)
  ∧ assignment_where uid license db e = true
  ∧ ∀ k e', emergencies db !! k = Some e' → assignment_where uid license db e' = true →
      Emergency.triggeredAt e' ≤ Emergency.triggeredAt e.
Proof.
  unfold current_assignment. intros Hhead.
  assert (∀ e', e' ∈ sort_by (fun a b => Emergency.triggeredAt b <? Emergency.triggeredAt a)
                       (filter (fun e => assignment_where uid license db e = true)
                          (map_to_list (emergencies db)).*2)
                ↔ (∃ k, emergencies db !! k = Some e')
                  ∧ assignment_where uid license db e' = true) as Hin.
  { intros e'. rewrite elem_of_sort_by, list_elem_of_filter, list_elem_of_fmap. split.
    - intros [Hw ([k x] & -> & Hk)]. apply elem_of_map_to_list in Hk. eauto.
    - intros [[k Hk] Hw]. split; [done|]. exists (k, e'). split; [done|].
      by apply elem_of_map_to_list. }
  pose proof (sort_by_sorted (fun a b => Emergency.triggeredAt b <? Emergency.triggeredAt a)
                (filter (fun e => assignment_where uid license db e = true)
                   (map_to_list (emergencies db)).*2)) as Hsorted.
  destruct (sort_by _ _) as [|x l] eqn:Hl; [done|]. simpl in Hhead. injection Hhead as ->.
  destruct (proj1 (Hin e) ltac:(left)) as [Hk Hw]. split; [done|]. split; [done|].
  intros k e' Hk' Hw'.
  assert (e' ∈ e :: l) as He' by (apply Hin; eauto).
  apply elem_of_cons in He' as [->|He']; [lia|].
  assert (StronglySorted
            (fun a b => (Emergency.triggeredAt a <? Emergency.triggeredAt b) = false)
            (e :: l)) as Hs.
  { apply Hsorted.
    - intros a b c. rewrite !Z.ltb_ge. lia.
    - intros a b. rewrite Z.ltb_lt, Z.ltb_ge. lia. }
  apply StronglySorted_inv in Hs as [_ Hall]. rewrite Forall_forall in Hall.
  apply Hall in He'. by apply Z.ltb_ge in He'.
Qed.

Lemma driver_assignment_computed (uid : string) (now : Z)
    (cache cache' : gmap string (CacheEntry Assignment)) (db : Db) (p : Assignment) :
  cached_when (fun c => now <? ce_expiresAt c) (cache !! assignment_cacheKey uid) = None →
  driver_assignment_GET (Some {| ru_id := uid; ru_role := driver |}) now true cache db
  = (respond 200 (AssignmentOk p false), cache') →
  ∃ du license,
    find_user uid (users db) = Some du
    ∧ User.licenseNumber du = Some license ∧ license ≠ ""
    ∧ current_assignment uid license db = Some (as_emergency p)
    ∧ as_hospital p
      = Emergency.assignedHospitalId (as_emergency p) ≫= (fun h => find_user h (users db))
    ∧ as_documents p
      = filter (fun d => unexpired now d = true)
          (documents_of (Emergency.id (as_emergency p)) db)
    ∧ cache'
      = <[assignment_cacheKey uid :=
            {| ce_createdAt := now; ce_expiresAt := now + 2000; ce_payload := p |}]> cache.
Proof.
  intros Hmiss. unfold driver_assignment_GET. cbv zeta. rewrite Hmiss.
  destruct (find_user uid (users db)) as [du|] eqn:Hdu; [|done]. simpl.
  destruct (truthy_string (User.licenseNumber du)) as [license|] eqn:Hlic; [|done].
  apply truthy_string_inv in Hlic as [Hlic Hne].
  destruct (current_assignment uid license db) as [e|] eqn:Hcur; [|done].
  destruct (find_user (Emergency.patientId e) (users db)) as [pu|] eqn:Hpu.
  2:{ by destruct (cached_when (fun c => now - ce_createdAt c <? 30000) _). }
  intros [= <- <-]. by exists du, license.
Qed.

(** X12.  An assignment computed from storage is a case of the requesting
    driver, in status assigned or en_route, whose assigned hospital carries
    the driver's own license; no other such case was triggered later, and
    its documents are the unexpired ones attached to it. *)
Theorem driver_assignment_is_current (uid : string) (now : Z)
    (cache cache' : gmap string (CacheEntry Assignment)) (db : Db) (p : Assignment) :
  cached_when (fun c => now <? ce_expiresAt c) (cache !! assignment_cacheKey uid) = None →
  driver_assignment_GET (Some {| ru_id := uid; ru_role := driver |}) now true cache db
  = (respond 200 (AssignmentOk p false), cache') →
  (∃ k, emergencies db !! k = Some (as_emergency p))
  ∧ Emergency.assignedDriverId (as_emergency p) = Some uid
  ∧ (Emergency.status (as_emergency p) = assigned
     ∨ Emergency.status (as_emergency p) = en_route)
  ∧ (∃ du hu license,
       find_user uid (users db) = Some du
       ∧ as_hospital p = Some hu
       ∧ license ≠ ""
       ∧ User.licenseNumber du = Some license
       ∧ User.licenseNumber hu = Some license)
  ∧ (∀ k e, emergencies db !! k = Some e →
       Emergency.assignedDriverId e = Some uid →
       Emergency.status e = assigned ∨ Emergency.status e = en_route →
       (∃ hu, Emergency.assignedHospitalId e ≫= (fun h => find_user h (users db)) = Some hu
              ∧ User.licenseNumber hu
                = (find_user uid (users db) ≫= User.licenseNumber)) →
       Emergency.triggeredAt e ≤ Emergency.triggeredAt (as_emergency p))
  ∧ (∀ d, d ∈ as_documents p
          ↔ d ∈ documents_of (Emergency.id (as_emergency p)) db
            ∧ now < MedicalDocument.expiresAt d)
  ∧ cache' !! assignment_cacheKey uid
    = Some {| ce_createdAt := now; ce_expiresAt := now + 2000; ce_payload := p |}.
Proof.
  intros Hmiss Hget.
  destruct (driver_assignment_computed _ _ _ _ _ _ Hmiss Hget)
    as (du & license & Hdu & Hlic & Hne & Hcur & Hhosp & Hdocs & ->).
  apply current_assignment_spec in Hcur as (Hk & Hw & Hnewest).
  unfold assignment_where in Hw. apply andb_true_iff in Hw as [Hw Hh].
  apply andb_true_iff in Hw as [Hdrv Hst]. apply bool_decide_eq_true in Hdrv.
  apply orb_true_iff in Hst. rewrite !bool_decide_eq_true in Hst.
  rewrite <- Hhosp in Hh. destruct (as_hospital p) as [hu|] eqn:Hhu; [|done].
  apply bool_decide_eq_true in Hh.
  split; [done|]. split; [done|]. split; [done|]. split; [by exists du, hu, license|].
  split; [|split].
  - intros k e' Hk' Hdrv' Hst' (hu' & Hhu' & Hlic'). apply (Hnewest k); [done|].
    unfold assignment_where. rewrite Hhu'. rewrite Hdu in Hlic'. simpl in Hlic'.
    rewrite Hlic', Hlic.
    rewrite !andb_true_iff, orb_true_iff, !bool_decide_eq_true. done.
  - intros d. rewrite Hdocs, list_elem_of_filter. unfold unexpired. rewrite Z.ltb_lt. tauto.
  - by rewrite lookup_insert_eq.
Qed.

(** X13.  After a location report that comes within one kilometre of the
    patient (the response carries the arrival notification), the stored case
    is no longer what the assignment read computes for any driver. *)
Theorem arrived_case_leaves_the_assignment `{GeoOracle} (ru : option RequestUser)
    (eid : option string) (latitude longitude : option Q) (now : Z) (db db' : Db)
    (t : DriverTracking) (note : string) :
  driver_location_POST ru eid latitude longitude now db
  = (respond 200 (DriverPostWritten t (Some note)), db') →
  ∃ k e',
    truthy_string eid = Some k
    ∧ emergencies db' !! k = Some e'
    ∧ Emergency.status e' = arrived
    ∧ ∀ uid now' cache cache' p stale,
        cached_when (fun c => now' <? ce_expiresAt c) (cache !! assignment_cacheKey uid)
        = None →
        driver_assignment_GET (Some {| ru_id := uid; ru_role := driver |}) now' true
          cache db'
        = (respond 200 (AssignmentOk p stale), cache') →
        stale = false → as_emergency p ≠ e'.
Proof.
  unfold driver_location_POST. destruct ru as [[uid []]|]; try done.
  destruct (truthy_string eid) as [k|], latitude as [la|], longitude as [lo|]; try done.
  destruct (negb _); [done|].
  destruct (find_emergency _ _ _) as [e|] eqn:Hf; [|done].
  apply find_emergency_inv in Hf as [Hl _]. cbv zeta.
  destruct (_ && _ && _); [done|].
  rewrite (update_then_found _ _ _ _ _ _ Hl).
  destruct (Qltb _ 1) eqn:Hnear; [|done]. intros [= <- <- <-].
  eexists k, _. split; [done|]. split; [by simpl; rewrite lookup_insert_eq|].
  split; [done|].
  intros uid' now' cache cache' p stale Hmiss Hget ->.
  destruct (driver_assignment_computed _ _ _ _ _ _ Hmiss Hget)
    as (du & license & _ & _ & _ & Hcur & _).
  apply current_assignment_spec in Hcur as (_ & Hw & _).
  intros Heq. rewrite Heq in Hw. unfold assignment_where in Hw. simpl in Hw.
  by rewrite andb_false_r in Hw.
Qed.


Section Base64UrlFacts.
Import Base64Url.

(** ** The base64url codec of the document token *)

Lemma digits_ok (n : N) : (n < 64)%N → digit_ok n = true.
Proof.
  intros Hn.
  assert (forallb (fun k => digit_ok (N.of_nat k)) (seq 0 64) = true) as Hall
    by (vm_compute; reflexivity).
  rewrite forallb_forall in Hall.
  specialize (Hall (N.to_nat n)). rewrite N2Nat.id in Hall. apply Hall.
  apply in_seq. lia.
Qed.

Ltac byte_lia := intros; zify; Z.to_euclidean_division_equations; lia.

Lemma sextet1_lt (x : N) : (x < 256 → x / 4 < 64)%N.
Proof. byte_lia. Qed.
Lemma sextet2_lt (x y : N) : (x < 256 → y < 256 → x mod 4 * 16 + y / 16 < 64)%N.
Proof. byte_lia. Qed.
Lemma sextet3_lt (y z : N) : (y < 256 → z < 256 → y mod 16 * 4 + z / 64 < 64)%N.
Proof. byte_lia. Qed.
Lemma sextet4_lt (z : N) : (z mod 64 < 64)%N.
Proof. byte_lia. Qed.
Lemma byte1_eq (x v : N) : (v < 16 → x / 4 * 4 + (x mod 4 * 16 + v) / 16 = x)%N.
Proof. byte_lia. Qed.
Lemma byte2_eq (u y w : N) :
  (u < 4 → w < 4 → y < 256 → (u * 16 + y / 16) mod 16 * 16 + (y mod 16 * 4 + w) / 4 = y)%N.
Proof. byte_lia. Qed.
Lemma byte3_eq (u z : N) : (u < 16 → z < 256 → (u * 4 + z / 64) mod 4 * 64 + z mod 64 = z)%N.
Proof. byte_lia. Qed.
Lemma nibble_lt (y : N) : (y < 256 → y / 16 < 16)%N.
Proof. byte_lia. Qed.
Lemma crumb_lt (z : N) : (z < 256 → z / 64 < 4)%N.
Proof. byte_lia. Qed.
Lemma mod4_lt (x : N) : (x mod 4 < 4)%N.
Proof. byte_lia. Qed.
Lemma mod16_lt (x : N) : (x mod 16 < 16)%N.
Proof. byte_lia. Qed.

Lemma byte1_eq0 (x : N) : (x / 4 * 4 + (x mod 4 * 16) / 16 = x)%N.
Proof. byte_lia. Qed.
Lemma byte2_eq0 (u y : N) :
  (u < 4 → y < 256 → (u * 16 + y / 16) mod 16 * 16 + (y mod 16 * 4) / 4 = y)%N.
Proof. byte_lia. Qed.
Lemma sextet2_lt0 (x : N) : (x mod 4 * 16 < 64)%N.
Proof. byte_lia. Qed.
Lemma sextet3_lt0 (y : N) : (y mod 16 * 4 < 64)%N.
Proof. byte_lia. Qed.

Lemma string_ind3 (P : string → Prop) :
  P "" →
  (∀ a, P (String a "")) →
  (∀ a b, P (String a (String b ""))) →
  (∀ a b c s, P s → P (String a (String b (String c s)))) →
  ∀ s, P s.
Proof.
  intros H0 H1 H2 H3 s.
  assert (P s ∧ (∀ a, P (String a s)) ∧ ∀ a b, P (String a (String b s))) as [Hs _].
  { induction s as [|c s (IH0 & IH1 & IH2)]; [by auto|]. repeat split; auto. }
  exact Hs.
Qed.

Lemma replace_url_cons (c : ascii) (s : string) :
  replace_all "/" "_" (replace_all "+" "-" (String c s))
  = String (url1 c) (replace_all "/" "_" (replace_all "+" "-" s)).
Proof. reflexivity. Qed.

Lemma replace_unurl_cons (c : ascii) (s : string) :
  replace_all "_" "/" (replace_all "-" "+" (String c s))
  = String (unurl1 c) (replace_all "_" "/" (replace_all "-" "+" s)).
Proof. reflexivity. Qed.

Lemma unurl1_padding (c : ascii) : Ascii.eqb (unurl1 c) "=" = Ascii.eqb c "=".
Proof.
  unfold unurl1. destruct (Ascii.eqb_spec c "-") as [->|]; [done|].
  by destruct (Ascii.eqb_spec c "_") as [->|].
Qed.

Lemma sextets_strip_padding (s : string) :
  sextets (replace_all "_" "/" (replace_all "-" "+" (strip_padding s)))
  = sextets (replace_all "_" "/" (replace_all "-" "+" s)).
Proof.
  induction s as [|a s IH]; [done|].
  rewrite (replace_unurl_cons a s). cbn [strip_padding].
  destruct (Ascii.eqb a "=") eqn:Ha; cbn [andb].
  - destruct (String.eqb (strip_padding s) "").
    + cbn [sextets]. by rewrite unurl1_padding, Ha.
    + rewrite replace_unurl_cons. cbn [sextets]. by rewrite unurl1_padding, Ha.
  - rewrite replace_unurl_cons. cbn [sextets]. by rewrite unurl1_padding, Ha, IH.
Qed.

Lemma sextets_padding (s : string) (n : nat) :
  sextets (s +:+ repeat_char "=" n) = sextets s.
Proof.
  induction s as [|a s IH]; simpl.
  - by destruct n.
  - by rewrite IH.
Qed.

Lemma base64urlToBuffer_sextets (input : string) :
  base64urlToBuffer input
  = bytes_of_sextets (sextets (replace_all "_" "/" (replace_all "-" "+" input))).
Proof.
  unfold base64urlToBuffer, Buffer_from_base64. cbv zeta.
  destruct (_ =? 0)%nat; [|by rewrite sextets_padding].
  by rewrite (sextets_padding _ 0).
Qed.

Lemma sextets_digit (n : N) (s : string) :
  (n < 64)%N →
  sextets (replace_all "_" "/" (replace_all "-" "+"
             (replace_all "/" "_" (replace_all "+" "-" (String (digit n) s)))))
  = n :: sextets (replace_all "_" "/" (replace_all "-" "+"
                    (replace_all "/" "_" (replace_all "+" "-" s)))).
Proof.
  intros Hn. rewrite replace_url_cons, replace_unurl_cons. cbn [sextets].
  pose proof (digits_ok n Hn) as Hok. unfold digit_ok in Hok.
  rewrite !andb_true_iff, !negb_true_iff, bool_decide_eq_true in Hok.
  destruct Hok as [[[-> ->] _] _]. done.
Qed.

Lemma decode_encode (buf : string) :
  bytes_of_sextets
    (sextets (replace_all "_" "/" (replace_all "-" "+"
                (replace_all "/" "_" (replace_all "+" "-" (toString_base64 buf))))))
  = buf.
Proof.
  induction buf as [|a|a b|a b c s IH] using string_ind3; [done|..];
    cbn [toString_base64]; cbv zeta;
    pose proof (N_ascii_bounded a) as Ha.
  - rewrite !sextets_digit by (first [by apply sextet1_lt | apply sextet2_lt0]).
    cbn [bytes_of_sextets]. rewrite byte1_eq0. by rewrite ascii_N_embedding.
  - pose proof (N_ascii_bounded b) as Hb.
    rewrite !sextets_digit
      by (first [by apply sextet1_lt | by apply sextet2_lt | apply sextet3_lt0]).
    cbn [bytes_of_sextets].
    rewrite byte1_eq by (by apply nibble_lt).
    rewrite byte2_eq0 by (first [apply mod4_lt | done]).
    by rewrite !ascii_N_embedding.
  - pose proof (N_ascii_bounded b) as Hb. pose proof (N_ascii_bounded c) as Hc.
    rewrite !sextets_digit
      by (first [by apply sextet1_lt | by apply sextet2_lt | by apply sextet3_lt
                | apply sextet4_lt]).
    cbn [bytes_of_sextets]. rewrite IH.
    rewrite byte1_eq by (by apply nibble_lt).
    rewrite byte2_eq by (first [apply mod4_lt | by apply crumb_lt | done]).
    rewrite byte3_eq by (first [apply mod16_lt | done]).
    by rewrite !ascii_N_embedding.
Qed.


Lemma base64url_decodes (buf : string) : base64urlToBuffer (base64url buf) = buf.
Proof.
  rewrite base64urlToBuffer_sextets. unfold base64url.
  rewrite sextets_strip_padding. apply decode_encode.
Qed.

Lemma strip_url_digit (n : N) (s : string) :
  (n < 64)%N →
  strip_padding (replace_all "/" "_" (replace_all "+" "-" (String (digit n) s)))
  = String (url1 (digit n)) (strip_padding (replace_all "/" "_" (replace_all "+" "-" s)))
  ∧ url_safe (url1 (digit n)) = true.
Proof.
  intros Hn. rewrite replace_url_cons. cbn [strip_padding].
  pose proof (digits_ok n Hn) as Hok. unfold digit_ok in Hok.
  rewrite !andb_true_iff, !negb_true_iff in Hok.
  destruct Hok as [[_ ->] ->]. done.
Qed.

Lemma base64url_chars (buf : string) :
  all_chars url_safe (base64url buf) = true ∧ (base64url buf = "" → buf = "").
Proof.
  unfold base64url.
  induction buf as [|a|a b|a b c s [IH _]] using string_ind3; [done|..];
    cbn [toString_base64]; cbv zeta;
    pose proof (N_ascii_bounded a) as Ha.
  - destruct (strip_url_digit (N_of_ascii a / 4) (String (digit (N_of_ascii a mod 4 * 16)) "==")
                ltac:(by apply sextet1_lt)) as [-> Hs1].
    destruct (strip_url_digit (N_of_ascii a mod 4 * 16) "==" (sextet2_lt0 _)) as [-> Hs2].
    cbn [all_chars]. by rewrite Hs1, Hs2.
  - pose proof (N_ascii_bounded b) as Hb.
    destruct (strip_url_digit (N_of_ascii a / 4)
                (String (digit (N_of_ascii a mod 4 * 16 + N_of_ascii b / 16))
                   (String (digit (N_of_ascii b mod 16 * 4)) "="))
                ltac:(by apply sextet1_lt)) as [-> Hs3].
    destruct (strip_url_digit (N_of_ascii a mod 4 * 16 + N_of_ascii b / 16)
                (String (digit (N_of_ascii b mod 16 * 4)) "=")
                ltac:(by apply sextet2_lt)) as [-> Hs4].
    destruct (strip_url_digit (N_of_ascii b mod 16 * 4) "=" (sextet3_lt0 _)) as [-> Hs5].
    cbn [all_chars]. by rewrite Hs3, Hs4, Hs5.
  - pose proof (N_ascii_bounded b) as Hb. pose proof (N_ascii_bounded c) as Hc.
    destruct (strip_url_digit (N_of_ascii a / 4)
                (String (digit (N_of_ascii a mod 4 * 16 + N_of_ascii b / 16))
                   (String (digit (N_of_ascii b mod 16 * 4 + N_of_ascii c / 64))
                      (String (digit (N_of_ascii c mod 64)) (toString_base64 s))))
                ltac:(by apply sextet1_lt)) as [-> Hs6].
    destruct (strip_url_digit (N_of_ascii a mod 4 * 16 + N_of_ascii b / 16)
                (String (digit (N_of_ascii b mod 16 * 4 + N_of_ascii c / 64))
                   (String (digit (N_of_ascii c mod 64)) (toString_base64 s)))
                ltac:(by apply sextet2_lt)) as [-> Hs7].
    destruct (strip_url_digit (N_of_ascii b mod 16 * 4 + N_of_ascii c / 64)
                (String (digit (N_of_ascii c mod 64)) (toString_base64 s))
                ltac:(by apply sextet3_lt)) as [-> Hs8].
    destruct (strip_url_digit (N_of_ascii c mod 64) (toString_base64 s) (sextet4_lt _))
      as [-> Hs9].
    cbn [all_chars]. by rewrite Hs6, Hs7, Hs8, Hs9, IH.
Qed.

End Base64UrlFacts.

(** X14.  [base64urlToBuffer] undoes [base64url] on every byte string.  The
    encoding uses only letters, digits, '-' and '_' (so no '.', '+', '/' or
    '='), and is empty only for the empty input. *)
Theorem base64url_round_trip (buf : string) :
  Base64Url.base64urlToBuffer (Base64Url.base64url buf) = buf
  ∧ Base64Url.all_chars Base64Url.url_safe (Base64Url.base64url buf) = true
  ∧ (Base64Url.base64url buf = "" ↔ buf = "").
Proof.
  split; [apply base64url_decodes|]. split; [apply base64url_chars|].
  split; [apply base64url_chars|by intros ->].
Qed.

(** ** Document tokens: creation, and what verification reads *)

Lemma split_on_nonempty (c : ascii) (s : string) : split_on c s ≠ [].
Proof.
  induction s as [|a s IH]; simpl; [done|].
  destruct (Ascii.eqb a c); [done|]. by destruct (split_on c s).
Qed.

Lemma split_on_app (c : ascii) (s t : string) :
  split_on c (s +:+ String c t) = split_on c s ++ split_on c t.
Proof.
  induction s as [|a s IH]; simpl.
  - by rewrite Ascii.eqb_refl.
  - destruct (Ascii.eqb a c); [by rewrite IH|].
    rewrite IH. pose proof (split_on_nonempty c s). by destruct (split_on c s).
Qed.

Lemma split_on_absent (c : ascii) (s : string) :
  Base64Url.all_chars (fun a => negb (Ascii.eqb a c)) s = true → split_on c s = [s].
Proof.
  induction s as [|a s IH]; simpl; [done|].
  intros [Ha Hs]%andb_true_iff. apply negb_true_iff in Ha. rewrite Ha.
  by rewrite IH.
Qed.

Lemma all_chars_impl (P Q : ascii → bool) (s : string) :
  (∀ c, P c = true → Q c = true) →
  Base64Url.all_chars P s = true → Base64Url.all_chars Q s = true.
Proof.
  intros HPQ. induction s as [|a s IH]; simpl; [done|].
  intros [Ha Hs]%andb_true_iff. by rewrite (HPQ _ Ha), IH.
Qed.

Lemma url_safe_no_dot (c : ascii) :
  Base64Url.url_safe c = true → negb (Ascii.eqb c ".") = true.
Proof. destruct (Ascii.eqb_spec c ".") as [->|]; [by vm_compute|done]. Qed.

Lemma split_on_token (payloadB64 sigB64 : string) :
  Base64Url.all_chars Base64Url.url_safe payloadB64 = true →
  Base64Url.all_chars Base64Url.url_safe sigB64 = true →
  split_on "." (payloadB64 +:+ "." +:+ sigB64) = [payloadB64; sigB64].
Proof.
  intros Hp Hs. change (payloadB64 +:+ "." +:+ sigB64)
    with (payloadB64 +:+ String "." sigB64).
  rewrite split_on_app.
  rewrite !split_on_absent by (by eapply all_chars_impl; [apply url_safe_no_dot|]).
  done.
Qed.

Lemma createDocumentToken_verifies `{TokenCrypto}
    (JSON_stringify : DocumentTokenPayload → string) (secret documentId userId role : string)
    (ttlSeconds : option Z) (now0 : Z) :
  let payload :=
    {| documentId := documentId; userId := userId; tk_role := role;
       exp := now0 / 1000 + default 300 ttlSeconds |} in
  (∀ s, base64urlToBuffer s = Base64Url.base64urlToBuffer s) →
  JSON_parse (JSON_stringify payload) = Some payload →
  JSON_stringify payload ≠ "" →
  hmac_sha256 secret (Base64Url.base64url (JSON_stringify payload)) ≠ "" →
  ∃ token,
    createDocumentToken JSON_stringify (Some secret) documentId userId role ttlSeconds now0
    = Some token
    ∧ ∀ now,
        verifyDocumentToken (Some secret) now token
        = if String.eqb documentId "" || String.eqb userId "" || String.eqb role ""
             || (exp payload =? 0)
          then None
          else if exp payload <? now / 1000 then None else Some payload.
Proof.
  intros payload Hcodec Hjson Hstr Hsig.
  eexists. split; [reflexivity|]. intros now.
  pose proof (base64url_decodes (JSON_stringify payload)) as Hrt1.
  destruct (base64url_chars (JSON_stringify payload)) as [Hsafe1 Hne1].
  pose proof (base64url_decodes
                (hmac_sha256 secret (Base64Url.base64url (JSON_stringify payload))))
    as Hrt2.
  destruct (base64url_chars
              (hmac_sha256 secret (Base64Url.base64url (JSON_stringify payload))))
    as [Hsafe2 Hne2].
  unfold verifyDocumentToken. cbv zeta. fold payload.
  rewrite (split_on_token _ _ Hsafe1 Hsafe2). simpl lookup.
  rewrite (truthy_string_Some (Base64Url.base64url (JSON_stringify payload)))
    by (intros He; by apply Hne1 in He).
  rewrite (truthy_string_Some (Base64Url.base64url (hmac_sha256 _ _)))
    by (intros He; by apply Hne2 in He).
  rewrite !Hcodec, Hrt2, Hrt1, Hjson.
  rewrite Nat.eqb_refl, String.eqb_refl. done.
Qed.

(** X15.  A token made by [createDocumentToken] is not empty.  Made for a
    non-empty document id, user id and role, it verifies under the same
    secret and gives back the payload it was made from at every clock
    reading up to and including the second [exp]; afterwards it does not
    verify, and a token made with one of the three fields empty never
    does.  The decoder of the verifier is taken to be [base64urlToBuffer],
    [JSON.parse] to read what [JSON.stringify] wrote, and the digest and the
    JSON text to be non-empty. *)
Theorem created_token_verifies `{TokenCrypto}
    (JSON_stringify : DocumentTokenPayload → string) (secret documentId userId role : string)
    (ttlSeconds : option Z) (now0 : Z) :
  let payload :=
    {| documentId := documentId; userId := userId; tk_role := role;
       exp := now0 / 1000 + default 300 ttlSeconds |} in
  (∀ s, base64urlToBuffer s = Base64Url.base64urlToBuffer s) →
  JSON_parse (JSON_stringify payload) = Some payload →
  JSON_stringify payload ≠ "" →
  hmac_sha256 secret (Base64Url.base64url (JSON_stringify payload)) ≠ "" →
  ∃ token,
    createDocumentToken JSON_stringify (Some secret) documentId userId role ttlSeconds now0
    = Some token
    ∧ token ≠ ""
    ∧ (documentId ≠ "" → userId ≠ "" → role ≠ "" → exp payload ≠ 0 →
       ∀ now, now / 1000 ≤ exp payload →
         verifyDocumentToken (Some secret) now token = Some payload)
    ∧ (∀ now, exp payload < now / 1000 →
         verifyDocumentToken (Some secret) now token = None)
    ∧ (documentId = "" ∨ userId = "" ∨ role = "" →
       ∀ now, verifyDocumentToken (Some secret) now token = None).
Proof.
  intros payload Hcodec Hjson Hstr Hsig.
  destruct (createDocumentToken_verifies JSON_stringify secret documentId userId role
              ttlSeconds now0 Hcodec Hjson Hstr Hsig) as (token & Hcreate & Hverify).
  exists token. split; [done|]. split; [|split; [|split]].
  - intros ->. injection Hcreate as Hcreate.
    by destruct (Base64Url.base64url (JSON_stringify _)).
  - intros Hd Hu Hr He now Hlive. rewrite Hverify.
    apply String.eqb_neq in Hd, Hu, Hr. apply Z.eqb_neq in He.
    cbn [exp payload] in *. rewrite Hd, Hu, Hr, He. simpl.
    by destruct (Z.ltb_spec (now0 / 1000 + default 300 ttlSeconds) (now / 1000)); [lia|].
  - intros now Hlate. rewrite Hverify. destruct (_ || _); [done|].
    cbn [exp payload] in *.
    by destruct (Z.ltb_spec (now0 / 1000 + default 300 ttlSeconds) (now / 1000)); [|lia].
  - intros Hempty now. rewrite Hverify.
    destruct Hempty as [-> | [-> | ->]]; simpl; by rewrite ?orb_true_r.
Qed.

(** X16.  Verification reads the first two dot-separated segments only: a
    token that verifies still verifies, with the same payload, when a dot and
    any text are put after it. *)
Theorem verified_token_ignores_trailing_segments `{TokenCrypto} (secret : option string)
    (now : Z) (token extra : string) (p : DocumentTokenPayload) :
  verifyDocumentToken secret now token = Some p →
  verifyDocumentToken secret now (token +:+ "." +:+ extra) = Some p.
Proof.
  unfold verifyDocumentToken. destruct secret as [secret|]; [|done]. cbv zeta.
  change (token +:+ "." +:+ extra) with (token +:+ String "." extra).
  rewrite split_on_app.
  destruct (split_on "." token) as [|payloadB64 [|sigB64 rest]] eqn:Hparts.
  - done.
  - change (truthy_string ([payloadB64] !! 1%nat)) with (@None string).
    by destruct (truthy_string ([payloadB64] !! 0%nat)).
  - done.
Qed.
(** ** Document storage *)

Lemma delete_documents_fold (l : list MedicalDocument.t) (db : Db) :
  let db' := foldl (fun db doc => delete_document doc db) db l in
  users db' = users db ∧ emergencies db' = emergencies db
  ∧ blobs db' ⊆ blobs db
  ∧ ∀ k, documents db' !! k
         = if bool_decide (k ∈ MedicalDocument.id <$> l) then None else documents db !! k.
Proof.
  revert db. induction l as [|d l IH]; intros db; simpl.
  - repeat split; done.
  - destruct (IH (delete_document d db)) as (Hu & He & Hb & Hd).
    split; [by rewrite Hu|]. split; [by rewrite He|]. split.
    { intros x Hx. apply Hb in Hx. simpl in Hx. by apply elem_of_difference in Hx as [? _]. }
    intros k. rewrite Hd. simpl.
    destruct (decide (k = MedicalDocument.id d)) as [->|Hne].
    + rewrite lookup_delete_eq.
      rewrite (bool_decide_eq_true_2 (_ ∈ _ :: _)) by (by left).
      by destruct (bool_decide _).
    + rewrite lookup_delete_ne by done.
      destruct (decide (k ∈ MedicalDocument.id <$> l)) as [Hin|Hnin].
      * by rewrite !bool_decide_eq_true_2 by (done || by right).
      * rewrite !bool_decide_eq_false_2; [done|..]; [|done].
        by intros [?|?]%elem_of_cons.
Qed.

(** X17.  The cleanup job leaves users and emergencies alone, adds no
    document or blob, and keeps every document whose [expiresAt] is not
    before [now] (one that expires exactly at [now] stays).  When at most
    200 rows have expired, none of them is left afterwards. *)
Theorem cleanup_sweeps_expired_documents (now : Z) (db : Db) :
  documents_keyed db →
  users (cleanupExpiredDocuments now db) = users db
  ∧ emergencies (cleanupExpiredDocuments now db) = emergencies db
  ∧ blobs (cleanupExpiredDocuments now db) ⊆ blobs db
  ∧ (∀ k d, documents (cleanupExpiredDocuments now db) !! k = Some d →
       documents db !! k = Some d)
  ∧ (∀ k d, documents db !! k = Some d → now ≤ MedicalDocument.expiresAt d →
       documents (cleanupExpiredDocuments now db) !! k = Some d)
  ∧ ((length (filter (fun d => (MedicalDocument.expiresAt d < now)%Z)
                (map_to_list (documents db)).*2) ≤ 200)%nat →
     ∀ k d, documents (cleanupExpiredDocuments now db) !! k = Some d →
       now ≤ MedicalDocument.expiresAt d).
Proof.
  intros Hkeyed. unfold cleanupExpiredDocuments. cbv zeta.
  set (expired := filter (fun d => MedicalDocument.expiresAt d < now)
                    (map_to_list (documents db)).*2).
  destruct (delete_documents_fold (take 200 expired) db) as (Hu & He & Hb & Hd).
  assert (∀ d, d ∈ expired
               ↔ documents db !! MedicalDocument.id d = Some d
                 ∧ MedicalDocument.expiresAt d < now) as Hexp.
  { intros d. unfold expired. rewrite list_elem_of_filter, list_elem_of_fmap. split.
    - intros [Hlt ([k d'] & -> & Hk)]. apply elem_of_map_to_list in Hk. simpl in *.
      by rewrite (Hkeyed _ _ Hk).
    - intros [Hk Hlt]. split; [done|]. exists (MedicalDocument.id d, d).
      split; [done|]. by apply elem_of_map_to_list. }
  split; [done|]. split; [done|]. split; [done|]. split; [|split].
  - intros k d. rewrite Hd. by destruct (bool_decide _).
  - intros k d Hk Hlive. rewrite Hd. rewrite bool_decide_eq_false_2; [done|].
    intros (d' & -> & Hin)%list_elem_of_fmap.
    apply elem_of_take in Hin as (i & Hin & _).
    apply list_elem_of_lookup_2, Hexp in Hin as [Hk' Hlt].
    assert (d' = d) as -> by congruence. lia.
  - intros Hfew k d. rewrite Hd, take_ge by done.
    destruct (decide (k ∈ MedicalDocument.id <$> expired)) as [Hin|Hnin].
    { by rewrite bool_decide_eq_true_2. }
    rewrite bool_decide_eq_false_2 by done. intros Hk.
    destruct (Z.le_gt_cases now (MedicalDocument.expiresAt d)) as [|Hlt]; [done|].
    destruct Hnin. apply list_elem_of_fmap. exists d.
    split; [by rewrite (Hkeyed _ _ Hk)|]. apply Hexp.
    by rewrite (Hkeyed _ _ Hk).
Qed.

(** X18.  A document saved at [now0] is served to a token holder with
    access at every clock reading before [now0] plus one hour; from that
    reading on the answer is 410, and the request removes the row. *)
Theorem saved_document_lives_one_hour `{TokenCrypto} (secret : option string)
    (token : string) (p : DocumentTokenPayload) (now0 now : Z) (eid freshId : string)
    (uploadResult : UploadResult) (signed_https : bool) (db : Db) (e : Emergency.t) :
  verifyDocumentToken secret now token = Some p →
  documentId p = freshId →
  emergencies db !! eid = Some e →
  allowed p e = true →
  (saveDocumentReference eid uploadResult freshId now0 db).1 = (freshId, now0 + 3600000)
  ∧ (now < now0 + 3600000 →
     documents_view_GET secret (Some token) true signed_https now
       (saveDocumentReference eid uploadResult freshId now0 db).2
     = (respond 200 (ViewContent (ur_url uploadResult)),
        (saveDocumentReference eid uploadResult freshId now0 db).2))
  ∧ (now0 + 3600000 ≤ now →
     ∃ db',
       documents_view_GET secret (Some token) true signed_https now
         (saveDocumentReference eid uploadResult freshId now0 db).2
       = (respond 410 (ViewError "Document expired"), db')
       ∧ documents db' !! freshId = None).
Proof.
  intros Hv Hid He Hallowed. split; [done|].
  unfold documents_view_GET.
  rewrite (verified_token_nonempty _ _ _ _ Hv), Hv, Hid. simpl.
  rewrite lookup_insert_eq. simpl. split.
  - intros Hlt. destruct (Z.leb_spec (now0 + 60 * 60 * 1000) now); [lia|].
    by rewrite He, Hallowed.
  - intros Hge. destruct (Z.leb_spec (now0 + 60 * 60 * 1000) now); [|lia].
    eexists. split; [done|]. simpl. by rewrite lookup_delete_eq.
Qed.

(** ** The upload route *)

Lemma uploads_POST_created `{TokenCrypto} (JSON_stringify : DocumentTokenPayload → string)
    (secret : option string) (ru : option RequestUser) (file : option UploadFile)
    (eid docType : option string) (uploaded : option Uploaded) (freshId : string) (now : Z)
    (db db' : Db) (id ty : string) (size expiresAt : Z) (token : string) :
  uploads_POST JSON_stringify secret ru file eid docType uploaded freshId now db
  = (respond 201 (UploadOk id ty size expiresAt token), db') →
  ∃ uid k e f up,
    ru = Some {| ru_id := uid; ru_role := patient |}
    ∧ truthy_string eid = Some k
    ∧ emergencies db !! k = Some e ∧ Emergency.patientId e = uid
    ∧ file = Some f ∧ file_type f ∈ allowedTypes ∧ file_size f ≤ 5 * 1024 * 1024
    ∧ uploaded = Some up
    ∧ id = freshId ∧ expiresAt = now + 60 * 60 * 1000
    ∧ createDocumentToken JSON_stringify secret freshId uid "patient" (Some 300) now
      = Some token
    ∧ db'
      = {| users := users db; emergencies := emergencies db;
           documents :=
             <[freshId :=
                 {| MedicalDocument.id := freshId;
                    MedicalDocument.emergencyId := k;
                    MedicalDocument.url := up_url up;
                    MedicalDocument.cloudinaryId := up_publicId up;
                    MedicalDocument.expiresAt := now + 60 * 60 * 1000;
                    MedicalDocument.createdAt := now |}]> (documents db);
           blobs := {[up_publicId up]} ∪ blobs db |}.
Proof.
  unfold uploads_POST. destruct ru as [[uid []]|]; try done.
  destruct file as [f|]; [|done]. destruct (truthy_string eid) as [k|]; [|done].
  destruct (bool_decide (file_type f ∈ allowedTypes)) eqn:Hty; [|done].
  apply bool_decide_eq_true in Hty. simpl negb. cbv iota.
  destruct (Z.ltb_spec (5 * 1024 * 1024) (file_size f)) as [|Hsize]; [done|].
  destruct (emergencies db !! k) as [e|] eqn:He; [|done].
  destruct (bool_decide (Emergency.patientId e = uid)) eqn:Hown; [|done].
  apply bool_decide_eq_true in Hown. simpl negb. cbv iota.
  destruct uploaded as [up|]; [|done]. cbv zeta. simpl.
  destruct (createDocumentToken _ _ _ _ _ _ _) as [tk|] eqn:Htk; [|done].
  intros [= <- <- <- <- <- <-]. by exists uid, k, e, f, up.
Qed.

(** X19.  An upload is answered 201 only to the patient of the named case,
    for a PDF, JPEG, PNG or WebP file of at most 5 MiB.  It adds one document
    row, attached to that case and expiring one hour after the request, and
    the blob; users and emergencies are as before. *)
Theorem upload_is_by_the_patient_of_the_case `{TokenCrypto}
    (JSON_stringify : DocumentTokenPayload → string)
    (secret : option string) (ru : option RequestUser) (file : option UploadFile)
    (eid docType : option string) (uploaded : option Uploaded) (freshId : string) (now : Z)
    (db db' : Db) (id ty : string) (size expiresAt : Z) (token : string) :
  uploads_POST JSON_stringify secret ru file eid docType uploaded freshId now db
  = (respond 201 (UploadOk id ty size expiresAt token), db') →
  ∃ uid k e f doc,
    ru = Some {| ru_id := uid; ru_role := patient |}
    ∧ truthy_string eid = Some k
    ∧ emergencies db !! k = Some e ∧ Emergency.patientId e = uid
    ∧ file = Some f ∧ file_type f ∈ allowedTypes ∧ file_size f ≤ 5242880
    ∧ id = freshId ∧ expiresAt = now + 3600000
    ∧ documents db' = <[freshId := doc]> (documents db)
    ∧ MedicalDocument.id doc = freshId
    ∧ MedicalDocument.emergencyId doc = k
    ∧ MedicalDocument.expiresAt doc = now + 3600000
    ∧ blobs db' = {[MedicalDocument.cloudinaryId doc]} ∪ blobs db
    ∧ users db' = users db ∧ emergencies db' = emergencies db.
Proof.
  intros Hpost. apply uploads_POST_created in Hpost
    as (uid & k & e & f & up & -> & Hk & He & Hown & -> & Hty & Hsize & -> & -> & -> & _ & ->).
  eexists uid, k, e, f, _. simpl. repeat split; try done.
Qed.

(** X20.  The view token an upload returns lets the uploader read the
    document through the view route until [exp], 300 seconds after the
    upload; from the next second on the answer is 401, although the document
    itself lives for an hour.  The verifier's decoder is taken to be
    [base64urlToBuffer], [JSON.parse] to read what [JSON.stringify] wrote,
    and the digest and the JSON text to be non-empty. *)
Theorem uploaded_document_is_viewable_for_five_minutes `{TokenCrypto}
    (JSON_stringify : DocumentTokenPayload → string)
    (secret uid : string) (file : option UploadFile)
    (eid docType : option string) (uploaded : option Uploaded) (freshId : string) (now : Z)
    (db db' : Db) (id ty : string) (size expiresAt : Z) (token : string) :
  let payload :=
    {| documentId := freshId; userId := uid; tk_role := "patient";
       exp := now / 1000 + 300 |} in
  (∀ s, base64urlToBuffer s = Base64Url.base64urlToBuffer s) →
  JSON_parse (JSON_stringify payload) = Some payload →
  JSON_stringify payload ≠ "" →
  hmac_sha256 secret (Base64Url.base64url (JSON_stringify payload)) ≠ "" →
  freshId ≠ "" → uid ≠ "" → 0 ≤ now →
  uploads_POST JSON_stringify (Some secret) (Some {| ru_id := uid; ru_role := patient |})
    file eid docType uploaded freshId now db
  = (respond 201 (UploadOk id ty size expiresAt token), db') →
  ∃ doc,
    documents db' !! id = Some doc
    ∧ ∀ t signed_https,
        (t / 1000 ≤ now / 1000 + 300 →
         documents_view_GET (Some secret) (Some token) true signed_https t db'
         = (respond 200 (ViewContent (MedicalDocument.url doc)), db'))
        ∧ (now / 1000 + 300 < t / 1000 →
           documents_view_GET (Some secret) (Some token) true signed_https t db'
           = (respond 401 (ViewError "Invalid or expired token"), db')).
Proof.
  intros payload Hcodec Hjson Hstr Hsig Hfresh Huid Hnow Hpost.
  apply uploads_POST_created in Hpost
    as (uid' & k & e & f & up & [= <-] & Hk & He & Hown & -> & Hty & Hsize & -> & -> & ->
        & Htk & ->).
  destruct (createDocumentToken_verifies JSON_stringify secret freshId uid "patient"
              (Some 300) now Hcodec Hjson Hstr Hsig) as (token' & Htk' & Hv).
  rewrite Htk in Htk'. injection Htk' as <-.
  eexists. split; [by simpl; rewrite lookup_insert_eq|].
  assert (String.eqb freshId "" = false) as Hf by (by apply String.eqb_neq).
  assert (String.eqb uid "" = false) as Hu by (by apply String.eqb_neq).
  assert ((now / 1000 + 300 =? 0) = false) as Hexp.
  { apply Z.eqb_neq. pose proof (Z.div_pos now 1000 Hnow). lia. }
  assert (∀ t, verifyDocumentToken (Some secret) t token
               = if now / 1000 + 300 <? t / 1000 then None else Some payload) as Hv'.
  { intros t. rewrite (Hv t). simpl exp. by rewrite Hf, Hu, Hexp. }
  intros t signed_https.
  assert (token ≠ "") as Htoken.
  { intros ->. specialize (Hv' now). rewrite verifyDocumentToken_empty in Hv'.
    by destruct (Z.ltb_spec (now / 1000 + 300) (now / 1000)); [lia|]. }
  unfold documents_view_GET. rewrite (truthy_string_Some token Htoken), (Hv' t). split.
  - intros Hle. destruct (Z.ltb_spec (now / 1000 + 300) (t / 1000)); [lia|].
    simpl. rewrite lookup_insert_eq. simpl.
    destruct (Z.leb_spec (now + 60 * 60 * 1000) t) as [Hlate|_].
    { pose proof (Z.mul_div_le now 1000). pose proof (Z.mod_pos_bound t 1000).
      pose proof (Z.div_mod t 1000). lia. }
    rewrite He. unfold allowed. simpl. rewrite Hown.
    by rewrite bool_decide_eq_true_2.
  - intros Hgt. by destruct (Z.ltb_spec (now / 1000 + 300) (t / 1000)); [|lia].
Qed.

(** X21.  An upload request that passes every check while no token secret
    is configured is answered 500 after the document has been stored: the
    row and the blob are there.  Every answer other than 201 and 500 comes
    with the database as it was. *)
Theorem upload_without_secret_stores_then_fails `{TokenCrypto}
    (JSON_stringify : DocumentTokenPayload → string) :
  (∀ uid f k docType up freshId now db e,
     k ≠ "" → emergencies db !! k = Some e → Emergency.patientId e = uid →
     file_type f ∈ allowedTypes → file_size f ≤ 5242880 →
     ∃ doc db',
       uploads_POST JSON_stringify None (Some {| ru_id := uid; ru_role := patient |})
         (Some f) (Some k) docType (Some up) freshId now db
       = (respond 500 (UploadError "Failed to upload document"), db')
       ∧ documents db' !! freshId = Some doc
       ∧ MedicalDocument.emergencyId doc = k
       ∧ MedicalDocument.cloudinaryId doc = up_publicId up
       ∧ up_publicId up ∈ blobs db')
  ∧ (∀ secret ru file eid docType uploaded freshId now db,
       httpStatus
         (uploads_POST JSON_stringify secret ru file eid docType uploaded freshId now db).1
       ≠ 201 →
       httpStatus
         (uploads_POST JSON_stringify secret ru file eid docType uploaded freshId now db).1
       ≠ 500 →
       (uploads_POST JSON_stringify secret ru file eid docType uploaded freshId now db).2
       = db).
Proof.
  split.
  - intros uid f k docType up freshId now db e Hk He Hown Hty Hsize.
    unfold uploads_POST. rewrite (truthy_string_Some k Hk).
    rewrite (bool_decide_eq_true_2 _ Hty). simpl negb. cbv iota.
    destruct (Z.ltb_spec (5 * 1024 * 1024) (file_size f)); [lia|].
    rewrite He, (bool_decide_eq_true_2 _ Hown). simpl.
    eexists _, _. split; [done|]. simpl. rewrite lookup_insert_eq.
    repeat split; try done. apply elem_of_union_l. by apply elem_of_singleton.
  - intros secret ru file eid docType uploaded freshId now db.
    unfold uploads_POST. destruct ru as [[uid []]|]; try done.
    destruct file as [f|]; [|done]. destruct (truthy_string eid) as [k|]; [|done].
    destruct (negb _); [done|]. destruct (_ <? _); [done|].
    destruct (emergencies db !! k) as [e|]; [|done].
    destruct (negb _); [done|]. destruct uploaded as [up|]; [|done].
    cbv zeta. simpl. by destruct (createDocumentToken _ _ _ _ _ _ _).
Qed.

Lemma mapM_tagged {A B} (f : A → option B) (l : list A) (k : list (A * B)) :
  mapM (fun d => (fun t => (d, t)) <$> f d) l = Some k →
  k.*1 = l ∧ ∀ d t, (d, t) ∈ k → f d = Some t.
Proof.
  revert k. induction l as [|x l IH]; intros k; simpl.
  - intros [= <-]. split; [done|]. by intros d t ?%elem_of_nil.
  - destruct (f x) as [t|] eqn:Hx; [|done]. simpl.
    destruct (mapM _ l) as [k'|] eqn:Hk'; [|done]. simpl. intros [= <-].
    destruct (IH k' eq_refl) as [Hfst Hall]. split; [by rewrite fmap_cons, Hfst|].
    intros d t' [[= -> ->]|Hin]%elem_of_cons; [done|]. by apply Hall.
Qed.

(** X22.  The document listing answers 200 only to a user with access to
    the case: its patient, its assigned hospital or its assigned driver.
    The list is the unexpired documents attached to the case, newest first,
    each with a 300-second view token made for the requester. *)
Theorem document_listing_is_gated `{TokenCrypto}
    (JSON_stringify : DocumentTokenPayload → string) (secret : option string)
    (ru : option RequestUser) (eid : option string) (now : Z) (db : Db)
    (l : list (MedicalDocument.t * string)) :
  uploads_GET JSON_stringify secret ru eid now db = respond 200 (DocumentsOk l) →
  ∃ u k e,
    ru = Some u ∧ truthy_string eid = Some k
    ∧ emergencies db !! k = Some e ∧ hasAccess u e = true
    ∧ l.*1 = getEmergencyDocuments k now db
    ∧ (∀ d, d ∈ l.*1 ↔ d ∈ documents_of k db ∧ now < MedicalDocument.expiresAt d)
    ∧ ordered_by (fun a b => MedicalDocument.createdAt b ≤ MedicalDocument.createdAt a)
        l.*1
    ∧ ∀ d token, (d, token) ∈ l →
        createDocumentToken JSON_stringify secret (MedicalDocument.id d) (ru_id u)
          (role_string (ru_role u)) (Some 300) now = Some token.
Proof.
  unfold uploads_GET. destruct ru as [u|]; [|done].
  destruct (truthy_string eid) as [k|]; [|done].
  destruct (emergencies db !! k) as [e|] eqn:He; [|done].
  destruct (hasAccess u e) eqn:Hacc; [|done]. simpl negb. cbv iota.
  destruct (mapM _ _) as [docs|] eqn:Hdocs; [|done]. intros [= <-].
  apply mapM_tagged in Hdocs as [Hfst Htok].
  exists u, k, e. split; [done|]. split; [done|]. split; [done|]. split; [done|].
  split; [done|]. rewrite Hfst. split; [|split; [|done]].
  - intros d. unfold getEmergencyDocuments.
    rewrite elem_of_sort_by, list_elem_of_filter. unfold unexpired. rewrite Z.ltb_lt. tauto.
  - apply StronglySorted_ordered_by. unfold getEmergencyDocuments.
    eapply StronglySorted_impl;
      [|apply (sort_by_sorted
                 (fun a b => MedicalDocument.createdAt b <? MedicalDocument.createdAt a))].
    + intros a b Hab. simpl in Hab. by apply Z.ltb_ge in Hab.
    + intros a b c. rewrite !Z.ltb_ge. lia.
    + intros a b. rewrite Z.ltb_lt, Z.ltb_ge. lia.
Qed.

(** X23.  A document is deleted only at the request of the patient of the
    named case, and only when it is attached to that case; its row is then
    gone, and no other row, user or emergency changes.  Every other answer
    comes with the database as it was. *)
Theorem document_delete_is_by_the_patient :
  (∀ ru documentId emergencyId db db',
     uploads_DELETE ru documentId emergencyId db = (respond 200 DeleteOk, db') →
     ∃ u did eid e doc,
       ru = Some u ∧ truthy_string documentId = Some did
       ∧ truthy_string emergencyId = Some eid
       ∧ emergencies db !! eid = Some e ∧ Emergency.patientId e = ru_id u
       ∧ documents db !! did = Some doc ∧ MedicalDocument.emergencyId doc = eid
       ∧ documents db' !! did = None
       ∧ (∀ k, k ≠ did → documents db' !! k = documents db !! k)
       ∧ blobs db' ⊆ blobs db
       ∧ users db' = users db ∧ emergencies db' = emergencies db)
  ∧ (∀ ru documentId emergencyId db,
       httpStatus (uploads_DELETE ru documentId emergencyId db).1 ≠ 200 →
       (uploads_DELETE ru documentId emergencyId db).2 = db).
Proof.
  split.
  - intros ru documentId emergencyId db db'. unfold uploads_DELETE.
    destruct ru as [u|]; [|done].
    destruct (truthy_string documentId) as [did|]; [|done].
    destruct (truthy_string emergencyId) as [eid|]; [|done].
    destruct (emergencies db !! eid) as [e|] eqn:He; [|done].
    destruct (bool_decide (Emergency.patientId e = ru_id u)) eqn:Hown; [|done].
    apply bool_decide_eq_true in Hown. simpl negb. cbv iota.
    destruct (documents db !! did) as [doc|] eqn:Hdoc; [|done].
    destruct (bool_decide (MedicalDocument.emergencyId doc = eid)) eqn:Hatt; [|done].
    apply bool_decide_eq_true in Hatt. simpl negb. cbv iota. intros [= <-].
    exists u, did, eid, e, doc. simpl. repeat split; try done.
    + by rewrite lookup_delete_eq.
    + intros k Hk. by rewrite lookup_delete_ne.
    + intros x Hx. by apply elem_of_difference in Hx as [? _].
  - intros ru documentId emergencyId db. unfold uploads_DELETE.
    destruct ru as [u|]; [|done].
    destruct (truthy_string documentId) as [did|]; [|done].
    destruct (truthy_string emergencyId) as [eid|]; [|done].
    destruct (emergencies db !! eid) as [e|]; [|done].
    destruct (negb _); [done|]. destruct (documents db !! did) as [doc|]; [|done].
    by destruct (negb _).
Qed.

(** ** The user location route *)

Lemma user_update_spec (uid : string) (f : User.t → User.t) (us us' : list User.t)
    (u' : User.t) :
  (∀ u, User.id (f u) = User.id u) →
  user_update uid f us = Some (u', us') →
  ∃ u, find_user uid us = Some u ∧ u' = f u
       ∧ find_user uid us' = Some (f u)
       ∧ (∀ k, k ≠ uid → find_user k us' = find_user k us)
       ∧ u' ∈ us'
       ∧ (∀ x, x ∈ us' → x = u' ∨ x ∈ us).
Proof.
  intros Hid. revert us' u'. unfold find_user.
  induction us as [|x us IH]; intros us' u'; simpl; [done|].
  destruct (String.eqb_spec (User.id x) uid) as [Hx|Hx].
  - intros [= <- <-]. exists x. simpl. rewrite Hid.
    destruct (String.eqb_spec (User.id x) uid); [|done].
    repeat split; try done.
    + intros k Hk. destruct (String.eqb_spec (User.id x) k); [congruence|done].
    + by left.
    + intros y [->|Hy]%elem_of_cons; [by left|right; by right].
  - destruct (user_update uid f us) as [[u1 us1]|] eqn:Hup; [|done].
    intros [= <- <-]. destruct (IH _ _ eq_refl) as (u & Hf & -> & Hf' & Hother & Hin & Hsub).
    exists u. simpl. destruct (String.eqb_spec (User.id x) uid); [done|].
    repeat split; try done.
    + intros k Hk. destruct (String.eqb_spec (User.id x) k); [done|]. by apply Hother.
    + by right.
    + intros y [->|Hy]%elem_of_cons; [right; by left|].
      destruct (Hsub y Hy) as [->|?]; [by left|right; by right].
Qed.

Lemma omap_length_le {A B} (f : A → option B) (l : list A) :
  (length (omap f l) ≤ length l)%nat.
Proof. induction l as [|x l IH]; csimpl; [done|]. destruct (f x); csimpl; lia. Qed.

Lemma invalid_coordinate_test (lat lng : Q) :
  Qltb lat (-90) || Qltb 90 lat || Qltb lng (-180) || Qltb 180 lng
  = negb (isValidCoordinate lat lng).
Proof.
  unfold isValidCoordinate, Qltb.
  by destruct (Qle_bool (-90) lat), (Qle_bool lat 90), (Qle_bool (-180) lng),
       (Qle_bool lng 180).
Qed.

(** X24.  The user location route stores a position only when it passes the
    range test of [isValidCoordinate], and refuses the others with 400.  A
    stored position rewrites the requester's own account alone: latitude,
    longitude and address (erased when the request carries none); role,
    activity and license stay, emergencies and documents are untouched.  An
    active hospital is ranked by the new position from then on. *)
Theorem user_location_is_range_checked_and_own `{GeoOracle} :
  (∀ ru lat lng address db,
     isValidCoordinate lat lng = false →
     user_location_POST (Some ru) (Some lat) (Some lng) address db
     = (respond 400 (LocationError "Invalid coordinates"), db))
  ∧ (∀ ru lat lng address db r db',
       user_location_POST ru lat lng address db = (r, db') →
       httpStatus r ≠ 200 → db' = db)
  ∧ (∀ ru lat lng address db r db',
       user_location_POST ru lat lng address db = (r, db') →
       httpStatus r = 200 →
       ∃ u la lo old,
         ru = Some u ∧ lat = Some la ∧ lng = Some lo
         ∧ isValidCoordinate la lo = true
         ∧ find_user (ru_id u) (users db) = Some old
         ∧ find_user (ru_id u) (users db')
           = Some (set_location la lo (truthy_string address) old)
         ∧ (∀ k, k ≠ ru_id u → find_user k (users db') = find_user k (users db))
         ∧ emergencies db' = emergencies db ∧ documents db' = documents db
         ∧ blobs db' = blobs db
         ∧ (active_hospital old →
            ∀ pla plo,
              {| h_user := set_location la lo (truthy_string address) old;
                 h_distance := calculateDistance pla plo la lo |}
              ∈ findNearestHospitals pla plo (length (users db')) (users db'))).
Proof.
  split; [|split].
  - intros ru lat lng address db Hbad. unfold user_location_POST.
    by rewrite invalid_coordinate_test, Hbad.
  - intros ru lat lng address db r db'. unfold user_location_POST.
    destruct ru as [u|]; [|by intros [= <- <-]].
    destruct lat as [la|], lng as [lo|]; try by intros [= <- <-].
    destruct (_ || _); [by intros [= <- <-]|].
    destruct (user_update _ _ _) as [[u' us']|]; [|by intros [= <- <-]].
    by intros [= <- <-].
  - intros ru lat lng address db r db'. unfold user_location_POST.
    destruct ru as [u|]; [|by intros [= <- <-]].
    destruct lat as [la|], lng as [lo|]; try by intros [= <- <-].
    rewrite invalid_coordinate_test.
    destruct (isValidCoordinate la lo) eqn:Hvalid; [|by intros [= <- <-]].
    simpl negb. cbv iota.
    destruct (user_update _ _ _) as [[u' us']|] eqn:Hup; [|by intros [= <- <-]].
    intros [= <- <-] _.
    apply user_update_spec in Hup as (old & Hold & -> & Hnew & Hother & Hin & _); [|done].
    exists u, la, lo, old. simpl. repeat split; try done.
    intros [Hrole Hact] pla plo. unfold findNearestHospitals.
    rewrite take_ge.
    2:{ rewrite (Permutation_length (sort_by_Permutation _ _)).
        apply omap_length_le. }
    apply elem_of_sort_by, list_elem_of_omap.
    eexists. split; [exact Hin|]. unfold rank_hospital. simpl.
    by rewrite Hrole, Hact, bool_decide_eq_true_2.
Qed.

(** ** The dashboards' watcher and polling loops *)

Lemma onPosition_spec (prev : option Sent) (lat lng : Q) (now : Z) :
  (onPosition prev lat lng now
   = (Some {| sent_at := now; sent_lat := lat; sent_lng := lng |}, true)
   ∧ match prev with
     | None => True
     | Some p =>
       5000 < now - sent_at p
       ∧ ((15 # 100000 < Qabs (lat - sent_lat p))%Q
          ∨ (15 # 100000 < Qabs (lng - sent_lng p))%Q)
     end)
  ∨ onPosition prev lat lng now = (prev, false).
Proof.
  unfold onPosition. destruct prev as [p|]; [|by left].
  unfold movedEnough, timeEnough.
  destruct (Qltb (15 # 100000) (Qabs (lat - sent_lat p))
            || Qltb (15 # 100000) (Qabs (lng - sent_lng p))) eqn:Hmoved;
    [|by right].
  destruct (Z.ltb_spec 5000 (now - sent_at p)) as [Htime|_]; [|by right].
  left. split; [done|]. split; [done|].
  apply orb_true_iff in Hmoved. by rewrite !Qltb_true in Hmoved.
Qed.

Lemma watch_after (prev : option Sent) (readings : list (Q * Q * Z)) :
  ∀ s, head (watch prev readings) = Some s →
    match prev with
    | None => True
    | Some p =>
      5000 < sent_at s - sent_at p
      ∧ ((15 # 100000 < Qabs (sent_lat s - sent_lat p))%Q
         ∨ (15 # 100000 < Qabs (sent_lng s - sent_lng p))%Q)
    end.
Proof.
  induction readings as [|[[lat lng] now] rest IH]; intros s; cbn [watch]; [done|].
  destruct (onPosition_spec prev lat lng now) as [[-> Hok]| ->]; [|apply IH].
  by intros [= <-].
Qed.

(** X27.  The location watcher sends its first reading.  Two positions sent
    one after the other are more than 5 seconds apart and differ by more
    than 0.00015 degrees in latitude or longitude: a device that stays
    where it last reported never reports again, and a moving one reports at
    most once in 5 seconds. *)
Theorem watcher_sends_moved_and_spaced (readings : list (Q * Q * Z)) :
  (∀ lat lng now rest,
     readings = (lat, lng, now) :: rest →
     head (watch None readings)
     = Some {| sent_at := now; sent_lat := lat; sent_lng := lng |})
  ∧ (∀ i a b,
       watch None readings !! i = Some a → watch None readings !! S i = Some b →
       5000 < sent_at b - sent_at a
       ∧ ((15 # 100000 < Qabs (sent_lat b - sent_lat a))%Q
          ∨ (15 # 100000 < Qabs (sent_lng b - sent_lng a))%Q))
  ∧ (∀ p lat lng now,
       (lat == sent_lat p)%Q → (lng == sent_lng p)%Q →
       onPosition (Some p) lat lng now = (Some p, false))
  ∧ (∀ p lat lng now,
       now - sent_at p ≤ 5000 → onPosition (Some p) lat lng now = (Some p, false)).
Proof.
  split; [by intros lat lng now rest ->|]. split; [|split].
  - generalize (@None Sent). induction readings as [|[[lat lng] now] rest IH];
      intros prev i a b; cbn [watch]; [done|].
    destruct (onPosition_spec prev lat lng now) as [[-> _]| ->]; [|apply IH].
    destruct i as [|i]; [|apply IH].
    intros [= <-] Hb.
    apply (watch_after (Some {| sent_at := now; sent_lat := lat; sent_lng := lng |})
             rest b).
    change (watch (Some {| sent_at := now; sent_lat := lat; sent_lng := lng |}) rest
            !! 0%nat = Some b) in Hb.
    by destruct (watch _ rest).
  - intros p lat lng now Hlat Hlng. unfold onPosition, movedEnough.
    assert (Qltb (15 # 100000) (Qabs (lat - sent_lat p)) = false) as ->.
    { apply Qltb_false. unfold Qminus. by rewrite Hlat, Qplus_opp_r. }
    assert (Qltb (15 # 100000) (Qabs (lng - sent_lng p)) = false) as ->.
    { apply Qltb_false. unfold Qminus. by rewrite Hlng, Qplus_opp_r. }
    done.
  - intros p lat lng now Hsoon. unfold onPosition, timeEnough.
    destruct (Z.ltb_spec 5000 (now - sent_at p)); [lia|]. simpl negb.
    by rewrite orb_true_r.
Qed.

Lemma tick_bounds (base : Z) (ok : bool) (failures : Z) :
  0 < base → base ≤ 60000 → 0 ≤ failures →
  0 ≤ (tick base ok failures).1 ≤ 6
  ∧ base ≤ (tick base ok failures).2 ≤ 60000
  ∧ (tick base ok failures).2 ≤ 7 * base.
Proof.
  intros Hbase Hcap Hf. unfold tick. cbv zeta. destruct ok; simpl.
  - lia.
  - destruct (Z.ltb_spec 0 (Z.min 6 (failures + 1))); nia.
Qed.

Lemma delays_cons (base failures : Z) (ok : bool) (rest : list bool) :
  delays base failures (ok :: rest)
  = (tick base ok failures).2 :: delays base (tick base ok failures).1 rest.
Proof. cbn [delays]. by destruct (tick base ok failures). Qed.

(** X28.  A polling loop waits at least its base interval and at most 60
    seconds (and at most seven base intervals) between polls, whatever the
    outcomes; a poll that succeeds brings the wait back to the base
    interval, and the [k]-th failure in a row makes it
    [min(60000, base * (min(6, k) + 1))]. *)
Theorem polling_backoff_is_bounded (base : Z) :
  0 < base → base ≤ 60000 →
  (∀ failures outcomes d,
     0 ≤ failures → d ∈ delays base failures outcomes → base ≤ d ≤ 60000 ∧ d ≤ 7 * base)
  ∧ (∀ failures, tick base true failures = (0, base))
  ∧ (∀ k : nat,
       last (delays base 0 (replicate (S k) false))
       = Some (Z.min 60000 (base * (Z.min 6 (Z.of_nat (S k)) + 1)))).
Proof.
  intros Hbase Hcap. split; [|split].
  - intros failures outcomes. revert failures.
    induction outcomes as [|ok rest IH]; intros failures d Hf; cbn [delays];
      [by intros ?%elem_of_nil|].
    pose proof (tick_bounds base ok failures Hbase Hcap Hf) as (Hf' & Hd & Hd').
    destruct (tick base ok failures) as [failures' backoff]. cbn [fst snd] in *.
    intros [->|Hin]%elem_of_cons; [done|]. apply (IH failures'); [lia|done].
  - done.
  - intros k.
    assert (∀ (n : nat) f, 0 ≤ f →
              last (delays base f (replicate (S n) false))
              = Some (Z.min 60000 (base * (Z.min 6 (f + Z.of_nat (S n)) + 1)))) as Hrun.
    { induction n as [|n IH]; intros f Hf.
      - simpl. unfold tick. cbv zeta.
        by destruct (Z.ltb_spec 0 (Z.min 6 (f + 1))); [|lia].
      - change (replicate (S (S n)) false) with (false :: replicate (S n) false).
        rewrite delays_cons. specialize (IH (tick base false f).1).
        change (replicate (S n) false) with (false :: replicate n false) in *.
        rewrite delays_cons in *. rewrite last_cons_cons, IH by (unfold tick; simpl; lia).
        unfold tick. cbn [fst].
        by replace (Z.min 6 (Z.min 6 (f + 1) + Z.of_nat (S n)))
             with (Z.min 6 (f + Z.of_nat (S (S n)))) by lia. }
    by rewrite Hrun.
Qed.

(** ** What a dispatch picks *)

Lemma nearest_hospital_least `{GeoOracle} (la lo : Q) (n : nat) (us : list User.t)
    (h : RankedHospital) (rest : list RankedHospital) (u : User.t) (a b : Q) :
  findNearestHospitals la lo n us = h :: rest →
  u ∈ us → active_hospital u → user_location u = Some (a, b) →
  (h_distance h <= calculateDistance la lo a b)%Q.
Proof.
  unfold findNearestHospitals. intros Hhead Hu Hact Hloc.
  assert ({| h_user := u; h_distance := calculateDistance la lo a b |}
          ∈ sort_by (fun a b => Qltb (h_distance a) (h_distance b))
              (omap (rank_hospital la lo) us)) as Hin.
  { apply elem_of_sort_by, list_elem_of_omap. exists u. split; [done|].
    apply rank_hospital_spec. eauto. }
  pose proof (hospitals_sorted (omap (rank_hospital la lo) us)) as Hs.
  destruct (sort_by _ _) as [|h0 sorted']; [by destruct n|].
  destruct n as [|n]; [done|]. simpl in Hhead. injection Hhead as -> _.
  destruct (sorted_head_least _ _ _ _ Hs Hin) as [Heq|Hle].
  - rewrite <- Heq. simpl. apply Qle_refl.
  - by apply Qltb_false in Hle.
Qed.

Lemma nearest_ambulance_least `{GeoOracle} (la lo : Q) (n : nat) (license : option string)
    (us : list User.t) (a : RankedDriver) (rest : list RankedDriver) (u : User.t) :
  findNearestAmbulances la lo n license us = a :: rest →
  u ∈ us → driver_candidate license u = true →
  driver_before (rank_driver la lo u) a = false.
Proof.
  unfold findNearestAmbulances. intros Hhead Hu Hc.
  assert (rank_driver la lo u
          ∈ sort_by driver_before
              (rank_driver la lo <$> filter (fun u => driver_candidate license u = true) us))
    as Hin.
  { apply elem_of_sort_by, list_elem_of_fmap. exists u. split; [done|].
    by apply list_elem_of_filter. }
  pose proof (sort_by_sorted driver_before
                (rank_driver la lo <$> filter (fun u => driver_candidate license u = true) us)
                driver_before_chain driver_before_asym) as Hs.
  destruct (sort_by _ _) as [|a0 sorted']; [by destruct n|].
  destruct n as [|n]; [done|]. simpl in Hhead. injection Hhead as -> _.
  destruct (sorted_head_least _ _ _ _ Hs Hin) as [->|Hle]; [|done].
  unfold driver_before. destruct (a_distance a) as [x|]; [|done].
  rewrite orb_false_iff, andb_false_iff. split; [apply Qltb_false, Qle_refl|].
  right. destruct (String.ltb _ _) eqn:Hlt; [|done].
  by rewrite (string_ltb_asym _ _ Hlt) in Hlt.
Qed.

(** X25.  When an SOS is dispatched with an ambulance, the row records the
    active hospital with coordinates whose rounded distance from the patient
    is least, and an active driver carrying that hospital's license.  If
    any such driver has a known position, the recorded one has, and none is
    nearer. *)
Theorem dispatch_assigns_the_nearest `{GeoOracle} (uid : string) (la lo : Q)
    (addr symptoms : option string) (ai : option AiResult) (freshId : string) (now : Z)
    (db : Db) (h : RankedHospital) (license : string) (a : RankedDriver) :
  dispatch_of la lo (users db) = DriverFound h license a →
  (∃ e,
     emergencies
       (sos_POST (Some {| ru_id := uid; ru_role := patient |})
          (Some {| lat := Some la; lng := Some lo; loc_address := addr |})
          symptoms ai freshId now db).2 !! freshId = Some e
     ∧ Emergency.status e = assigned
     ∧ Emergency.assignedHospitalId e = Some (User.id (h_user h))
     ∧ Emergency.assignedDriverId e = Some (User.id (a_user a)))
  ∧ h_user h ∈ users db ∧ active_hospital (h_user h)
  ∧ (∀ u x y, u ∈ users db → active_hospital u → user_location u = Some (x, y) →
       (h_distance h <= calculateDistance la lo x y)%Q)
  ∧ a_user a ∈ users db
  ∧ User.role (a_user a) = driver ∧ User.isActive (a_user a) = true
  ∧ User.licenseNumber (a_user a) = User.licenseNumber (h_user h)
  ∧ (∀ u x y, u ∈ users db → User.role u = driver → User.isActive u = true →
       User.licenseNumber u = Some license → user_location u = Some (x, y) →
       ∃ d, a_distance a = Some d ∧ (d <= calculateDistance la lo x y)%Q).
Proof.
  intros Hd. split.
  { destruct (sos_POST_dispatch uid
                (Some {| lat := Some la; lng := Some lo; loc_address := addr |})
                la lo symptoms ai freshId now db eq_refl) as (r & -> & _).
    rewrite Hd. simpl. rewrite lookup_insert_eq. eauto. }
  pose proof (dispatch_DriverFound _ _ _ _ _ _ Hd) as (Hh & Ha & Hhl & Hal).
  unfold dispatch_of in Hd.
  destruct (findNearestHospitals la lo 5 (users db)) as [|h0 hs] eqn:Hhs;
    [by destruct (fallback_hospital (users db))|].
  destruct (truthy_string (User.licenseNumber (h_user h0))) as [l|] eqn:Hl; [|done].
  destruct (findNearestAmbulances la lo 3 (Some l) (users db)) as [|a0 amb] eqn:Has;
    [done|].
  injection Hd as -> -> ->.
  destruct (findNearestHospitals_elem la lo 5 (users db) h) as [_ Hact];
    [rewrite Hhs; left|].
  destruct (findNearestAmbulances_elem la lo 3 (Some license) (users db) a) as [_ Hc];
    [rewrite Has; left|].
  apply truthy_string_inv in Hl as [_ Hne].
  unfold driver_candidate in Hc. rewrite (truthy_string_Some _ Hne) in Hc.
  apply andb_true_iff in Hc as [Hc _]. apply andb_true_iff in Hc as [Hrole Hactive].
  apply bool_decide_eq_true in Hrole.
  split; [done|]. split; [done|]. split.
  { intros u x y Hu Hua Hloc. by apply (nearest_hospital_least la lo 5 (users db) h hs u). }
  split; [done|]. split; [done|]. split; [done|]. split; [congruence|].
  intros u x y Hu Hur Hua Hul Hloc.
  assert (driver_candidate (Some license) u = true) as Hcand.
  { unfold driver_candidate. rewrite (truthy_string_Some _ Hne), Hur, Hua, Hul.
    by rewrite !bool_decide_eq_true_2. }
  pose proof (nearest_ambulance_least la lo 3 (Some license) (users db) a amb u Has Hu Hcand)
    as Hbefore.
  unfold driver_before, rank_driver in Hbefore. unfold user_location in Hloc.
  destruct (User.locationLat u) as [x'|]; [|done].
  destruct (User.locationLng u) as [y'|]; [|done]. injection Hloc as -> ->.
  simpl in Hbefore. destruct (a_distance a) as [d|]; [|done].
  apply orb_false_iff in Hbefore as [Hlt _]. apply Qltb_false in Hlt. eauto.
Qed.

(** X26.  Creating an SOS leaves users, documents and blobs alone and
    touches no emergency but the new one; a request that is refused (401,
    400) writes nothing.  What the Severity Scorer returned, or whether it
    returned at all, changes neither the answer's status code nor the
    status, hospital, driver, distance and ETA of the new row. *)
Theorem sos_create_is_independent_of_the_scorer `{GeoOracle} :
  (∀ ru location symptoms ai freshId now db,
     users (sos_POST ru location symptoms ai freshId now db).2 = users db
     ∧ documents (sos_POST ru location symptoms ai freshId now db).2 = documents db
     ∧ blobs (sos_POST ru location symptoms ai freshId now db).2 = blobs db
     ∧ ∀ k, k ≠ freshId →
         emergencies (sos_POST ru location symptoms ai freshId now db).2 !! k
         = emergencies db !! k)
  ∧ (∀ ru location symptoms ai freshId now db,
       httpStatus (sos_POST ru location symptoms ai freshId now db).1 = 401
       ∨ httpStatus (sos_POST ru location symptoms ai freshId now db).1 = 400 →
       (sos_POST ru location symptoms ai freshId now db).2 = db)
  ∧ (∀ ru location symptoms ai ai' freshId now db,
       httpStatus (sos_POST ru location symptoms ai freshId now db).1
       = httpStatus (sos_POST ru location symptoms ai' freshId now db).1
       ∧ (fun e => (Emergency.status e, Emergency.assignedHospitalId e,
                    Emergency.assignedDriverId e, Emergency.distanceKm e,
                    Emergency.etaMinutes e))
           <$> emergencies (sos_POST ru location symptoms ai freshId now db).2 !! freshId
         = (fun e => (Emergency.status e, Emergency.assignedHospitalId e,
                      Emergency.assignedDriverId e, Emergency.distanceKm e,
                      Emergency.etaMinutes e))
             <$> emergencies (sos_POST ru location symptoms ai' freshId now db).2
                   !! freshId).
Proof.
  assert (∀ ru location symptoms ai freshId now db,
            (∃ r, sos_POST ru location symptoms ai freshId now db = (r, db)
                  ∧ (httpStatus r = 401 ∨ httpStatus r = 400)
                  ∧ ∀ ai', sos_POST ru location symptoms ai' freshId now db = (r, db))
            ∨ ∃ uid la lo r,
                ru = Some {| ru_id := uid; ru_role := patient |}
                ∧ valid_location location = Some (la, lo)
                ∧ sos_POST ru location symptoms ai freshId now db
                  = (r, with_emergencies
                          (<[freshId :=
                               Emergency.write
                                 (dispatch_data la lo (from_option ai_severityScore 50 ai)
                                    (from_option ai_assessment
                                       "Symptoms received, awaiting analysis" ai)
                                    (dispatch_of la lo (users db)))
                                 (created_row freshId uid la lo location symptoms now)]>
                             (emergencies db)) db)
                ∧ sos_report r = report_of (outcome_of (dispatch_of la lo (users db))))
    as Hcases.
  { intros ru location symptoms ai freshId now db.
    destruct ru as [[uid []]|];
      [|left; eexists; split; [reflexivity|]; split; [by left|done]..].
    destruct (valid_location location) as [[la lo]|] eqn:Hv.
    - right. destruct (sos_POST_dispatch uid location la lo symptoms ai freshId now db Hv)
        as (r & Hr & Hrep).
      by exists uid, la, lo, r.
    - left. unfold sos_POST. rewrite Hv. eexists. split; [reflexivity|].
      split; [by right|done]. }
  split; [|split].
  - intros ru location symptoms ai freshId now db.
    destruct (Hcases ru location symptoms ai freshId now db)
      as [(r & -> & _)|(uid & la & lo & r & _ & _ & -> & _)]; [done|].
    repeat split; try done. intros k Hk. simpl. by rewrite lookup_insert_ne.
  - intros ru location symptoms ai freshId now db.
    destruct (Hcases ru location symptoms ai freshId now db)
      as [(r & -> & _)|(uid & la & lo & r & _ & _ & -> & Hrep)]; [done|].
    simpl. assert (httpStatus r = (report_of (outcome_of (dispatch_of la lo (users db)))).1.1)
      as -> by (by rewrite <- Hrep).
    by destruct (outcome_of _); intros [|].
  - intros ru location symptoms ai ai' freshId now db.
    destruct (Hcases ru location symptoms ai freshId now db)
      as [(r & Hr & _ & Hall)|(uid & la & lo & r & -> & Hv & -> & Hrep)].
    { by rewrite Hr, (Hall ai'). }
    destruct (sos_POST_dispatch uid location la lo symptoms ai' freshId now db Hv)
      as (r' & -> & Hrep').
    simpl. split.
    + assert (sos_report r = sos_report r') as Heq by congruence.
      by injection Heq.
    + rewrite !lookup_insert_eq. simpl. by destruct (dispatch_of la lo (users db)).
Qed.

(** X29.  A token is accepted only with a secret configured and a signature
    segment that decodes to the HMAC of the payload segment under it; the
    payload returned is what the payload segment parses to, has a non-empty
    document id, user id and role, and an [exp] not before the current
    second. *)
Theorem verified_token_is_signed `{TokenCrypto} (secret : option string) (now : Z)
    (token : string) (p : DocumentTokenPayload) :
  verifyDocumentToken secret now token = Some p →
  ∃ key payloadB64 sigB64 rest,
    secret = Some key
    ∧ split_on "." token = payloadB64 :: sigB64 :: rest
    ∧ payloadB64 ≠ "" ∧ sigB64 ≠ ""
    ∧ base64urlToBuffer sigB64 = hmac_sha256 key payloadB64
    ∧ JSON_parse (base64urlToBuffer payloadB64) = Some p
    ∧ documentId p ≠ "" ∧ userId p ≠ "" ∧ tk_role p ≠ "" ∧ exp p ≠ 0
    ∧ now / 1000 ≤ exp p.
Proof.
  unfold verifyDocumentToken. destruct secret as [key|]; [|done]. cbv zeta.
  destruct (split_on "." token) as [|payloadB64 [|sigB64 rest]] eqn:Hparts; [done|..].
  { change (truthy_string ([payloadB64] !! 1%nat)) with (@None string).
    by destruct (truthy_string ([payloadB64] !! 0%nat)). }
  change ((payloadB64 :: sigB64 :: rest) !! 0%nat) with (Some payloadB64).
  change ((payloadB64 :: sigB64 :: rest) !! 1%nat) with (Some sigB64).
  destruct (truthy_string (Some payloadB64)) as [x|] eqn:Hp; [|done].
  apply truthy_string_inv in Hp as [[= <-] Hpne].
  destruct (truthy_string (Some sigB64)) as [y|] eqn:Hs; [|done].
  apply truthy_string_inv in Hs as [[= <-] Hsne].
  destruct (negb (_ =? _)%nat); [done|].
  destruct (String.eqb_spec (hmac_sha256 key payloadB64) (base64urlToBuffer sigB64))
    as [Hsig|]; [|done]. simpl negb. cbv iota.
  destruct (JSON_parse _) as [payload|] eqn:Hjson; [|done].
  destruct (String.eqb_spec (documentId payload) "") as [|Hd]; [done|].
  destruct (String.eqb_spec (userId payload) "") as [|Hu]; [done|].
  destruct (String.eqb_spec (tk_role payload) "") as [|Hr]; [done|].
  destruct (Z.eqb_spec (exp payload) 0) as [|He]; [done|]. simpl.
  destruct (Z.ltb_spec (exp payload) (now / 1000)); [done|]. intros [= <-].
  by exists key, payloadB64, sigB64, rest.
Qed.

(** ** Whose case it is *)

Lemma find_emergency_other (eid : string) (cond : Emergency.t → bool) (db : Db)
    (e : Emergency.t) :
  emergencies db !! eid = Some e → cond e = false → find_emergency eid cond db = None.
Proof. intros He Hc. unfold find_emergency. by rewrite He, Hc. Qed.

(** X30.  A driver who is not the assigned driver of a case is answered 404
    by both driver handlers, and a patient who is not its patient by the
    location PATCH; the case is left as it was.  For the assigned driver the
    status action decides what is written, before any [status] in the body:
    "patient_loaded" gives en_route, "arrived_hospital" gives arrived and
    stamps [arrivedAt], "handover_complete" gives completed and stamps
    [completedAt]; without one of these the body's status is written, or
    nothing. *)
Theorem writes_need_ones_own_case `{GeoOracle} :
  (∀ uid eid la lo now db e,
     eid ≠ "" → emergencies db !! eid = Some e →
     Emergency.assignedDriverId e ≠ Some uid → isValidCoordinate la lo = true →
     driver_location_POST (Some {| ru_id := uid; ru_role := driver |}) (Some eid)
       (Some la) (Some lo) now db
     = (respond 404 (DriverPostError "Emergency not found or not assigned to you"), db))
  ∧ (∀ uid eid status action now db e,
       eid ≠ "" → emergencies db !! eid = Some e →
       Emergency.assignedDriverId e ≠ Some uid →
       driver_status_PATCH (Some {| ru_id := uid; ru_role := driver |}) (Some eid)
         status action now db
       = (respond 404 (StatusError "Emergency not found"), db))
  ∧ (∀ uid eid la lo addr db e,
       eid ≠ "" → emergencies db !! eid = Some e → Emergency.patientId e ≠ uid →
       sos_PATCH (Some {| ru_id := uid; ru_role := patient |}) (Some eid)
         (Some {| lat := Some la; lng := Some lo; loc_address := addr |}) db
       = (respond 404 (PatchError "Emergency not found"), db))
  ∧ (∀ uid eid status action now db e,
       eid ≠ "" → emergencies db !! eid = Some e →
       Emergency.assignedDriverId e = Some uid →
       ∃ e',
         driver_status_PATCH (Some {| ru_id := uid; ru_role := driver |}) (Some eid)
           status action now db
         = (respond 200 (StatusOk (Emergency.id e) (Emergency.status e')),
            with_emergencies (<[eid := e']> (emergencies db)) db)
         ∧ (action = Some "patient_loaded" →
            Emergency.status e' = en_route
            ∧ Emergency.arrivedAt e' = Emergency.arrivedAt e
            ∧ Emergency.completedAt e' = Emergency.completedAt e)
         ∧ (action = Some "arrived_hospital" →
            Emergency.status e' = arrived ∧ Emergency.arrivedAt e' = Some now
            ∧ Emergency.completedAt e' = Emergency.completedAt e)
         ∧ (action = Some "handover_complete" →
            Emergency.status e' = completed ∧ Emergency.completedAt e' = Some now
            ∧ Emergency.arrivedAt e' = Emergency.arrivedAt e)
         ∧ (action ≠ Some "patient_loaded" → action ≠ Some "arrived_hospital" →
            action ≠ Some "handover_complete" →
            Emergency.status e' = default (Emergency.status e) status
            ∧ Emergency.arrivedAt e' = Emergency.arrivedAt e
            ∧ Emergency.completedAt e' = Emergency.completedAt e)).
Proof.
  split; [|split; [|split]].
  - intros uid eid la lo now db e Hne He Hother Hvalid. unfold driver_location_POST.
    rewrite (truthy_string_Some eid Hne), Hvalid. simpl negb. cbv iota.
    by rewrite (find_emergency_other _ _ _ e He) by (by apply bool_decide_eq_false).
  - intros uid eid status action now db e Hne He Hother. unfold driver_status_PATCH.
    rewrite (truthy_string_Some eid Hne).
    by rewrite (find_emergency_other _ _ _ e He) by (by apply bool_decide_eq_false).
  - intros uid eid la lo addr db e Hne He Hother. unfold sos_PATCH.
    rewrite (truthy_string_Some eid Hne). simpl valid_location. cbv iota.
    by rewrite (find_emergency_other _ _ _ e He) by (by apply bool_decide_eq_false).
  - intros uid eid status action now db e Hne He Hmine. unfold driver_status_PATCH.
    rewrite (truthy_string_Some eid Hne).
    rewrite (find_emergency_found _ _ _ e He) by (by apply bool_decide_eq_true).
    rewrite (update_then_found _ _ _ _ _ _ He).
    eexists. split; [reflexivity|]. unfold driver_action_data.
    split; [intros ->; by repeat case_bool_decide|].
    split; [intros ->; by repeat case_bool_decide|].
    split; [intros ->; by repeat case_bool_decide|].
    intros H1 H2 H3. by rewrite !bool_decide_eq_false_2.
Qed.

(** * Scenarios

    The handlers run on the sample data, with [meridianKm] for the haversine
    value and [toy_crypto] for the token primitives. *)

Section Scenarios.
#[local] Existing Instance meridianKm.
#[local] Existing Instance toy_crypto.

(** C1 at the sample data: e1 is completed; pat1 then moves to (10, 20)
    and drvA reports from the patient's address.  Both requests are written
    to the row. *)
Lemma completed_emergency_is_rewritten_at_e1 :
  (∃ e',
     sos_PATCH (Some pat1_user) (Some "e1")
       (Some {| lat := Some 10%Q; lng := Some 20%Q; loc_address := None |}) completed_db
     = (respond 200 PatchCompleted,
        with_emergencies (<["e1" := e']> (emergencies completed_db)) completed_db)
     ∧ Emergency.status e' = completed
     ∧ Emergency.patientLat e' = 10%Q ∧ Emergency.patientLng e' = 20%Q)
  ∧ (∃ e' t n,
       driver_location_POST (Some drvA_user) (Some "e1")
         (Some (286 # 10)%Q) (Some (772 # 10)%Q) 9000 completed_db
       = (respond 200 (DriverPostWritten t n),
          with_emergencies (<["e1" := e']> (emergencies completed_db)) completed_db)
       ∧ (Emergency.status e' = en_route ∨ Emergency.status e' = arrived)
       ∧ Emergency.driverLat e' = Some (286 # 10)%Q
       ∧ Emergency.driverLng e' = Some (772 # 10)%Q
       ∧ Emergency.driverLastLocationUpdate e' = Some 9000).
Proof.
  destruct (completed_emergency_is_rewritten completed_db "e1" (row "e1" completed_db))
    as [Hpatient Hdriver]; [by vm_compute | done | by vm_compute |].
  split.
  - exact (Hpatient 10%Q 20%Q None).
  - apply (Hdriver "drvA"); by vm_compute.
Defined.

(** C6, the claim as stated fails: with a licensed hospital that has no
    coordinates and a driver of that license on duty, the response is none of
    the four outcomes.  A hospital is assigned (not "no hospitals"), it has a
    license on file (not "no license"), a matching driver exists (not "no
    matching driver"), and no ambulance is dispatched. *)
Lemma unranked_hospital_is_a_fifth_outcome :
  sos_report (sos_POST (Some pat1_user) (Some at_patient) None None "e1" 1000 noloc_db).1
  = (202, Some false, Some msg_fallback)
  ∧ Emergency.assignedHospitalId
      <$> emergencies
            (sos_POST (Some pat1_user) (Some at_patient) None None "e1" 1000 noloc_db).2
          !! "e1"
    = Some (Some "hospNoLoc")
  ∧ User.licenseNumber <$> find_user "hospNoLoc" (users noloc_db) = Some (Some "H1")
  ∧ (User.id ∘ a_user)
      <$> findNearestAmbulances (286 # 10) (772 # 10) 3 (Some "H1") (users noloc_db)
    = ["drvA"]
  ∧ Emergency.assignedDriverId
      <$> emergencies
            (sos_POST (Some pat1_user) (Some at_patient) None None "e1" 1000 noloc_db).2
          !! "e1"
    = Some None.
Proof. vm_compute. done. Qed.

(** C5, the claim as stated fails: the nearest (and only) hospital has no
    license, the dispatch returns that hospital, and the row is persisted
    with status [pending]. *)
Lemma hospital_without_driver_stays_pending :
  httpStatus (sos_POST (Some pat1_user) (Some at_patient) None None "e1" 1000 nolic_db).1
  = 202
  ∧ Emergency.assignedHospitalId
      <$> emergencies
            (sos_POST (Some pat1_user) (Some at_patient) None None "e1" 1000 nolic_db).2
          !! "e1"
    = Some (Some "hospNoLic")
  ∧ Emergency.status
      <$> emergencies
            (sos_POST (Some pat1_user) (Some at_patient) None None "e1" 1000 nolic_db).2
          !! "e1"
    = Some pending.
Proof. vm_compute. done. Qed.

(** C2, the claim as stated fails: e1 is completed, hospital hospA accepts
    it, and its status is [assigned], which is lower in the ordering and not
    a transit alternation. *)
Lemma accept_after_completion_regresses :
  status_at completed_db "e1" = Some completed
  ∧ status_at (serve (AcceptCase (Some hospA_user) (Some "e1")) 6000 completed_db) "e1"
    = Some assigned
  ∧ no_regress completed assigned = false.
Proof. vm_compute. done. Qed.

(** C3, the claim as stated fails: e1 is dispatched to hospA with driver
    drvA (license H1); hospB (license H2) accepts it; the row then names
    drvA and hospB, whose licenses differ. *)
Lemma accept_by_other_hospital_breaks_license_match :
  ∃ e,
    emergencies (serve (AcceptCase (Some hospB_user) (Some "e1")) 2000 dispatched_db) !! "e1"
    = Some e
    ∧ Emergency.assignedDriverId e = Some "drvA"
    ∧ Emergency.assignedHospitalId e = Some "hospB"
    ∧ User.licenseNumber <$> find_user "drvA" (users dispatched_db) = Some (Some "H1")
    ∧ User.licenseNumber <$> find_user "hospB" (users dispatched_db) = Some (Some "H2")
    ∧ ¬ assignment_consistent (users dispatched_db) e.
Proof.
  eexists. split; [vm_compute; reflexivity|]. repeat split.
  intros Hc. destruct (Hc "drvA" eq_refl) as (h & du & hu & Hh & Hd & Hu & Hlic).
  vm_compute in Hh, Hd, Hu. injection Hh as <-. injection Hd as <-. injection Hu as <-.
  discriminate Hlic.
Qed.

(** C4, the claim as stated fails: hospA asks for its feed without a status
    filter.  c1 is assigned to hospA, was triggered two minutes ago and has
    one unexpired document, but it is completed and the feed leaves it out;
    the feed holds c3 alone. *)
Lemma completed_case_with_live_document_is_not_listed :
  ∃ e d,
    emergencies feed_db !! "c1" = Some e
    ∧ Emergency.assignedHospitalId e = Some "hospA"
    ∧ Emergency.status e = completed
    ∧ Emergency.triggeredAt e = feed_now - 2 * 60 * 1000
    ∧ documents_of (Emergency.id e) feed_db = [d]
    ∧ feed_now < MedicalDocument.expiresAt d
    ∧ ∃ payload,
        (hospital_feed_GET (Some hospA_user) None None None feed_now true ∅ feed_db).1
        = respond 200 (FeedOk payload false)
        ∧ (Emergency.id ∘ f_emergency) <$> fp_emergencies payload = ["c3"].
Proof.
  eexists _, _. split; [vm_compute; reflexivity|].
  do 3 (split; [reflexivity|]).
  split; [vm_compute; reflexivity|]. split; [reflexivity|].
  eexists. split; [vm_compute; reflexivity|]. reflexivity.
Qed.

(** C7, a concrete report.  drvA's position was written at time 2000; one
    second later drvA reports from 0.0003 degrees further north on the same
    meridian, which is more than 20 metres away (about 33).  The derived
    status is unchanged, and the write is skipped. *)
Lemma throttle_skips_a_33_metre_move :
  (2 # 100 <= haversineKm (287003 # 10000) (772 # 10) (287 # 10) (772 # 10))%Q
  ∧ ∃ tracking,
      driver_location_POST (Some drvA_user) (Some "e1")
        (Some (287003 # 10000)%Q) (Some (772 # 10)%Q) 3000 en_route_db
      = (respond 200 (DriverPostSkipped tracking), en_route_db).
Proof.
  split; [by vm_compute|].
  destruct (throttle_skips_below_fifty_metres en_route_db "e1" "drvA"
              (row "e1" en_route_db) (287003 # 10000) (772 # 10) (287 # 10) (772 # 10)
              3000)
    as (Hiff & tracking & _ & _ & Hskip & _);
    [by vm_compute | done | by vm_compute | by vm_compute | by vm_compute | by vm_compute |].
  exists tracking. apply Hskip, Hiff.
  split; [exists 2000; by vm_compute|]. split; by vm_compute.
Defined.

(** C10 at the sample database: hospA reads e1's tracking at time 2000;
    hospB accepts e1 at 2500, which ends hospA's access; at 3000 hospA still
    receives the payload of its first read. *)
Lemma revoked_hospital_still_reads_tracking :
  hasAccess hospA_user
    <$> emergencies (serve (AcceptCase (Some hospB_user) (Some "e1")) 2500 dispatched_db)
        !! "e1"
  = Some false
  ∧ ∃ cache1,
      tracking_GET (Some hospA_user) (Some "e1") 2000 true ∅ dispatched_db
      = (respond 200
           (TrackingOk (tracking_payload dispatched_db (row "e1" dispatched_db)) false),
         cache1)
      ∧ tracking_GET (Some hospA_user) (Some "e1") 3000 true cache1
          (serve (AcceptCase (Some hospB_user) (Some "e1")) 2500 dispatched_db)
        = (respond 200
             (TrackingOk (tracking_payload dispatched_db (row "e1" dispatched_db)) false),
           cache1).
Proof.
  split; [by vm_compute|].
  apply (proj2 (proj2 tracking_cache_serves_without_rechecking));
    [done | done | by vm_compute | by vm_compute | lia].
Defined.

(** C2 at the sample data: e1 is en_route after drvA's first report; a
    report from the patient's position makes it arrived, which is no
    regression. *)
Lemma report_at_patient_does_not_regress :
  ∃ new,
    status_at
      (serve (ReportDriverLocation (Some drvA_user) (Some "e1")
                (Some (286 # 10)%Q) (Some (772 # 10)%Q)) 9000 en_route_db) "e1"
    = Some new
    ∧ no_regress en_route new = true.
Proof.
  apply (proj1 status_regresses_only_through_overwrites); [done | by vm_compute | done].
Defined.

(** C3 at the sample data: the row created for pat1 in [city_db] names
    drvA and hospA, which share license H1. *)
Lemma dispatched_row_is_consistent :
  assignment_consistent (users city_db) (row "e1" dispatched_db).
Proof.
  apply (proj1 assignment_consistency_of_dispatch_and_accept
           "pat1" (286 # 10)%Q (772 # 10)%Q (Some "12 Main Road") None None "e1" 1000
           city_db).
  - apply (bool_decide_unpack _). by vm_compute.
  - by vm_compute.
Defined.

(** C4 at the sample data: c3 is pending, has no document and is one minute
    old; it is the first row of the page, so it is listed. *)
Lemma pending_recent_case_is_listed :
  feed_item feed_now feed_db (row "c3" feed_db)
  ∈ fp_emergencies (feed_read "hospA" None 20 0 feed_now feed_db).
Proof.
  apply (proj1 (proj2 feed_lists_visible_uncompleted_cases)).
  exists (row "c3" feed_db), 0%nat. split; [done|].
  split; [by vm_compute|]. split; [done|]. intros j e' Hj. lia.
Defined.

(** C8 at the sample data.  Token "P1.kP1" verifies at second 8000 and
    carries exp 9000; at [feed_now] (second 10000) doc1 has 58 minutes left,
    and the request is answered 401.  Token "P2.kP2" is valid at second
    14000, when doc1 has expired: the request is answered 410 and doc1 and
    its blob are gone. *)
Lemma expired_token_then_expired_document :
  feed_now < MedicalDocument.expiresAt doc1
  ∧ documents_view_GET (Some "k") (Some "P1.kP1") true true feed_now feed_db
    = (respond 401 (ViewError "Invalid or expired token"), feed_db)
  ∧ ∃ db',
      documents_view_GET (Some "k") (Some "P2.kP2") true true 14000000 feed_db
      = (respond 410 (ViewError "Document expired"), db')
      ∧ documents db' !! "doc1" = None
      ∧ "blob1" ∉ blobs db'.
Proof.
  split; [by vm_compute|]. split.
  - apply (proj1 document_view_enforces_both_expiries (Some "k") "P1.kP1" 8000000 feed_now
             {| documentId := "doc1"; userId := "pat1"; tk_role := "patient"; exp := 9000 |});
      by vm_compute.
  - destruct (proj1 (proj2 document_view_enforces_both_expiries) (Some "k") "P2.kP2"
                14000000
                {| documentId := "doc1"; userId := "pat1"; tk_role := "patient";
                   exp := 99999 |}
                doc1 true true feed_db) as (db' & Hr & Hgone & Hblob & _);
      [by vm_compute | by vm_compute | done | by vm_compute |].
    exists db'. done.
Defined.

(** C9 at the sample data: latitude 91 and longitude 200 are out of range;
    [create] stores them in a new row, [updatePatientLocation] writes them
    over e1, and the driver location handler refuses them. *)
Lemma latitude_91_is_stored :
  isValidCoordinate 91 200 = false
  ∧ (∃ e,
       emergencies
         (sos_POST (Some pat1_user)
            (Some {| lat := Some 91%Q; lng := Some 200%Q; loc_address := None |})
            None None "e9" 1000 city_db).2 !! "e9" = Some e
       ∧ Emergency.patientLat e = 91%Q ∧ Emergency.patientLng e = 200%Q)
  ∧ (∃ e',
       emergencies
         (sos_PATCH (Some pat1_user) (Some "e1")
            (Some {| lat := Some 91%Q; lng := Some 200%Q; loc_address := None |})
            dispatched_db).2 !! "e1" = Some e'
       ∧ Emergency.patientLat e' = 91%Q ∧ Emergency.patientLng e' = 200%Q)
  ∧ (driver_location_POST (Some drvA_user) (Some "e1") (Some 91%Q) (Some 200%Q) 2000
       dispatched_db).2 = dispatched_db.
Proof.
  destruct sos_coordinates_are_not_range_checked as (Hcreate & Hpatch & Hdriver).
  split; [done|]. split; [apply Hcreate|]. split.
  - apply (Hpatch dispatched_db "e1" (row "e1" dispatched_db)); [by vm_compute | done].
  - by apply Hdriver.
Defined.

(** ** More of the code, at the sample data *)


(** X6 at the sample data: e1 is completed, hospB accepts it at 6000; the
    row is assigned again and still carries its completion time. *)
Lemma reaccepted_case_keeps_completedAt :
  is_Some (Emergency.completedAt (row "e1" completed_db))
  ∧ ∃ e',
      emergencies
        (serve_all [(AcceptCase (Some hospB_user) (Some "e1"), 6000)] completed_db) !! "e1"
      = Some e'
      ∧ is_Some (Emergency.completedAt e').
Proof.
  split; [by vm_compute; eexists|].
  destruct (filled_columns_stay_filled
              [(AcceptCase (Some hospB_user) (Some "e1"), 6000)] completed_db "e1"
              (row "e1" completed_db)) as (e' & He' & Hkept); [by vm_compute|].
  exists e'. split; [done|]. apply Hkept. by vm_compute; eexists.
Defined.

(** X11 at the sample data: hospA's feed computed at [feed_now] is repeated
    2999 ms later without storage, and marked stale at 3000 ms. *)
Lemma feed_page_is_repeated_for_three_seconds :
  ∃ payload cache1,
    hospital_feed_GET (Some hospA_user) None None None feed_now true ∅ feed_db
    = (respond 200 (FeedOk payload false), cache1)
    ∧ hospital_feed_GET (Some hospA_user) None None None (feed_now + 2999) false cache1
        (empty_db [])
      = (respond 200 (FeedOk payload false), cache1)
    ∧ hospital_feed_GET (Some hospA_user) None None None (feed_now + 3000) false cache1
        (empty_db [])
      = (respond 200 (FeedOk payload true), cache1).
Proof.
  destruct (feed_cache_repeats_the_page "hospA" None None None feed_now ∅ feed_db)
    as (payload & cache1 & Hfirst & _ & Hfresh & Hstale & _); [by vm_compute|].
  exists payload, cache1. split; [done|].
  split; [apply Hfresh; lia|apply Hstale; lia].
Defined.

(** X12 at the sample data: drvA's assignment after the dispatch is e1. *)
Lemma drvA_is_assigned_e1 :
  ∃ p cache',
    driver_assignment_GET (Some drvA_user) 2000 true ∅ dispatched_db
    = (respond 200 (AssignmentOk p false), cache')
    ∧ Emergency.assignedDriverId (as_emergency p) = Some "drvA"
    ∧ (Emergency.status (as_emergency p) = assigned
       ∨ Emergency.status (as_emergency p) = en_route).
Proof.
  assert (∃ p cache',
            driver_assignment_GET (Some drvA_user) 2000 true ∅ dispatched_db
            = (respond 200 (AssignmentOk p false), cache')) as (p & cache' & Hget)
    by (eexists _, _; vm_compute; reflexivity).
  exists p, cache'. split; [done|].
  destruct (driver_assignment_is_current "drvA" 2000 ∅ cache' dispatched_db p)
    as (_ & Hdrv & Hst & _); [by vm_compute | done |]. done.
Defined.

(** X13 at the sample data: drvA reports from the patient's position. *)
Lemma report_at_patient_ends_the_assignment :
  ∃ t note db',
    driver_location_POST (Some drvA_user) (Some "e1") (Some (286 # 10)%Q)
      (Some (772 # 10)%Q) 2000 dispatched_db
    = (respond 200 (DriverPostWritten t (Some note)), db')
    ∧ ∃ k e',
        truthy_string (Some "e1") = Some k
        ∧ emergencies db' !! k = Some e'
        ∧ Emergency.status e' = arrived
        ∧ ∀ uid now' cache cache' p stale,
            cached_when (fun c => now' <? ce_expiresAt c) (cache !! assignment_cacheKey uid)
            = None →
            driver_assignment_GET (Some {| ru_id := uid; ru_role := driver |}) now' true
              cache db'
            = (respond 200 (AssignmentOk p stale), cache') →
            stale = false → as_emergency p ≠ e'.
Proof.
  assert (∃ t note db',
            driver_location_POST (Some drvA_user) (Some "e1") (Some (286 # 10)%Q)
              (Some (772 # 10)%Q) 2000 dispatched_db
            = (respond 200 (DriverPostWritten t (Some note)), db'))
    as (t & note & db' & Hpost) by (eexists _, _, _; vm_compute; reflexivity).
  exists t, note, db'. split; [done|].
  exact (arrived_case_leaves_the_assignment _ _ _ _ _ _ _ _ _ Hpost).
Defined.

(** X15 with the real codec: a token made at second 1000 with the default
    lifetime verifies through second 1300 and not at second 1301. *)
Lemma token_for_doc9_verifies_for_300_seconds :
  ∃ token,
    createDocumentToken (H := codec_crypto) toy_stringify (Some "k") "doc9" "pat1"
      "patient" None 1000000 = Some token
    ∧ verifyDocumentToken (H := codec_crypto) (Some "k") 1300999 token = Some doc9_payload
    ∧ verifyDocumentToken (H := codec_crypto) (Some "k") 1301000 token = None.
Proof.
  destruct (created_token_verifies (H := codec_crypto) toy_stringify "k" "doc9" "pat1"
              "patient" None 1000000) as (token & Hcreate & _ & Hlive & Hlate & _);
    [done | by vm_compute | by vm_compute | by vm_compute |].
  exists token. split; [exact Hcreate|]. split.
  - apply Hlive; by vm_compute.
  - apply Hlate. by vm_compute.
Defined.

(** X16 at the sample token. *)
Lemma token_with_junk_after_signature_verifies :
  verifyDocumentToken (Some "k") 8000000 "P2.kP2" = Some p2_payload
  ∧ verifyDocumentToken (Some "k") 8000000 "P2.kP2.junk" = Some p2_payload.
Proof.
  split; [by vm_compute|].
  apply (verified_token_ignores_trailing_segments (Some "k") 8000000 "P2.kP2" "junk").
  by vm_compute.
Defined.

(** X17 at the sample data, an hour after [feed_now]: doc1 has expired. *)
Lemma cleanup_of_feed_db :
  documents_keyed feed_db
  ∧ emergencies (cleanupExpiredDocuments (feed_now + 3600000) feed_db)
    = emergencies feed_db
  ∧ ∀ k d,
      documents (cleanupExpiredDocuments (feed_now + 3600000) feed_db) !! k = Some d →
      feed_now + 3600000 ≤ MedicalDocument.expiresAt d.
Proof.
  assert (documents_keyed feed_db) as Hkeyed.
  { intros k d Hk. unfold feed_db in Hk. cbn [documents] in Hk.
    by apply lookup_singleton_Some in Hk as [<- <-]. }
  split; [exact Hkeyed|].
  destruct (cleanup_sweeps_expired_documents (feed_now + 3600000) feed_db Hkeyed)
    as (_ & He & _ & _ & _ & Hswept).
  split; [exact He|]. apply Hswept. vm_compute. lia.
Defined.

(** X18 at the sample data: a document saved for e1 at second 1000 is
    served to its patient 1000 seconds later. *)
Lemma saved_document_is_served_within_the_hour :
  documents_view_GET (Some "k") (Some "P2.kP2") true false 2000000
    (saveDocumentReference "e1" sample_uploadResult "doc1" 1000000 dispatched_db).2
  = (respond 200 (ViewContent "https://res.example.org/doc1.pdf"),
     (saveDocumentReference "e1" sample_uploadResult "doc1" 1000000 dispatched_db).2).
Proof.
  apply (proj1 (proj2 (saved_document_lives_one_hour (Some "k") "P2.kP2" p2_payload
                         1000000 2000000 "e1" "doc1" sample_uploadResult false
                         dispatched_db (row "e1" dispatched_db)
                         ltac:(by vm_compute) eq_refl ltac:(by vm_compute)
                         ltac:(by vm_compute)))).
  lia.
Defined.

(** X19 at the sample data: pat1 uploads a PDF for e1. *)
Lemma pat1_uploads_to_e1 :
  ∃ id ty size expiresAt token db',
    uploads_POST (H := codec_crypto) toy_stringify (Some "k") (Some pat1_user)
      (Some sample_file) (Some "e1") (Some "report") (Some sample_uploaded) "doc9" 1000000
      dispatched_db
    = (respond 201 (UploadOk id ty size expiresAt token), db')
    ∧ id = "doc9" ∧ expiresAt = 4600000
    ∧ users db' = users dispatched_db ∧ emergencies db' = emergencies dispatched_db.
Proof.
  assert (∃ id ty size expiresAt token db',
            uploads_POST (H := codec_crypto) toy_stringify (Some "k") (Some pat1_user)
              (Some sample_file) (Some "e1") (Some "report") (Some sample_uploaded) "doc9"
              1000000 dispatched_db
            = (respond 201 (UploadOk id ty size expiresAt token), db'))
    as (id & ty & size & expiresAt & token & db' & Hpost)
    by (eexists _, _, _, _, _, _; vm_compute; reflexivity).
  exists id, ty, size, expiresAt, token, db'. split; [done|].
  destruct (upload_is_by_the_patient_of_the_case (H := codec_crypto) _ _ _ _ _ _ _ _ _ _ _
              _ _ _ _ _ Hpost)
    as (uid & k & e & f & doc & _ & _ & _ & _ & _ & _ & _ & -> & -> & _ & _ & _ & _ & _ & Hu
        & He).
  done.
Defined.

(** X20 at the sample data: the token of that upload opens the document
    through second 1300 and is refused at second 1301. *)
Lemma uploaded_doc9_is_viewable_until_second_1300 :
  ∃ token db' doc,
    uploads_POST (H := codec_crypto) toy_stringify (Some "k") (Some pat1_user)
      (Some sample_file) (Some "e1") (Some "report") (Some sample_uploaded) "doc9" 1000000
      dispatched_db
    = (respond 201 (UploadOk "doc9" "report" 2048 4600000 token), db')
    ∧ documents db' !! "doc9" = Some doc
    ∧ documents_view_GET (H := codec_crypto) (Some "k") (Some token) true false 1300999 db'
      = (respond 200 (ViewContent (MedicalDocument.url doc)), db')
    ∧ documents_view_GET (H := codec_crypto) (Some "k") (Some token) true false 1301000 db'
      = (respond 401 (ViewError "Invalid or expired token"), db').
Proof.
  assert (∃ token db',
            uploads_POST (H := codec_crypto) toy_stringify (Some "k") (Some pat1_user)
              (Some sample_file) (Some "e1") (Some "report") (Some sample_uploaded) "doc9"
              1000000 dispatched_db
            = (respond 201 (UploadOk "doc9" "report" 2048 4600000 token), db'))
    as (token & db' & Hpost) by (eexists _, _; vm_compute; reflexivity).
  destruct (uploaded_document_is_viewable_for_five_minutes (H := codec_crypto)
              toy_stringify "k" "pat1" (Some sample_file) (Some "e1") (Some "report")
              (Some sample_uploaded) "doc9" 1000000 dispatched_db db' "doc9" "report"
              2048 4600000 token) as (doc & Hdoc & Hview);
    [done | by vm_compute | by vm_compute | by vm_compute | done | done | lia | done |].
  exists token, db', doc. split; [done|]. split; [done|].
  split; [by apply Hview|by apply Hview].
Defined.

(** X22 at the sample data: pat1 lists the documents of c1 at [feed_now]. *)
Lemma pat1_lists_the_documents_of_c1 :
  ∃ l,
    uploads_GET toy_stringify (Some "k") (Some pat1_user) (Some "c1") feed_now feed_db
    = respond 200 (DocumentsOk l)
    ∧ l.*1 = getEmergencyDocuments "c1" feed_now feed_db
    ∧ ∀ d, d ∈ l.*1 ↔ d ∈ documents_of "c1" feed_db ∧ feed_now < MedicalDocument.expiresAt d.
Proof.
  assert (∃ l,
            uploads_GET toy_stringify (Some "k") (Some pat1_user) (Some "c1") feed_now
              feed_db
            = respond 200 (DocumentsOk l)) as (l & Hget)
    by (eexists; vm_compute; reflexivity).
  exists l. split; [exact Hget|].
  destruct (document_listing_is_gated _ _ _ _ _ _ _ Hget)
    as (u & k & e & _ & Hk & _ & _ & Hl & Hin & _).
  injection Hk as <-. exact (conj Hl Hin).
Defined.

(** X25 at the sample data: the SOS of pat1 in [city_db]. *)
Lemma pat1_is_sent_the_nearest :
  ∃ h license a,
    dispatch_of (286 # 10) (772 # 10) (users city_db) = DriverFound h license a
    ∧ User.id (h_user h) = "hospA" ∧ User.id (a_user a) = "drvA"
    ∧ ∃ e,
        emergencies
          (sos_POST (Some pat1_user)
             (Some {| lat := Some (286 # 10)%Q; lng := Some (772 # 10)%Q;
                      loc_address := None |})
             None None "e1" 1000 city_db).2 !! "e1" = Some e
        ∧ Emergency.status e = assigned
        ∧ Emergency.assignedHospitalId e = Some (User.id (h_user h))
        ∧ Emergency.assignedDriverId e = Some (User.id (a_user a)).
Proof.
  assert (∃ h license a,
            dispatch_of (286 # 10) (772 # 10) (users city_db) = DriverFound h license a
            ∧ User.id (h_user h) = "hospA" ∧ User.id (a_user a) = "drvA")
    as (h & license & a & Hd & Hh & Ha)
    by (eexists _, _, _; vm_compute; repeat split; reflexivity).
  exists h, license, a. split; [done|]. split; [done|]. split; [done|].
  exact (proj1 (dispatch_assigns_the_nearest "pat1" (286 # 10) (772 # 10) None None None
                  "e1" 1000 city_db h license a Hd)).
Defined.

(** X28 for the hospital feed's loop (base 12 s): the fourth failure in a
    row reaches the 60 s cap. *)
Lemma feed_poll_reaches_the_cap :
  0 < 12000 ∧ 12000 ≤ 60000
  ∧ last (delays 12000 0 (replicate 4 false)) = Some 60000.
Proof.
  split; [done|]. split; [done|].
  exact (proj2 (proj2 (polling_backoff_is_bounded 12000 ltac:(done) ltac:(done))) 3%nat).
Defined.

(** X29 at the sample token. *)
Lemma sample_token_is_signed :
  verifyDocumentToken (Some "k") 8000000 "P2.kP2" = Some p2_payload
  ∧ ∃ key payloadB64 sigB64 rest,
      Some "k" = Some key
      ∧ split_on "." "P2.kP2" = payloadB64 :: sigB64 :: rest
      ∧ payloadB64 ≠ "" ∧ sigB64 ≠ ""
      ∧ base64urlToBuffer sigB64 = hmac_sha256 key payloadB64
      ∧ JSON_parse (base64urlToBuffer payloadB64) = Some p2_payload
      ∧ documentId p2_payload ≠ "" ∧ userId p2_payload ≠ "" ∧ tk_role p2_payload ≠ ""
      ∧ exp p2_payload ≠ 0
      ∧ 8000000 / 1000 ≤ exp p2_payload.
Proof.
  split; [by vm_compute|].
  apply (verified_token_is_signed (Some "k") 8000000 "P2.kP2" p2_payload).
  by vm_compute.
Defined.

End Scenarios.
